(** * UFRa face re-aging core: region masks, regional blending, orchestration

    A shallow embedding of the parts of the UFRa core library that the
    specification talks about:

    - [core/src/face_parser.cpp]          (region masks from a label map),
    - [core/src/feedforward_generator.cpp] (identity-lock and regional blend),
    - [core/src/engine.cpp], [core/src/minimal_engine.cpp] (frame orchestration),
    - [core/include/ufra/compositor.h]    (the compositor interface).

    Images are matrices of pixels stored as lists of rows.  OpenCV primitives
    ([inRange], [bitwise_or], [dilate], [addWeighted], ...) are modelled by
    their documented per-pixel meaning.  Single and double precision
    arithmetic is IEEE-754 arithmetic over [spec_float]. *)

From Stdlib Require Import ZArith Lia Floats.SpecFloat.
From stdpp Require Import base list gmap strings.

Local Open Scope Z_scope.

(* ===================================================================== *)
(** ** IEEE-754 arithmetic, as the C++ [float] and [double] types use it *)
(* ===================================================================== *)

Module IEEE.
Section Format.
Variables prec emax : Z.

(** Conversion of an integer, rounding to nearest even. *)
Definition of_Z (n : Z) : spec_float := binary_normalize prec emax n 0 false.

(** The literal [n/d], correctly rounded (both [n] and [d] are small). *)
Definition lit (n d : Z) : spec_float := SFdiv prec emax (of_Z n) (of_Z d).
End Format.

(** Truncation toward zero: the value a C++ [static_cast<int>] produces
    for a finite argument. *)
Definition trunc (x : spec_float) : Z :=
  match x with
  | S754_finite s m e =>
      let a := if 0 <=? e then Z.pos m * 2 ^ e else Z.pos m / 2 ^ (- e) in
      if s then - a else a
  | _ => 0
  end.

(** Rounding to the nearest integer, ties to even ([cvRound]). *)
Definition round_even (x : spec_float) : Z :=
  match x with
  | S754_finite s m e =>
      let a :=
        if 0 <=? e then Z.pos m * 2 ^ e
        else
          let k := 2 ^ (- e) in
          let q := Z.pos m / k in
          let r := Z.pos m mod k in
          if 2 * r <? k then q
          else if k <? 2 * r then q + 1
          else if Z.even q then q else q + 1 in
      if s then - a else a
  | _ => 0
  end.
End IEEE.

Module F32.
Definition prec : Z := 24.
Definition emax : Z := 128.
Definition of_Z : Z → spec_float := IEEE.of_Z prec emax.
Definition lit : Z → Z → spec_float := IEEE.lit prec emax.
Definition add : spec_float → spec_float → spec_float := SFadd prec emax.
Definition sub : spec_float → spec_float → spec_float := SFsub prec emax.
Definition mul : spec_float → spec_float → spec_float := SFmul prec emax.
Definition ltb : spec_float → spec_float → bool := SFltb.
Definition zero : spec_float := S754_zero false.
Definition one : spec_float := of_Z 1.
End F32.

Module F64.
Definition prec : Z := 53.
Definition emax : Z := 1024.
Definition of_Z : Z → spec_float := IEEE.of_Z prec emax.
Definition lit : Z → Z → spec_float := IEEE.lit prec emax.
Definition mul : spec_float → spec_float → spec_float := SFmul prec emax.

(** Narrowing conversion to [float]. *)
Definition to_f32 (x : spec_float) : spec_float :=
  match x with
  | S754_finite s m e =>
      binary_normalize F32.prec F32.emax (if s then Z.neg m else Z.pos m) e s
  | _ => x
  end.
End F64.

#[global] Instance spec_float_eq_dec : EqDecision spec_float.
Proof. solve_decision. Defined.

(** [static_cast<uchar>(float)]: truncate, then keep the low byte. *)
Definition static_cast_uchar (x : spec_float) : Z := IEEE.trunc x mod 256.

(** [static_cast<int>(double)]. *)
Definition static_cast_int (x : spec_float) : Z := IEEE.trunc x.

(** A computation that returns a value or throws a [std::exception] with
    the given [what()]. *)
Inductive Except (A : Type) : Type :=
| Ok (a : A)
| Throw (what : string).
Arguments Ok {A} a.
Arguments Throw {A} what.

(* ===================================================================== *)
(** ** The OpenCV data model and primitives                              *)
(* ===================================================================== *)

Module cv.

(** A matrix: the list of its rows.  [Mat Z] is a single-channel 8-bit
    image, [Mat Vec3b] a three-channel one. *)
Abbreviation Mat A := (list (list A)) (only parsing).

Definition Vec3b : Type := (Z * Z * Z)%type.

Definition rows {A} (m : Mat A) : nat := length m.
Definition cols {A} (m : Mat A) : nat :=
  match m with [] => 0%nat | r :: _ => length r end.

(** [Mat()] *)
Definition Mat_default {A} : Mat A := [].

(** [Mat::empty()] *)
Definition empty {A} (m : Mat A) : bool :=
  (rows m =? 0)%nat || (cols m =? 0)%nat.

(** [Mat::clone()]: a deep copy, equal as a value. *)
Definition clone {A} (m : Mat A) : Mat A := m.

(** [Mat::size()] as (rows, cols). *)
Definition size {A} (m : Mat A) : nat * nat := (rows m, cols m).

(** Every row has the width of the matrix. *)
Definition rectangular {A} (m : Mat A) : Prop :=
  Forall (λ r, length r = cols m) m.

(** [m.at<T>(y, x)], [None] outside the matrix. *)
Definition get {A} (m : Mat A) (y x : Z) : option A :=
  if (0 <=? y) && (0 <=? x)
  then m !! Z.to_nat y ≫= λ r, r !! Z.to_nat x
  else None.

(** [Mat::zeros(size, CV_8UC1)] *)
Definition zeros (sz : nat * nat) : Mat Z := replicate sz.1 (replicate sz.2 0).

(** The loop [for y < rows, for x < cols: dst(y, x) = f y x src(y, x)]. *)
Definition mapi_pixels {A B} (f : Z → Z → A → B) (m : Mat A) : Mat B :=
  imap (λ y r, imap (λ x p, f (Z.of_nat y) (Z.of_nat x) p) r) m.

(** A matrix of the shape of [m] whose pixel at (y, x) is [f y x]. *)
Definition tabulate {A B} (f : Z → Z → B) (m : Mat A) : Mat B :=
  mapi_pixels (λ y x _, f y x) m.

(** Pixelwise unary operation. *)
Definition map_pixels {A B} (f : A → B) (m : Mat A) : Mat B :=
  (λ r : list A, f <$> r) <$> m.

(** [cv::inRange(src, Scalar(lo), Scalar(hi), dst)] *)
Definition inRange (src : Mat Z) (lo hi : Z) : Mat Z :=
  map_pixels (λ v, if (lo <=? v) && (v <=? hi) then 255 else 0) src.

(** Pixelwise binary operation on two matrices of one size (where the
    shapes differ the common part is kept; the operands of every use in
    face_parser.cpp have the shape of the label map). *)
Definition zip_pixels {A B C} (f : A → B → C) (a : Mat A) (b : Mat B) : Mat C :=
  zip_with (zip_with f) a b.

(** [cv::bitwise_or], [cv::bitwise_and] *)
Definition bitwise_or : Mat Z → Mat Z → Mat Z := zip_pixels Z.lor.
Definition bitwise_and : Mat Z → Mat Z → Mat Z := zip_pixels Z.land.

(** [~m] on 8-bit pixels *)
Definition bitwise_not (m : Mat Z) : Mat Z :=
  map_pixels (λ v, Z.lxor v 255) m.

(** Offsets [0 .. n-1]. *)
Definition offsets (n : nat) : list Z := Z.of_nat <$> seq 0 n.

(** The pixels of [src] under a [kw] x [kh] rectangular structuring
    element anchored at its centre [(kw/2, kh/2)] and placed on (y, x);
    positions outside the image contribute nothing (the default border of
    a dilation). *)
Definition window (src : Mat Z) (kw kh : nat) (y x : Z) : list Z :=
  i ← offsets kh; j ← offsets kw;
  match get src (y + i - Z.of_nat kh / 2) (x + j - Z.of_nat kw / 2) with
  | Some v => [v]
  | None => []
  end.

(** [cv::dilate(src, dst, getStructuringElement(MORPH_RECT, Size(kw, kh)))]:
    each pixel becomes the maximum under the structuring element. *)
Definition dilate (src : Mat Z) (kw kh : nat) : Mat Z :=
  tabulate (λ y x, foldr Z.max 0 (window src kw kh y x)) src.

(** [saturate_cast<uchar>(float)]: round to nearest, clamp to [0, 255]. *)
Definition saturate_cast_uchar (x : spec_float) : Z :=
  Z.max 0 (Z.min 255 (IEEE.round_even x)).

Definition zip_channels (f : Z → Z → Z) (p q : Vec3b) : Vec3b :=
  (f p.1.1 q.1.1, f p.1.2 q.1.2, f p.2 q.2).

(** One channel of [addWeighted] on 8-bit data:
    [saturate_cast<uchar>(a*alpha + b*beta + gamma)], in single precision. *)
Definition weighted_sum (alpha beta gamma : spec_float) (a b : Z) : Z :=
  saturate_cast_uchar
    (F32.add (F32.add (F32.mul (F32.of_Z a) alpha) (F32.mul (F32.of_Z b) beta))
             gamma).

(** [cv::addWeighted(src1, alpha, src2, beta, gamma, dst)]; the two inputs
    must have one size, otherwise a [cv::Exception] is thrown. *)
Definition addWeighted (src1 : Mat Vec3b) (alpha : spec_float)
    (src2 : Mat Vec3b) (beta gamma : spec_float) : Except (Mat Vec3b) :=
  if decide (size src1 = size src2)
  then Ok (zip_pixels (zip_channels (weighted_sum alpha beta gamma)) src1 src2)
  else Throw "Sizes of input arguments do not match".

(** One pixel of [src.convertTo(dst, CV_32F, scale)] for 8-bit [src] and
    a double-precision [scale]. *)
Definition convert_32F (scale : spec_float) (v : Z) : spec_float :=
  F32.mul (F32.of_Z v) (F64.to_f32 scale).

End cv.

(* ===================================================================== *)
(** ** [face_parser.cpp]: region masks from a label map                  *)
(* ===================================================================== *)

Module FaceParser.
Import cv.

Local Abbreviation MaskImage := (list (list Z)) (only parsing).

(** [Impl::getRegionMask]: the union of the selections of the listed
    label ids; an empty label map gives [Mat()]. *)
Definition getRegionMask (full_mask : MaskImage) (region_indices : list Z)
  : MaskImage :=
  if empty full_mask then Mat_default
  else
    foldl (λ region_mask region_idx,
             let temp_mask := inRange full_mask region_idx region_idx in
             bitwise_or region_mask temp_mask)
          (zeros (size full_mask)) region_indices.

(* Label ids (CelebAMask-HQ):
   0 background, 1 skin, 2 nose, 3 eye glasses, 4 l_eye, 5 r_eye,
   6 l_brow, 7 r_brow, 8 l_ear, 9 r_ear, 10 mouth, 11 u_lip, 12 l_lip,
   13 hair, 14 hat, 15 ear ring, 16 necklace, 17 neck, 18 cloth *)

Definition getEyesMask (full_mask : MaskImage) : MaskImage :=
  getRegionMask full_mask [4; 5].

Definition getForeheadMask (full_mask : MaskImage) : MaskImage :=
  let skin_mask := inRange full_mask 1 1 in
  let brow_mask := inRange full_mask 6 7 in
  let dilated_brow := dilate brow_mask 15 15 in
  bitwise_and skin_mask dilated_brow.

Definition getCheeksMask (full_mask : MaskImage) : MaskImage :=
  let skin_mask := inRange full_mask 1 1 in
  let nose_mask := inRange full_mask 2 2 in
  let mouth_mask := inRange full_mask 10 12 in
  let central_mask := bitwise_or nose_mask mouth_mask in
  let dilated_central := dilate central_mask 20 20 in
  bitwise_and skin_mask (bitwise_not dilated_central).

Definition getMouthMask (full_mask : MaskImage) : MaskImage :=
  getRegionMask full_mask [10; 11; 12].

Definition getJawMask (full_mask : MaskImage) : MaskImage :=
  let skin_mask := inRange full_mask 1 1 in
  let start_row :=
    static_cast_int (F64.mul (F64.of_Z (Z.of_nat (rows full_mask))) (F64.lit 6 10)) in
  let lower_mask :=
    tabulate (λ y _, if start_row <=? y then 255 else 0) full_mask in
  bitwise_and skin_mask lower_mask.

Definition getNeckMask (full_mask : MaskImage) : MaskImage :=
  getRegionMask full_mask [17].

Definition getHairMask (full_mask : MaskImage) : MaskImage :=
  getRegionMask full_mask [13].

Definition getEyebrowsMask (full_mask : MaskImage) : MaskImage :=
  getRegionMask full_mask [6; 7].

(** The eight region operations of the public interface. *)
Inductive Region :=
  Eyes | Forehead | Cheeks | Mouth | Jaw | Neck | Hair | Eyebrows.

Definition regionMask (r : Region) : MaskImage → MaskImage :=
  match r with
  | Eyes => getEyesMask
  | Forehead => getForeheadMask
  | Cheeks => getCheeksMask
  | Mouth => getMouthMask
  | Jaw => getJawMask
  | Neck => getNeckMask
  | Hair => getHairMask
  | Eyebrows => getEyebrowsMask
  end.

End FaceParser.

(* ===================================================================== *)
(** ** [types.h]: the data model of the full build                       *)
(* ===================================================================== *)

Abbreviation ImageData := (list (list cv.Vec3b)) (only parsing).
Abbreviation MaskImage := (list (list Z)) (only parsing).

Record FaceBox := {
  box_x : spec_float; box_y : spec_float;
  box_width : spec_float; box_height : spec_float;
  box_confidence : spec_float;
  face_id : Z
}.

Record FaceLandmarks := {
  points : list (spec_float * spec_float);
  landmarks_confidence : spec_float
}.

Record Face := {
  box : FaceBox;
  landmarks : FaceLandmarks;
  aligned_crop : ImageData;
  transform_matrix : list (list spec_float);
  track_id : Z;
  frame_number : Z
}.

Record AgeMap := {
  global_age_map : list (list spec_float);
  region_masks : list MaskImage;
  global_strength : spec_float;
  region_strengths : list spec_float
}.

Record AgeControls := {
  target_age : spec_float;
  age_map : AgeMap;
  identity_lock_strength : spec_float;
  temporal_stability : spec_float;
  texture_keep : spec_float;
  skin_clean : spec_float;
  enable_hair_aging : bool;
  enable_beard_aging : bool;
  enable_neck_aging : bool;
  gray_density : spec_float
}.

Inductive ProcessingMode := FEEDFORWARD | DIFFUSION | HYBRID | AUTO.

Record FrameContext := {
  ctx_frame_number : Z;
  input_frame : ImageData;
  detected_faces : list Face;
  optical_flow : list (list spec_float);
  controls : AgeControls;
  mode : ProcessingMode
}.

Record ProcessingResult := {
  output_frame : ImageData;
  processed_faces : list Face;
  metrics : gmap string spec_float;
  success : bool;
  error_message : string
}.

(* ===================================================================== *)
(** ** [feedforward_generator.cpp]                                       *)
(* ===================================================================== *)

Module FeedforwardGenerator.
Import cv.

(** The private state of the generator.  [run_network] stands for lines
    40-72 of [generateAgedFace]: resize to the input resolution, normalise,
    forward pass conditioned on [target_age / 100], denormalise; it yields
    [result_uint8], or the exception one of these steps threw. *)
Record Impl := {
  model_loaded_ : bool;
  input_width_ : nat;
  input_height_ : nat;
  run_network : ImageData → spec_float → Except ImageData
}.

(** One channel of the region blend:
    [static_cast<uchar>(orig*(1.0f - aged_strength) + aged*aged_strength)]. *)
Definition blend_channel (aged_strength : spec_float) (orig aged : Z) : Z :=
  static_cast_uchar
    (F32.add (F32.mul (F32.of_Z orig) (F32.sub F32.one aged_strength))
             (F32.mul (F32.of_Z aged) aged_strength)).

(** [Impl::blendRegion]: rewrites [aged] inside the mask.  The loop
    runs over the pixels of [aged] and reads the mask and the original at
    each of them with [at], which does not check the range: where the mask
    or the original has no pixel the read is undefined in C++, and the
    value shown here for such a pixel (the pixel as it was) stands for no
    behaviour of the code.  What is stated about [blendRegion] is stated
    for masks that fit ([MaskSpec.fits]) or for pixels in range. *)
Definition blendRegion (original aged : ImageData) (mask : MaskImage)
    (aged_strength : spec_float) : ImageData :=
  if empty mask then aged
  else
    mapi_pixels (λ y x aged_pixel,
      match get mask y x, get original y x with
      | Some m, Some orig_pixel =>
          let mask_norm := convert_32F (F64.lit 1 255) m in
          if F32.ltb (F32.lit 5 10) mask_norm
          then zip_channels (blend_channel aged_strength) orig_pixel aged_pixel
          else aged_pixel
      | _, _ => aged_pixel
      end) aged.

(** [Impl::applyRegionalBlending] *)
Definition applyRegionalBlending (original aged : ImageData)
    (parsing_mask : MaskImage) (controls : AgeControls) : ImageData :=
  let hair_mask := inRange parsing_mask 1 1 in       (* Hair = 1 *)
  let forehead_mask := inRange parsing_mask 2 2 in   (* Forehead = 2 *)
  let eye_mask := inRange parsing_mask 3 4 in        (* Eyes = 3,4 *)
  let mouth_mask := inRange parsing_mask 5 6 in      (* Mouth = 5,6 *)
  let aged :=
    if enable_hair_aging controls
    then blendRegion original aged hair_mask (F32.lit 8 10)
    else blendRegion original aged hair_mask (F32.lit 1 10) in
  let aged := blendRegion original aged eye_mask (F32.lit 3 10) in
  blendRegion original aged mouth_mask (F32.lit 4 10).

(** The [try] block of [generateAgedFace]. *)
Definition generate_body (impl : Impl) (face_crop : ImageData)
    (controls : AgeControls) (parsing_mask : MaskImage) : Except ImageData :=
  match run_network impl face_crop
          (SFdiv F32.prec F32.emax (target_age controls) (F32.of_Z 100)) with
  | Throw e => Throw e
  | Ok result_uint8 =>
      match addWeighted face_crop (identity_lock_strength controls)
              result_uint8
              (F32.sub F32.one (identity_lock_strength controls))
              F32.zero with
      | Throw e => Throw e
      | Ok final_result =>
          Ok (if negb (empty parsing_mask)
              then applyRegionalBlending face_crop final_result parsing_mask controls
              else final_result)
      end
  end.

(** [Impl::generateAgedFace] *)
Definition generateAgedFace (impl : Impl) (face_crop : ImageData)
    (controls : AgeControls) (parsing_mask : MaskImage) : ImageData :=
  if negb (model_loaded_ impl) || empty face_crop then clone face_crop
  else
    match generate_body impl face_crop controls parsing_mask with
    | Ok final_result => final_result
    | Throw _ => clone face_crop
    end.

End FeedforwardGenerator.

(* ===================================================================== *)
(** ** [compositor.h]: the face compositor                               *)
(* ===================================================================== *)

Module Compositor.
Import cv.

(** Modelled from the spec: compositor.cpp is not among the sources; only
    the interface (compositor.h) and its tests are.  The blending mode is
    the closed selection of section 4.3. *)
Inductive BlendingMode := Linear | Poisson | Multiband.

(** Modelled from the spec: the compositor state behind the four setters
    of compositor.h (section 3, BlendConfig). *)
Record BlendConfig := {
  blending_mode : BlendingMode;
  feather_radius : Z;
  color_correction : bool;
  detail_reinjection_strength : spec_float
}.

(** Modelled from the spec: [setBlendingMode] of compositor.cpp, which is
    not among the sources.  An unrecognised mode string falls back to
    [Linear]. *)
Definition setBlendingMode (name : string) (cfg : BlendConfig) : BlendConfig :=
  {| blending_mode :=
       if decide (name = "poisson") then Poisson
       else if decide (name = "multiband") then Multiband
       else Linear;
     feather_radius := feather_radius cfg;
     color_correction := color_correction cfg;
     detail_reinjection_strength := detail_reinjection_strength cfg |}.

(** Modelled from the spec: the algorithms section 4.3 names without fixing
    a formula, taken as parameters of the compositor. *)
Record Algorithms := {
  (** crop colour statistics matched to the surrounding frame region *)
  match_colors : ImageData → Z * Z * Z * Z → ImageData → ImageData;
  (** high-frequency detail of the original crop added back, scaled *)
  reinject_detail : spec_float → ImageData → ImageData → ImageData;
  (** feather weight at a given distance from the crop boundary: from 0
      at the edge to 1 in the interior *)
  falloff : Z → Z → spec_float;
  (** seam elimination of the gradient-domain and pyramid modes *)
  seam_pixel : BlendingMode → spec_float → Vec3b → Vec3b → Vec3b
}.

(** Modelled from the spec: flat alpha blending of one pixel, the [Linear]
    mode. *)
Definition linear_pixel (alpha : spec_float) (existing placed : Vec3b) : Vec3b :=
  zip_channels (weighted_sum (F32.sub F32.one alpha) alpha F32.zero)
               existing placed.

(** Modelled from the spec: the placement rectangle of a detection is its
    box, here in whole pixels. *)
Definition placement (face_info : Face) : Z * Z * Z * Z :=
  (static_cast_int (box_x (box face_info)),
   static_cast_int (box_y (box face_info)),
   static_cast_int (box_width (box face_info)),
   static_cast_int (box_height (box face_info))).

(** Modelled from the spec: the rectangle lies entirely outside a frame of
    the given size. *)
Definition outside (rect : Z * Z * Z * Z) (frame_rows frame_cols : Z) : bool :=
  let '(x, y, w, h) := rect in
  (frame_cols <=? x) || (frame_rows <=? y) || (x + w <=? 0) || (y + h <=? 0).

(** Modelled from the spec: [Compositor::compositeFace] of compositor.cpp,
    which is not among the sources (section 4.3).  An empty crop and a
    placement entirely outside the frame are no-ops; otherwise the crop,
    after the optional colour correction and the detail reinjection, is
    written over the part of its rectangle that lies in the frame, each
    pixel weighted by the feather falloff.  The new value of
    [target_frame] is returned; its shape is that of the old one. *)
Definition compositeFace (alg : Algorithms) (cfg : BlendConfig)
    (target_frame processed_face : ImageData) (face_info : Face) : ImageData :=
  if empty processed_face then target_frame
  else
    let rect := placement face_info in
    if outside rect (Z.of_nat (rows target_frame)) (Z.of_nat (cols target_frame))
    then target_frame
    else
      let '(x0, y0, w, h) := rect in
      let corrected :=
        if color_correction cfg
        then match_colors alg target_frame rect processed_face
        else processed_face in
      let crop :=
        reinject_detail alg (detail_reinjection_strength cfg)
                        (aligned_crop face_info) corrected in
      mapi_pixels (λ y x existing,
        let cy := y - y0 in
        let cx := x - x0 in
        if (0 <=? cy) && (cy <? h) && (0 <=? cx) && (cx <? w)
        then
          match get crop cy cx with
          | Some placed =>
              let d := Z.min (Z.min cx cy) (Z.min (w - 1 - cx) (h - 1 - cy)) in
              let alpha :=
                if feather_radius cfg <=? 0 then F32.one
                else falloff alg (feather_radius cfg) d in
              match blending_mode cfg with
              | Linear => linear_pixel alpha existing placed
              | m => seam_pixel alg m alpha existing placed
              end
          | None => existing
          end
        else existing) target_frame.

End Compositor.

(* ===================================================================== *)
(** ** [engine.cpp]: the frame orchestrator of the full build            *)
(* ===================================================================== *)

Module Engine.
Import cv.

(** Calls made on the components owned by the engine. *)
Inductive Event :=
| DetectFaces (image : ImageData)
| ParseFace (face_crop : ImageData)
| FeedforwardGenerate (face_crop : ImageData) (c : AgeControls) (parsing_mask : MaskImage)
| DiffusionGenerate (face_crop : ImageData) (c : AgeControls) (parsing_mask : MaskImage)
| CompositeFace (target_frame processed_face : ImageData) (face_info : Face).

(** Computations that may throw and that record the component calls. *)
Definition M (A : Type) : Type := list Event → Except A * list Event.

Definition ret {A} (a : A) : M A := λ log, (Ok a, log).

Definition bind {A B} (c : M A) (k : A → M B) : M B :=
  λ log,
    match c log with
    | (Ok a, log') => k a log'
    | (Throw e, log') => (Throw e, log')
    end.

(** A call on a component: recorded, then its outcome. *)
Definition call {A} (ev : Event) (outcome : Except A) : M A :=
  λ log, (outcome, log ++ [ev]).

(** [try { body } catch (const std::exception& e) { handler(e.what()) }] *)
Definition try_catch {A} (body : M A) (handler : string → A)
  : list Event → A * list Event :=
  λ log,
    match body log with
    | (Ok a, log') => (a, log')
    | (Throw e, log') => (handler e, log')
    end.

Notation "x <~ c ;; k" := (bind c (λ x, k))
  (at level 100, c at next level, right associativity).

(** [for (auto& x : xs) body], threading the state [s]. *)
Fixpoint for_each {A S} (xs : list A) (body : S → A → M S) (s : S) : M S :=
  match xs with
  | [] => ret s
  | x :: xs' => s' <~ body s x ;; for_each xs' body s'
  end.

(** The engine and the components it owns; a component call returns its
    result or throws. *)
Record Impl := {
  initialized_ : bool;
  processing_mode_ : ProcessingMode;
  face_detector_ : ImageData → Except (list Face);
  face_parser_ : ImageData → Except MaskImage;
  feedforward_generator_ : ImageData → AgeControls → MaskImage → Except ImageData;
  diffusion_editor_ : ImageData → AgeControls → MaskImage → Except ImageData;
  compositor_ : ImageData → ImageData → Face → Except ImageData
}.

(** [ProcessingResult result;] *)
Definition result_default : ProcessingResult :=
  {| output_frame := Mat_default; processed_faces := []; metrics := ∅;
     success := false; error_message := "" |}.

(** [duration_cast<milliseconds>(end_time - start_time).count()], the
    clock readings being in nanoseconds. *)
Definition duration_ms (start_time end_time : Z) : Z :=
  Z.quot (end_time - start_time) 1000000.

(** The body of the per-face loop. *)
Definition process_face (impl : Impl) (context : FrameContext)
    (output_frame : ImageData) (face : Face) : M ImageData :=
  parsing_mask <~ call (ParseFace (aligned_crop face))
                       (face_parser_ impl (aligned_crop face)) ;;
  processed_face <~
    match mode context with
    | FEEDFORWARD | AUTO =>
        call (FeedforwardGenerate (aligned_crop face) (controls context) parsing_mask)
             (feedforward_generator_ impl (aligned_crop face) (controls context) parsing_mask)
    | DIFFUSION =>
        call (DiffusionGenerate (aligned_crop face) (controls context) parsing_mask)
             (diffusion_editor_ impl (aligned_crop face) (controls context) parsing_mask)
    | HYBRID => ret Mat_default
    end ;;
  call (CompositeFace output_frame processed_face face)
       (compositor_ impl output_frame processed_face face).

(** [Engine::Impl::processFrame]; [start_time] and [end_time] are the two
    readings of the clock. *)
Definition processFrame (impl : Impl) (start_time end_time : Z)
    (context : FrameContext) : list Event → ProcessingResult * list Event :=
  if negb (initialized_ impl)
  then λ log,
    ({| output_frame := Mat_default; processed_faces := []; metrics := ∅;
        success := false; error_message := "Engine not initialized" |}, log)
  else
    try_catch
      (faces <~
         (if decide (detected_faces context = [])
          then call (DetectFaces (input_frame context))
                    (face_detector_ impl (input_frame context))
          else ret (detected_faces context)) ;;
       if decide (faces = [])
       then ret {| output_frame := clone (input_frame context);
                   processed_faces := []; metrics := ∅;
                   success := true; error_message := "" |}
       else
         output_frame <~
           for_each faces (process_face impl context) (clone (input_frame context)) ;;
         ret {| output_frame := output_frame;
                processed_faces := faces;
                metrics :=
                  <["faces_processed" := F32.of_Z (Z.of_nat (length faces))]>
                    (<["processing_time_ms" := F32.of_Z (duration_ms start_time end_time)]> ∅);
                success := true; error_message := "" |})
      (λ what,
         {| output_frame := Mat_default; processed_faces := []; metrics := ∅;
            success := false;
            error_message := "Processing failed: " +:+ what |}).

End Engine.

(* ===================================================================== *)
(** ** [minimal_engine.cpp], [minimal_types.h]: the dependency-free build *)
(* ===================================================================== *)

Module MinimalEngine.

Record ImageData := {
  width : Z;
  height : Z;
  channels : Z;
  data : list Z
}.

(** [ImageData() = default] *)
Definition ImageData_default : ImageData :=
  {| width := 0; height := 0; channels := 3; data := [] |}.

Definition empty (img : ImageData) : bool :=
  (width img =? 0) || (height img =? 0).

Record FaceBox := {
  x : spec_float; y : spec_float;
  box_width : spec_float; box_height : spec_float;
  confidence : spec_float;
  face_id : Z
}.

Record Face := {
  box : FaceBox;
  landmarks : list (spec_float * spec_float);
  aligned_crop : ImageData;
  track_id : Z;
  frame_number : Z
}.

Record AgeControls := {
  target_age : spec_float;
  identity_lock_strength : spec_float;
  temporal_stability : spec_float;
  texture_keep : spec_float;
  enable_hair_aging : bool;
  gray_density : spec_float
}.

Record FrameContext := {
  ctx_frame_number : Z;
  input_frame : ImageData;
  detected_faces : list Face;
  controls : AgeControls;
  mode : ProcessingMode
}.

Record ProcessingResult := {
  output_frame : ImageData;
  processed_faces : list Face;
  metrics : gmap string spec_float;
  success : bool;
  error_message : string
}.

Record Impl := {
  mode_ : ProcessingMode;
  initialized_ : bool
}.

(** [Engine::Impl::processFrame] of the minimal build. *)
Definition processFrame (impl : Impl) (context : FrameContext) : ProcessingResult :=
  if negb (initialized_ impl)
  then {| output_frame := ImageData_default; processed_faces := []; metrics := ∅;
          success := false; error_message := "Engine not initialized" |}
  else if empty (input_frame context)
  then {| output_frame := ImageData_default; processed_faces := []; metrics := ∅;
          success := false; error_message := "Empty input frame" |}
  else
    let mockFace :=
      {| box := {| x := F32.mul (F32.of_Z (width (input_frame context))) (F32.lit 25 100);
                   y := F32.mul (F32.of_Z (height (input_frame context))) (F32.lit 25 100);
                   box_width := F32.mul (F32.of_Z (width (input_frame context))) (F32.lit 5 10);
                   box_height := F32.mul (F32.of_Z (height (input_frame context))) (F32.lit 5 10);
                   confidence := F32.lit 9 10;
                   face_id := 1 |};
         landmarks := [];
         aligned_crop := ImageData_default;
         track_id := 1;
         frame_number := ctx_frame_number context |} in
    {| output_frame := input_frame context;
       processed_faces := [mockFace];
       metrics :=
         <["confidence" := F32.lit 9 10]>
           (<["face_count" := F32.of_Z 1]>
              (<["processing_time_ms" := F32.of_Z 50]> ∅));
       success := true;
       error_message := "" |}.

End MinimalEngine.

(* ===================================================================== *)
(** ** The region masks as the specification words them                  *)
(* ===================================================================== *)

Module RegionSpec.
Import cv.

(** Every pixel is exactly 0 or 255. *)
Definition binary (mask : MaskImage) : Prop :=
  Forall (Forall (λ v, v = 0 ∨ v = 255)) mask.

Definition all_zero (mask : MaskImage) : Prop :=
  Forall (Forall (λ v, v = 0)) mask.

(** The pixel at (y, x) carries one of the label ids. *)
Definition selected (m : MaskImage) (ids : list Z) (y x : Z) : Prop :=
  ∃ l, get m y x = Some l ∧ l ∈ ids.

(** Dilation of a pixel set by a 15 x 15 rectangle centred on the pixel. *)
Definition dilated_15x15 (S : Z → Z → Prop) (y x : Z) : Prop :=
  ∃ y' x', y - 7 ≤ y' ≤ y + 7 ∧ x - 7 ≤ x' ≤ x + 7 ∧ S y' x'.

(** Forehead: skin (label 1) intersected with the dilated eyebrow
    selection (labels 6 and 7). *)
Definition forehead (m : MaskImage) (y x : Z) : Prop :=
  selected m [1] y x ∧ dilated_15x15 (selected m [6; 7]) y x.

(** [mask] is the binary image of the pixel set [S] on the grid of [m]. *)
Definition represents (m mask : MaskImage) (S : Z → Z → Prop) : Prop :=
  ∀ y x,
    match get m y x with
    | None => get mask y x = None
    | Some _ =>
        (S y x ∧ get mask y x = Some 255) ∨ (¬ S y x ∧ get mask y x = Some 0)
    end.
End RegionSpec.

(* ===================================================================== *)
(** ** The regional blend as the specification words it                  *)
(* ===================================================================== *)

Module BlendSpec.
Import cv.

Definition valid_channel (v : Z) : Prop := 0 ≤ v ≤ 255.

Definition valid_pixel (p : Vec3b) : Prop :=
  valid_channel p.1.1 ∧ valid_channel p.1.2 ∧ valid_channel p.2.

(** An 8-bit three-channel image. *)
Definition valid_image (img : ImageData) : Prop :=
  rectangular img ∧ Forall (Forall valid_pixel) img.

(** [original*lock + transformed*(1 - lock)], written to an 8-bit
    channel. *)
Definition convex_channel (lock : spec_float) (original transformed : Z) : Z :=
  saturate_cast_uchar
    (F32.add (F32.mul (F32.of_Z original) lock)
             (F32.mul (F32.of_Z transformed) (F32.sub F32.one lock))).

Definition convex (lock : spec_float) (original transformed : Vec3b) : Vec3b :=
  zip_channels (convex_channel lock) original transformed.

(** Equal up to the truncation of one region blend: each channel of [p]
    is the channel of [o] or one below it. *)
Definition within_rounding (o p : Vec3b) : Prop :=
  o.1.1 - 1 ≤ p.1.1 ≤ o.1.1 ∧ o.1.2 - 1 ≤ p.1.2 ≤ o.1.2 ∧ o.2 - 1 ≤ p.2 ≤ o.2.

(** The generator has no valid same-size transformed crop to offer: the
    model is not loaded, the crop is empty, the network pipeline throws,
    or its result has another size than the crop. *)
Definition cannot_transform (impl : FeedforwardGenerator.Impl)
    (face_crop : ImageData) (controls : AgeControls) : Prop :=
  let age := SFdiv F32.prec F32.emax (target_age controls) (F32.of_Z 100) in
  FeedforwardGenerator.model_loaded_ impl = false ∨
  empty face_crop = true ∨
  (∃ e, FeedforwardGenerator.run_network impl face_crop age = Throw e) ∨
  (∃ r, FeedforwardGenerator.run_network impl face_crop age = Ok r ∧
        size r ≠ size face_crop).
End BlendSpec.

(* ===================================================================== *)
(** ** Observations on call traces and concrete engines                  *)
(* ===================================================================== *)

Module Trace.
Import Engine.

Definition is_generator_call (ev : Event) : bool :=
  match ev with
  | FeedforwardGenerate _ _ _ | DiffusionGenerate _ _ _ => true
  | _ => false
  end.

(** The calls made on either generator. *)
Definition generator_calls (evs : list Event) : list Event :=
  List.filter is_generator_call evs.

(** The (crop, face) arguments of the calls of [compositeFace], in order. *)
Definition composite_calls (evs : list Event) : list (ImageData * Face) :=
  omap (λ ev, match ev with
              | CompositeFace _ processed_face face_info =>
                  Some (processed_face, face_info)
              | _ => None
              end) evs.

(** What the calls of a hybrid-mode run look like: no generator call,
    and every composite is given the default-constructed image. *)
Definition hybrid_calls (new : list Event) : Prop :=
  generator_calls new = [] ∧
  Forall (λ cf : ImageData * Face, cf.1 = cv.Mat_default) (composite_calls new).
End Trace.

(** An engine right after [initialize], no model loaded: the detector
    finds nothing, the parser returns an all-zero map and the generators
    return the crop they were given. *)
Module Offline.

Definition algorithms : Compositor.Algorithms :=
  {| Compositor.match_colors := λ _ _ crop, crop;
     Compositor.reinject_detail := λ _ _ crop, crop;
     Compositor.falloff := λ _ _, F32.one;
     Compositor.seam_pixel := λ _, Compositor.linear_pixel |}.

Definition config : Compositor.BlendConfig :=
  {| Compositor.blending_mode := Compositor.Linear;
     Compositor.feather_radius := 0;
     Compositor.color_correction := false;
     Compositor.detail_reinjection_strength := F32.zero |}.

Definition generator : FeedforwardGenerator.Impl :=
  {| FeedforwardGenerator.model_loaded_ := false;
     FeedforwardGenerator.input_width_ := 512;
     FeedforwardGenerator.input_height_ := 512;
     FeedforwardGenerator.run_network := λ _ _, Throw "no network" |}.

Definition engine (initialized : bool) : Engine.Impl :=
  {| Engine.initialized_ := initialized;
     Engine.processing_mode_ := FEEDFORWARD;
     Engine.face_detector_ := λ _, Ok [];
     Engine.face_parser_ := λ crop, Ok (cv.zeros (cv.size crop));
     Engine.feedforward_generator_ :=
       λ crop c mask, Ok (FeedforwardGenerator.generateAgedFace generator crop c mask);
     Engine.diffusion_editor_ := λ crop _ _, Ok (cv.clone crop);
     Engine.compositor_ :=
       λ frame crop face, Ok (Compositor.compositeFace algorithms config frame crop face) |}.

Definition age_controls (hair : bool) (lock : spec_float) : AgeControls :=
  {| target_age := F32.of_Z 60;
     age_map := {| global_age_map := []; region_masks := [];
                   global_strength := F32.one; region_strengths := [] |};
     identity_lock_strength := lock;
     temporal_stability := F32.lit 9 10;
     texture_keep := F32.lit 6 10;
     skin_clean := F32.zero;
     enable_hair_aging := hair;
     enable_beard_aging := false;
     enable_neck_aging := false;
     gray_density := F32.lit 5 10 |}.

Definition gray : cv.Vec3b := (100, 100, 100).

(** A 2 x 3 frame. *)
Definition frame : ImageData := [[gray; gray; gray]; [gray; gray; gray]].

Definition face (crop : ImageData) : Face :=
  {| box := {| box_x := F32.of_Z 1; box_y := F32.of_Z 0;
               box_width := F32.of_Z 1; box_height := F32.of_Z 1;
               box_confidence := F32.lit 9 10; face_id := 1 |};
     landmarks := {| points := []; landmarks_confidence := F32.zero |};
     aligned_crop := crop;
     transform_matrix := [];
     track_id := 1;
     frame_number := 0 |}.

Definition context (faces : list Face) (m : ProcessingMode) : FrameContext :=
  {| ctx_frame_number := 0;
     input_frame := frame;
     detected_faces := faces;
     optical_flow := [];
     controls := age_controls true (F32.lit 8 10);
     mode := m |}.

Definition minimal_engine (initialized : bool) : MinimalEngine.Impl :=
  {| MinimalEngine.mode_ := FEEDFORWARD;
     MinimalEngine.initialized_ := initialized |}.

Definition minimal_context : MinimalEngine.FrameContext :=
  {| MinimalEngine.ctx_frame_number := 0;
     MinimalEngine.input_frame :=
       {| MinimalEngine.width := 2; MinimalEngine.height := 1;
          MinimalEngine.channels := 3;
          MinimalEngine.data := [0; 0; 0; 0; 0; 0] |};
     MinimalEngine.detected_faces := [];
     MinimalEngine.controls :=
       {| MinimalEngine.target_age := F32.of_Z 25;
          MinimalEngine.identity_lock_strength := F32.lit 8 10;
          MinimalEngine.temporal_stability := F32.lit 9 10;
          MinimalEngine.texture_keep := F32.lit 6 10;
          MinimalEngine.enable_hair_aging := true;
          MinimalEngine.gray_density := F32.lit 5 10 |};
     MinimalEngine.mode := FEEDFORWARD |}.

End Offline.

(* ===================================================================== *)
(** ** [face_parser.cpp]: the parser proper, and words for its masks     *)
(* ===================================================================== *)

Module Parser.
Import cv.

(** The private state of the parser.  [run_network] stands for lines 37-59
    of [parseFace]: resize to the input resolution, blob, forward pass,
    [convertToParseMask], resize back to the size of the crop; it yields
    [final_mask], or the exception one of these steps threw. *)
Record Impl := {
  model_loaded_ : bool;
  input_width_ : nat;
  input_height_ : nat;
  run_network : ImageData → Except MaskImage
}.

(** [Impl::parseFace] *)
Definition parseFace (impl : Impl) (face_crop : ImageData) : MaskImage :=
  if negb (model_loaded_ impl) || empty face_crop
  then zeros (size face_crop)
  else
    match run_network impl face_crop with
    | Ok final_mask => final_mask
    | Throw _ => zeros (size face_crop)
    end.

(** [Impl::parseFacesBatch] *)
Definition parseFacesBatch (impl : Impl) (face_crops : list ImageData)
  : list MaskImage :=
  foldl (λ results crop, results ++ [parseFace impl crop]) [] face_crops.

(** [FaceParser::setInputSize] *)
Definition setInputSize (impl : Impl) (width height : nat) : Impl :=
  {| model_loaded_ := model_loaded_ impl;
     input_width_ := width;
     input_height_ := height;
     run_network := run_network impl |}.

End Parser.

Module MaskSpec.
Import cv RegionSpec.

(** The lengths of the rows. *)
Definition shape {A} (m : list (list A)) : list nat := length <$> m.

(** The mask is empty, in which case [generateAgedFace] and [blendRegion]
    do not read it, or it has the shape of the crop, so that every read
    [mask.at(y, x)] at a pixel of the crop is in range. *)
Definition fits {A B} (mask : list (list A)) (crop : list (list B)) : Prop :=
  empty mask = true ∨ shape mask = shape crop.

(** The label ids a region operation reads its pixels from. *)
Definition region_labels (r : FaceParser.Region) : list Z :=
  match r with
  | FaceParser.Eyes => [4; 5]
  | FaceParser.Forehead => [1]
  | FaceParser.Cheeks => [1]
  | FaceParser.Mouth => [10; 11; 12]
  | FaceParser.Jaw => [1]
  | FaceParser.Neck => [17]
  | FaceParser.Hair => [13]
  | FaceParser.Eyebrows => [6; 7]
  end.

(** Dilation of a pixel set by a 20 x 20 rectangle anchored at (10, 10):
    the rectangle reaches 10 pixels back and 9 pixels forward. *)
Definition dilated_20x20 (S : Z → Z → Prop) (y x : Z) : Prop :=
  ∃ y' x', y - 10 ≤ y' ≤ y + 9 ∧ x - 10 ≤ x' ≤ x + 9 ∧ S y' x'.

(** Cheeks: skin outside the dilated nose and mouth selection. *)
Definition cheeks (m : MaskImage) (y x : Z) : Prop :=
  selected m [1] y x ∧ ¬ dilated_20x20 (selected m [2; 10; 11; 12]) y x.

(** Jaw: skin in the rows from three fifths of the height on. *)
Definition jaw (m : MaskImage) (y x : Z) : Prop :=
  selected m [1] y x ∧ 3 * Z.of_nat (rows m) / 5 ≤ y.

(** Two masks have no pixel in common. *)
Definition disjoint (a b : MaskImage) : Prop := all_zero (bitwise_and a b).

End MaskSpec.

(* ===================================================================== *)
(** ** [feedforward_generator.cpp], [age_estimator.cpp]: the rest        *)
(* ===================================================================== *)

(** [std::min] and [std::max] on [float], as <algorithm> defines them. *)
Module Std.
Definition min (a b : spec_float) : spec_float := if SFltb b a then b else a.
Definition max (a b : spec_float) : spec_float := if SFltb a b then b else a.
End Std.

Module GeneratorState.
Import cv.

(** The whole private state of the generator: the part [generateAgedFace]
    reads, and the two settings kept beside it. *)
Record State := {
  core : FeedforwardGenerator.Impl;
  temporal_stabilization_ : bool;
  identity_strength_ : spec_float
}.

(** [FeedforwardGenerator::setIdentityPreservationStrength] *)
Definition setIdentityPreservationStrength (st : State) (strength : spec_float)
  : State :=
  {| core := core st;
     temporal_stabilization_ := temporal_stabilization_ st;
     identity_strength_ := Std.max F32.zero (Std.min F32.one strength) |}.

(** [FeedforwardGenerator::enableTemporalStabilization] *)
Definition enableTemporalStabilization (st : State) (enable : bool) : State :=
  {| core := core st;
     temporal_stabilization_ := enable;
     identity_strength_ := identity_strength_ st |}.

(** [FeedforwardGenerator::setInputResolution] *)
Definition setInputResolution (st : State) (width height : nat) : State :=
  {| core :=
       {| FeedforwardGenerator.model_loaded_ :=
            FeedforwardGenerator.model_loaded_ (core st);
          FeedforwardGenerator.input_width_ := width;
          FeedforwardGenerator.input_height_ := height;
          FeedforwardGenerator.run_network :=
            FeedforwardGenerator.run_network (core st) |};
     temporal_stabilization_ := temporal_stabilization_ st;
     identity_strength_ := identity_strength_ st |}.

(** The loop of [Impl::generateAgedFacesBatch] from index [i] on.  Reading
    [controls[0]] of an empty vector is undefined: [None]. *)
Fixpoint batch_from (impl : FeedforwardGenerator.Impl) (i : nat)
    (face_crops : list ImageData) (controls : list AgeControls)
    (parsing_masks : list MaskImage) : option (list ImageData) :=
  match face_crops with
  | [] => Some []
  | crop :: rest =>
      ctrl ← (match controls !! i with
              | Some c => Some c
              | None => controls !! 0%nat
              end);
      let mask := match parsing_masks !! i with
                  | Some m => m
                  | None => Mat_default
                  end in
      results ← batch_from impl (S i) rest controls parsing_masks;
      Some (FeedforwardGenerator.generateAgedFace impl crop ctrl mask :: results)
  end.

(** [Impl::generateAgedFacesBatch] *)
Definition generateAgedFacesBatch (impl : FeedforwardGenerator.Impl)
    (face_crops : list ImageData) (controls : list AgeControls)
    (parsing_masks : list MaskImage) : option (list ImageData) :=
  batch_from impl 0 face_crops controls parsing_masks.

(** The strength [applyRegionalBlending] gives a label, if it gives one. *)
Definition region_strength (c : AgeControls) (label : Z) : option spec_float :=
  if label =? 1
  then Some (if enable_hair_aging c then F32.lit 8 10 else F32.lit 1 10)
  else if (3 <=? label) && (label <=? 4) then Some (F32.lit 3 10)
  else if (5 <=? label) && (label <=? 6) then Some (F32.lit 4 10)
  else None.

End GeneratorState.

Module AgeEstimator.
Import cv.

(** The private state of the estimator.  [run_network] stands for lines
    38-54 of [estimateAge]: resize, blob, forward pass, read of the
    predicted age; it yields [predicted_age] or the exception thrown. *)
Record Impl := {
  model_loaded_ : bool;
  input_width_ : nat;
  input_height_ : nat;
  mean_ : spec_float;
  std_ : spec_float;
  run_network : ImageData → Except spec_float
}.

(** [Impl::estimateAge] *)
Definition estimateAge (impl : Impl) (face_crop : ImageData) : spec_float :=
  if negb (model_loaded_ impl) || empty face_crop then F32.zero
  else
    match run_network impl face_crop with
    | Ok predicted_age => Std.max F32.zero (Std.min (F32.of_Z 100) predicted_age)
    | Throw _ => F32.zero
    end.

(** [Impl::estimateAgeBatch] *)
Definition estimateAgeBatch (impl : Impl) (face_crops : list ImageData)
  : list spec_float :=
  foldl (λ ages crop, ages ++ [estimateAge impl crop]) [] face_crops.

End AgeEstimator.

(* ===================================================================== *)
(** ** [engine.cpp]: set-up of the engine                                *)
(* ===================================================================== *)

Inductive GPUBackend := CUDA | METAL | DIRECTML | CPU_FALLBACK.

Record ModelConfig := {
  model_path : string;
  backend : GPUBackend;
  batch_size : Z;
  use_half_precision : bool;
  max_resolution : Z
}.

(** [getAvailableBackends]; the three flags say which of [CUDA_FOUND],
    [METAL_FOUND] and [DIRECTML_FOUND] the build defines. *)
Definition getAvailableBackends (cuda_found metal_found directml_found : bool)
  : list GPUBackend :=
  let backends := [CPU_FALLBACK] in
  let backends := if cuda_found then backends ++ [CUDA] else backends in
  let backends := if metal_found then backends ++ [METAL] else backends in
  if directml_found then backends ++ [DIRECTML] else backends.

(** The frame context with another processing mode. *)
Definition with_mode (context : FrameContext) (m : ProcessingMode) : FrameContext :=
  {| ctx_frame_number := ctx_frame_number context;
     input_frame := input_frame context;
     detected_faces := detected_faces context;
     optical_flow := optical_flow context;
     controls := controls context;
     mode := m |}.

(** [Engine::setProcessingMode] *)
Definition setProcessingMode (impl : Engine.Impl) (m : ProcessingMode) : Engine.Impl :=
  {| Engine.initialized_ := Engine.initialized_ impl;
     Engine.processing_mode_ := m;
     Engine.face_detector_ := Engine.face_detector_ impl;
     Engine.face_parser_ := Engine.face_parser_ impl;
     Engine.feedforward_generator_ := Engine.feedforward_generator_ impl;
     Engine.diffusion_editor_ := Engine.diffusion_editor_ impl;
     Engine.compositor_ := Engine.compositor_ impl |}.

Module EngineSetup.

(** The components whose models [loadModels] loads. *)
Inductive Component := Detector | Estimator | ParserModel | Generator | Diffusion.

(** What set-up does to the outside: calls of the error callback, of the
    GPU memory manager and of the model loaders. *)
Inductive Event :=
| Callback (message : string)
| GpuInitialize (b : GPUBackend)
| LoadModel (c : Component) (path : string).

(** The collaborators of set-up: [GPUMemoryManager::initialize], the
    constructors of lines 34-44, and the [loadModel] of each component. *)
Record Collaborators := {
  gpu_initialize : GPUBackend → Except bool;
  make_components : Except unit;
  loadModel : Component → string → Except bool
}.

(** The part of [Engine::Impl] set-up reads and writes.  [error_callback_]
    is the [std::function] member: [None] when it is empty, and otherwise
    the installed callback, which returns or throws a [std::exception] of
    its own. *)
Record State := {
  initialized_ : bool;
  config_ : option ModelConfig;
  error_callback_ : option (string → Except unit)
}.

Definition M (A : Type) : Type := list Event → Except A * list Event.

Definition ret {A} (a : A) : M A := λ log, (Ok a, log).

Definition bind {A B} (c : M A) (k : A → M B) : M B :=
  λ log,
    match c log with
    | (Ok a, log') => k a log'
    | (Throw e, log') => (Throw e, log')
    end.

Definition call {A} (ev : Event) (outcome : Except A) : M A :=
  λ log, (outcome, log ++ [ev]).

Definition lift {A} (outcome : Except A) : M A := λ log, (outcome, log).

(** [try { body } catch (const std::exception& e) { handler(e.what()) }],
    the handler being able to throw in its turn. *)
Definition try_catch {A} (body : M A) (handler : string → M A) : M A :=
  λ log,
    match body log with
    | (Ok a, log') => (Ok a, log')
    | (Throw e, log') => handler e log'
    end.

Notation "x <~ c ;; k" := (bind c (λ x, k))
  (at level 100, c at next level, right associativity).

(** [error_callback_(message)]: calling an empty [std::function] throws
    [std::bad_function_call]; an installed callback is run, and what it
    throws is thrown on. *)
Definition error_callback (st : State) (message : string) : M unit :=
  match error_callback_ st with
  | Some callback => call (Callback message) (callback message)
  | None => lift (Throw "bad_function_call")
  end.

(** [Engine::setErrorCallback] *)
Definition setErrorCallback (st : State)
    (callback : option (string → Except unit)) : State :=
  {| initialized_ := initialized_ st; config_ := config_ st;
     error_callback_ := callback |}.

(** [Engine::Impl::initialize]: the returned flag and the new state. *)
Definition initialize (env : Collaborators) (st : State) (config : ModelConfig)
  : M (bool * State) :=
  let configured :=
    {| initialized_ := initialized_ st; config_ := Some config;
       error_callback_ := error_callback_ st |} in
  try_catch
    (gpu_ok <~ call (GpuInitialize (backend config))
                    (gpu_initialize env (backend config)) ;;
     if negb gpu_ok
     then _ <~ error_callback st "Failed to initialize GPU memory manager" ;;
          ret (false, configured)
     else _ <~ lift (make_components env) ;;
          ret (true, {| initialized_ := true; config_ := Some config;
                        error_callback_ := error_callback_ st |}))
    (λ what,
       _ <~ (match error_callback_ st with
             | Some callback =>
                 call (Callback ("Engine initialization failed: " +:+ what))
                      (callback ("Engine initialization failed: " +:+ what))
             | None => ret tt
             end) ;;
       ret (false, configured)).

(** One required model of [loadModels]. *)
Definition load_required (env : Collaborators) (st : State) (c : Component)
    (path message : string) (rest : M bool) : M bool :=
  ok <~ call (LoadModel c path) (loadModel env c path) ;;
  if negb ok then _ <~ error_callback st message ;; ret false
  else rest.

(** [Engine::Impl::loadModels] *)
Definition loadModels (env : Collaborators) (st : State) (model_dir : string)
  : M bool :=
  if negb (initialized_ st)
  then _ <~ error_callback st "Engine not initialized" ;; ret false
  else
    try_catch
      (load_required env st Detector (model_dir +:+ "/face_detector.onnx")
         "Failed to load face detection model"
      (load_required env st Estimator (model_dir +:+ "/age_estimator.onnx")
         "Failed to load age estimation model"
      (load_required env st ParserModel (model_dir +:+ "/face_parser.onnx")
         "Failed to load face parsing model"
      (load_required env st Generator (model_dir +:+ "/feedforward_generator.onnx")
         "Failed to load feedforward generator model"
      (_ <~ call (LoadModel Diffusion (model_dir +:+ "/diffusion_editor"))
                 (loadModel env Diffusion (model_dir +:+ "/diffusion_editor")) ;;
       ret true)))))
      (λ what,
         _ <~ error_callback st ("Model loading failed: " +:+ what) ;;
         ret false).

(** The model files [loadModels] asks for, in the order it asks. *)
Definition model_files (model_dir : string) : list Event :=
  [LoadModel Detector (model_dir +:+ "/face_detector.onnx");
   LoadModel Estimator (model_dir +:+ "/age_estimator.onnx");
   LoadModel ParserModel (model_dir +:+ "/face_parser.onnx");
   LoadModel Generator (model_dir +:+ "/feedforward_generator.onnx");
   LoadModel Diffusion (model_dir +:+ "/diffusion_editor")].

(** The loads made of a list of model files when each is asked for in
    turn and the first that does not load ends it. *)
Fixpoint attempted (env : Collaborators) (files : list Event) : list Event :=
  match files with
  | LoadModel c path :: rest =>
      LoadModel c path ::
      match loadModel env c path with
      | Ok true => attempted env rest
      | _ => []
      end
  | _ => []
  end.

(** An installed callback returns normally, whatever the message. *)
Definition callback_returns (st : State) : Prop :=
  ∀ callback message,
    error_callback_ st = Some callback → callback message = Ok tt.

(** The number of callbacks installed: 0 or 1. *)
Definition installed (st : State) : nat :=
  match error_callback_ st with Some _ => 1 | None => 0 end.

Definition is_callback (ev : Event) : bool :=
  match ev with Callback _ => true | _ => false end.

Definition is_load (ev : Event) : bool :=
  match ev with LoadModel _ _ => true | _ => false end.

End EngineSetup.

(* ===================================================================== *)
(** ** More observations on the calls of [processFrame]                  *)
(* ===================================================================== *)

Module Calls.
Import Engine.

Definition is_detect (ev : Event) : bool :=
  match ev with DetectFaces _ => true | _ => false end.

(** The transformed crop the per-face loop obtains for a face, by mode. *)
Definition transformed (impl : Impl) (context : FrameContext) (face : Face)
    (parsing_mask : MaskImage) : Except ImageData :=
  match mode context with
  | FEEDFORWARD | AUTO =>
      feedforward_generator_ impl (aligned_crop face) (controls context) parsing_mask
  | DIFFUSION =>
      diffusion_editor_ impl (aligned_crop face) (controls context) parsing_mask
  | HYBRID => Ok cv.Mat_default
  end.

(** The composite call (crop, face) is the one the loop makes for [face]:
    the crop is what the generator of the mode returned for the label map
    that the parser returned. *)
Definition made_for (impl : Impl) (context : FrameContext) (face : Face)
    (composite : ImageData * Face) : Prop :=
  composite.2 = face ∧
  ∃ parsing_mask,
    face_parser_ impl (aligned_crop face) = Ok parsing_mask ∧
    transformed impl context face parsing_mask = Ok composite.1.

(** The composites applied one after the other to a frame. *)
Fixpoint replay (impl : Impl) (frame : ImageData)
    (composites : list (ImageData * Face)) : Except ImageData :=
  match composites with
  | [] => Ok frame
  | (crop, face) :: rest =>
      match compositor_ impl frame crop face with
      | Ok frame' => replay impl frame' rest
      | Throw e => Throw e
      end
  end.

End Calls.

(* ===================================================================== *)
(** ** [face_detector.cpp]                                               *)
(* ===================================================================== *)

(** The type [int], 32 bits wide.  An arithmetic result that does not fit,
    and the conversion of a [float] that is not a number, is infinite or
    does not fit after truncation, are undefined in C++: [None]. *)
Module CInt.

Definition in_range (z : Z) : bool := (- 2 ^ 31 <=? z) && (z <? 2 ^ 31).

Definition checked (z : Z) : option Z := if in_range z then Some z else None.

Definition add (a b : Z) : option Z := checked (a + b).
Definition sub (a b : Z) : option Z := checked (a - b).

(** [static_cast<int>(x)] of a [float] *)
Definition of_float (x : spec_float) : option Z :=
  match x with
  | S754_nan | S754_infinity _ => None
  | _ => checked (static_cast_int x)
  end.

(** [static_cast<int>(i)] of a [size_t]: the value modulo 2^32. *)
Definition of_size_t (i : Z) : Z := (i + 2 ^ 31) mod 2 ^ 32 - 2 ^ 31.

End CInt.

Module FaceDetector.
Import cv.

(** [cv::Rect]: a rectangle of [int]s. *)
Record Rect := { rect_x : Z; rect_y : Z; rect_width : Z; rect_height : Z }.

(** One row of the detection matrix: its columns 2 to 6. *)
Record Detection := {
  det_confidence : spec_float;
  det_x1 : spec_float; det_y1 : spec_float;
  det_x2 : spec_float; det_y2 : spec_float
}.

(** The private state of the detector.  [forward] stands for lines 90-98 of
    [detectFaces] (blob and forward pass: the output matrices, or the
    exception thrown); [NMSBoxes] is [cv::dnn::NMSBoxes]. *)
Record Impl := {
  model_loaded_ : bool;
  confidence_threshold_ : spec_float;
  nms_threshold_ : spec_float;
  max_faces_ : Z;
  forward : ImageData → Except (list (list Detection));
  NMSBoxes : list Rect → list spec_float → spec_float → spec_float
             → Except (list Z)
}.

(** [m(roi)]: the sub-matrix, or the [cv::Exception] of a rectangle that
    does not lie in the matrix. *)
Definition submat {A} (m : Mat A) (roi : Rect) : Except (Mat A) :=
  if (0 <=? rect_x roi) && (0 <=? rect_width roi) &&
     (rect_x roi + rect_width roi <=? Z.of_nat (cols m)) &&
     (0 <=? rect_y roi) && (0 <=? rect_height roi) &&
     (rect_y roi + rect_height roi <=? Z.of_nat (rows m))
  then Ok ((λ r : list A,
              take (Z.to_nat (rect_width roi)) (drop (Z.to_nat (rect_x roi)) r))
           <$> take (Z.to_nat (rect_height roi)) (drop (Z.to_nat (rect_y roi)) m))
  else Throw "roi out of range".

(** [cv::Mat::eye(2, 3, CV_32F)] *)
Definition eye_2x3 : list (list spec_float) :=
  [[F32.one; F32.zero; F32.zero]; [F32.zero; F32.one; F32.zero]].

(** The box of a detection row, in pixels of the image (lines 111-116):
    four conversions to [int] and two subtractions of [int]s, undefined
    when one of them is. *)
Definition to_box {A} (image : Mat A) (d : Detection) : option Rect :=
  x1 ← CInt.of_float (F32.mul (det_x1 d) (F32.of_Z (Z.of_nat (cols image))));
  y1 ← CInt.of_float (F32.mul (det_y1 d) (F32.of_Z (Z.of_nat (rows image))));
  x2 ← CInt.of_float (F32.mul (det_x2 d) (F32.of_Z (Z.of_nat (cols image))));
  y2 ← CInt.of_float (F32.mul (det_y2 d) (F32.of_Z (Z.of_nat (rows image))));
  width ← CInt.sub x2 x1;
  height ← CInt.sub y2 y1;
  Some {| rect_x := x1; rect_y := y1; rect_width := width; rect_height := height |}.

(** The rows above the confidence threshold, in order. *)
Definition confident (impl : Impl) (detection : list Detection) : list Detection :=
  List.filter (λ d, SFltb (confidence_threshold_ impl) (det_confidence d)) detection.

(** The crop rectangle around a box (lines 139-147): the box with a
    padding of 50 pixels, its origin not before the left and top border,
    its size cut at the right and bottom border; undefined when a
    subtraction or an addition of [int]s overflows. *)
Definition crop_rect (image_rows image_cols : Z) (b : Rect) : option Rect :=
  let padding := 50 in
  x ← CInt.sub (rect_x b) padding;
  y ← CInt.sub (rect_y b) padding;
  room_x ← CInt.sub image_cols (Z.max 0 x);
  width ← CInt.add (rect_width b) (2 * padding);
  room_y ← CInt.sub image_rows (Z.max 0 y);
  height ← CInt.add (rect_height b) (2 * padding);
  Some {| rect_x := Z.max 0 x; rect_y := Z.max 0 y;
          rect_width := Z.min room_x width;
          rect_height := Z.min room_y height |}.

(** The loop that creates the [Face] objects, from position [i] on, given
    the faces made so far.  It ends at the end of the indices and at
    [max_faces_] (compared as [size_t]).  An index that is not one of a
    box, read by [operator[]], and an overflow in the crop rectangle are
    undefined: [None].  The exception of a crop rectangle that does not
    lie in the image is caught by [detectFaces], which returns the faces
    made so far.  The fields the code leaves unset (landmarks, track id,
    frame number) are shown as empty or 0. *)
Fixpoint make_faces (impl : Impl) (image : ImageData) (boxes : list Rect)
    (confidences : list spec_float) (indices : list Z) (i : nat)
    (faces : list Face) : option (list Face) :=
  match indices with
  | [] => Some faces
  | idx :: rest =>
      if Z.of_nat i <? max_faces_ impl mod 2 ^ 64
      then
        b ← (if 0 <=? idx then boxes !! Z.to_nat idx else None);
        confidence ← (if 0 <=? idx then confidences !! Z.to_nat idx else None);
        roi ← crop_rect (Z.of_nat (rows image)) (Z.of_nat (cols image)) b;
        match submat image roi with
        | Ok crop =>
            let face :=
              {| box := {| box_x := F32.of_Z (rect_x b);
                           box_y := F32.of_Z (rect_y b);
                           box_width := F32.of_Z (rect_width b);
                           box_height := F32.of_Z (rect_height b);
                           box_confidence := confidence;
                           face_id := CInt.of_size_t (Z.of_nat i) |};
                 landmarks := {| points := [];
                                 landmarks_confidence := F32.zero |};
                 aligned_crop := clone crop;
                 transform_matrix := eye_2x3;
                 track_id := 0;
                 frame_number := 0 |} in
            make_faces impl image boxes confidences rest (S i) (faces ++ [face])
        | Throw _ => Some faces
        end
      else Some faces
  end.

(** [Impl::detectFaces]: the faces returned, or [None] when the run meets
    an undefined conversion, overflow or index. *)
Definition detectFaces (impl : Impl) (image : ImageData) : option (list Face) :=
  if negb (model_loaded_ impl) || empty image then Some []
  else
    match forward impl image with
    | Throw _ => Some []
    | Ok outputs =>
        match outputs with
        | [] => Some []
        | detection :: _ =>
            let kept := confident impl detection in
            boxes ← mapM (to_box image) kept;
            let confidences := det_confidence <$> kept in
            match NMSBoxes impl boxes confidences (confidence_threshold_ impl)
                    (nms_threshold_ impl) with
            | Throw _ => Some []
            | Ok indices => make_faces impl image boxes confidences indices 0 []
            end
        end
    end.

(** [FaceDetector::setMaxFaces] *)
Definition setMaxFaces (impl : Impl) (max_faces : Z) : Impl :=
  {| model_loaded_ := model_loaded_ impl;
     confidence_threshold_ := confidence_threshold_ impl;
     nms_threshold_ := nms_threshold_ impl;
     max_faces_ := max_faces;
     forward := forward impl;
     NMSBoxes := NMSBoxes impl |}.

(** A rectangle lies in another one. *)
Definition inside (inner outer : Rect) : Prop :=
  rect_x outer ≤ rect_x inner ∧ rect_y outer ≤ rect_y inner ∧
  rect_x inner + rect_width inner ≤ rect_x outer + rect_width outer ∧
  rect_y inner + rect_height inner ≤ rect_y outer + rect_height outer.

End FaceDetector.

Module DetectorSpec.
Import FaceDetector.

(** The fields of the rectangle are [int]s. *)
Definition int_rect (b : Rect) : Prop :=
  CInt.in_range (rect_x b) = true ∧ CInt.in_range (rect_y b) = true ∧
  CInt.in_range (rect_width b) = true ∧ CInt.in_range (rect_height b) = true.

(** The padding of the box stays in [int]: 50 can be taken from its origin
    and 100 added to its size. *)
Definition paddable (b : Rect) : Prop :=
  - 2 ^ 31 + 50 ≤ rect_x b ∧ - 2 ^ 31 + 50 ≤ rect_y b ∧
  rect_width b ≤ 2 ^ 31 - 101 ∧ rect_height b ≤ 2 ^ 31 - 101.

(** The rectangle with the padding of 50 pixels meets the image: it starts
    at most at its right and bottom border and has a size that is not
    negative. *)
Definition meets (image_rows image_cols : Z) (b : Rect) : Prop :=
  rect_x b - 50 ≤ image_cols ∧ rect_y b - 50 ≤ image_rows ∧
  - 100 ≤ rect_width b ∧ - 100 ≤ rect_height b.


(** Nothing in the run of [detectFaces] on the image is undefined: the
    image has [int] dimensions, every row above the threshold converts to
    a box of [int]s, and every index the suppression returns is one of a
    box whose padding stays in [int]. *)
Definition in_range (impl : Impl) (image : ImageData) : Prop :=
  Z.of_nat (cv.rows image) < 2 ^ 31 ∧ Z.of_nat (cv.cols image) < 2 ^ 31 ∧
  ∀ detection outputs,
    forward impl image = Ok (detection :: outputs) →
    ∃ boxes,
      mapM (to_box image) (confident impl detection) = Some boxes ∧
      ∀ indices,
        NMSBoxes impl boxes (det_confidence <$> confident impl detection)
          (confidence_threshold_ impl) (nms_threshold_ impl) = Ok indices →
        Forall (λ idx, 0 ≤ idx ∧
                       ∃ b, boxes !! Z.to_nat idx = Some b ∧ paddable b)
               indices.

End DetectorSpec.

(* ===================================================================== *)
(** ** [utils.cpp], [minimal_engine.cpp]: the rest of the minimal build  *)
(* ===================================================================== *)

#[global] Instance GPUBackend_eq_dec : EqDecision GPUBackend.
Proof. solve_decision. Defined.

Module Utils.

(** [getLibraryVersion] *)
Definition getLibraryVersion : string := "1.0.0-minimal".

(** The characters of [s] up to the first delimiter, and what follows that
    delimiter. *)
Fixpoint take_token (s : string) (delimiter : Ascii.ascii) : string * string :=
  match s with
  | EmptyString => (EmptyString, EmptyString)
  | String c s' =>
      if decide (c = delimiter) then (EmptyString, s')
      else let (token, rest) := take_token s' delimiter in (String c token, rest)
  end.

(** [std::getline(ss, token, delimiter)] on a stream whose unread part is
    [ss]: the token and the new unread part, or [None] when the stream is at
    its end and nothing can be extracted. *)
Definition getline (ss : string) (delimiter : Ascii.ascii) : option (string * string) :=
  match ss with
  | EmptyString => None
  | _ => Some (take_token ss delimiter)
  end.

(** The loop [while (std::getline(ss, token, delimiter)) tokens.push_back(token)],
    run for at most [fuel] rounds. *)
Fixpoint split_loop (fuel : nat) (ss : string) (delimiter : Ascii.ascii)
    (tokens : list string) : list string :=
  match fuel with
  | O => tokens
  | S fuel' =>
      match getline ss delimiter with
      | None => tokens
      | Some (token, rest) => split_loop fuel' rest delimiter (tokens ++ [token])
      end
  end.

(** [splitString]: every round takes at least one character, so the length
    of the string, plus one, is fuel enough. *)
Definition splitString (str : string) (delimiter : Ascii.ascii) : list string :=
  split_loop (S (String.length str)) str delimiter [].

(** Each token followed by the delimiter, all in a row. *)
Fixpoint terminated (tokens : list string) (delimiter : Ascii.ascii) : string :=
  match tokens with
  | [] => EmptyString
  | token :: rest =>
      token +:+ String delimiter (terminated rest delimiter)
  end.

(** The last character of a string is the delimiter. *)
Fixpoint ends_with (s : string) (delimiter : Ascii.ascii) : bool :=
  match s with
  | EmptyString => false
  | String c EmptyString => bool_decide (c = delimiter)
  | String _ s' => ends_with s' delimiter
  end.

(** The character occurs in the string. *)
Fixpoint occurs (c : Ascii.ascii) (s : string) : Prop :=
  match s with
  | EmptyString => False
  | String c' s' => c' = c ∨ occurs c s'
  end.

End Utils.

Module MinimalLifecycle.
Import MinimalEngine.

(** The engine of the minimal build: the state [processFrame] reads, and
    the stored configuration. *)
Record Engine := {
  impl : Impl;
  config_ : option ModelConfig
}.

(** [createEngine] *)
Definition createEngine : Engine :=
  {| impl := {| mode_ := FEEDFORWARD; initialized_ := false |};
     config_ := None |}.

(** [Engine::initialize]: the returned flag, the new engine and the line
    written to the console. *)
Definition initialize (e : Engine) (config : ModelConfig)
  : bool * Engine * list string :=
  (true,
   {| impl := {| mode_ := mode_ (impl e); initialized_ := true |};
      config_ := Some config |},
   ["UFRa Engine initialized (minimal build)"]).

(** [Engine::loadModels]: the returned flag and the lines written to the
    console; [fileExists] is the function of utils.cpp. *)
Definition loadModels (fileExists : string → bool) (e : Engine)
    (model_path : string) : bool * list string :=
  if negb (initialized_ (impl e)) then (false, [])
  else
    (true,
     ["Loading models from: " +:+ model_path] ++
     (if negb (fileExists model_path)
      then ["Warning: Model path does not exist, using fallback"]
      else [])).

(** [Engine::shutdown] *)
Definition shutdown (e : Engine) : Engine :=
  {| impl := {| mode_ := mode_ (impl e); initialized_ := false |};
     config_ := config_ e |}.

(** [Engine::setProcessingMode], [Engine::getProcessingMode] *)
Definition setProcessingMode (e : Engine) (m : ProcessingMode) : Engine :=
  {| impl := {| mode_ := m; initialized_ := initialized_ (impl e) |};
     config_ := config_ e |}.

Definition getProcessingMode (e : Engine) : ProcessingMode := mode_ (impl e).

(** [Engine::processFrame] *)
Definition processFrame (e : Engine) (context : FrameContext) : ProcessingResult :=
  MinimalEngine.processFrame (impl e) context.

(** [Engine::getVersion] *)
Definition getVersion (e : Engine) : string := Utils.getLibraryVersion.

(** [getAvailableBackends] of the minimal build *)
Definition getAvailableBackends : list GPUBackend := [CPU_FALLBACK].

(** The calls a client makes that can change the engine. *)
Inductive Call :=
| Initialize (config : ModelConfig)
| LoadModels (model_path : string)
| SetProcessingMode (m : ProcessingMode)
| Shutdown.

(** The engine after one call, and after a sequence of calls on a new
    engine. *)
Definition step (e : Engine) (c : Call) : Engine :=
  match c with
  | Initialize config => (initialize e config).1.2
  | LoadModels _ => e
  | SetProcessingMode m => setProcessingMode e m
  | Shutdown => shutdown e
  end.

Definition after (calls : list Call) : Engine := foldl step createEngine calls.

(** The last [initialize] of the calls has no [shutdown] after it. *)
Definition started (calls : list Call) : Prop :=
  ∃ before config later,
    calls = before ++ Initialize config :: later ∧ Shutdown ∉ later.

End MinimalLifecycle.

(* ===================================================================== *)
(** ** [cli/main.cpp]: the command line                                  *)
(* ===================================================================== *)

Module Cli.

Record CLIConfig := {
  input_path : string;
  output_path : string;
  models_path : string;
  target_age : spec_float;
  cli_mode : ProcessingMode;
  gpu_backend : GPUBackend;
  cli_batch_size : Z;
  identity_lock : spec_float;
  temporal_stability : bool;
  help : bool
}.

(** [CLIConfig config;] *)
Definition CLIConfig_default : CLIConfig :=
  {| input_path := ""; output_path := "";
     models_path := "/usr/local/share/ufra/models";
     target_age := F32.of_Z 30;
     cli_mode := FEEDFORWARD;
     gpu_backend := CUDA;
     cli_batch_size := 1;
     identity_lock := F32.lit 5 10;
     temporal_stability := true;
     help := false |}.

Definition set_mode (name : string) (c : CLIConfig) : CLIConfig :=
  {| input_path := input_path c; output_path := output_path c;
     models_path := models_path c; target_age := target_age c;
     cli_mode :=
       if decide (name = "feedforward") then FEEDFORWARD
       else if decide (name = "diffusion") then DIFFUSION
       else if decide (name = "hybrid") then HYBRID
       else if decide (name = "auto") then AUTO
       else cli_mode c;
     gpu_backend := gpu_backend c; cli_batch_size := cli_batch_size c;
     identity_lock := identity_lock c;
     temporal_stability := temporal_stability c; help := help c |}.

Definition set_gpu (name : string) (c : CLIConfig) : CLIConfig :=
  {| input_path := input_path c; output_path := output_path c;
     models_path := models_path c; target_age := target_age c;
     cli_mode := cli_mode c;
     gpu_backend :=
       if decide (name = "cuda") then CUDA
       else if decide (name = "metal") then METAL
       else if decide (name = "directml") then DIRECTML
       else if decide (name = "cpu") then CPU_FALLBACK
       else gpu_backend c;
     cli_batch_size := cli_batch_size c;
     identity_lock := identity_lock c;
     temporal_stability := temporal_stability c; help := help c |}.

Section Parse.
(** [std::stof] and [std::stoi]: the number read, or the exception of a
    string that does not start with one. *)
Variable stof : string → Except spec_float.
Variable stoi : string → Except Z.

(** The loop of [parseArguments] over [argv[i..]]; an option that takes a
    value reads it from the next argument, when there is one. *)
Fixpoint parse (args : list string) (c : CLIConfig) : Except CLIConfig :=
  match args with
  | [] => Ok c
  | arg :: rest =>
      if decide (arg = "-h" ∨ arg = "--help")
      then parse rest
             {| input_path := input_path c; output_path := output_path c;
                models_path := models_path c; target_age := target_age c;
                cli_mode := cli_mode c; gpu_backend := gpu_backend c;
                cli_batch_size := cli_batch_size c;
                identity_lock := identity_lock c;
                temporal_stability := temporal_stability c; help := true |}
      else
        match rest with
        | value :: rest' =>
            if decide (arg = "-i" ∨ arg = "--input")
            then parse rest'
                   {| input_path := value; output_path := output_path c;
                      models_path := models_path c; target_age := target_age c;
                      cli_mode := cli_mode c; gpu_backend := gpu_backend c;
                      cli_batch_size := cli_batch_size c;
                      identity_lock := identity_lock c;
                      temporal_stability := temporal_stability c;
                      help := help c |}
            else if decide (arg = "-o" ∨ arg = "--output")
            then parse rest'
                   {| input_path := input_path c; output_path := value;
                      models_path := models_path c; target_age := target_age c;
                      cli_mode := cli_mode c; gpu_backend := gpu_backend c;
                      cli_batch_size := cli_batch_size c;
                      identity_lock := identity_lock c;
                      temporal_stability := temporal_stability c;
                      help := help c |}
            else if decide (arg = "-a" ∨ arg = "--age")
            then match stof value with
                 | Throw e => Throw e
                 | Ok age =>
                     parse rest'
                       {| input_path := input_path c;
                          output_path := output_path c;
                          models_path := models_path c; target_age := age;
                          cli_mode := cli_mode c; gpu_backend := gpu_backend c;
                          cli_batch_size := cli_batch_size c;
                          identity_lock := identity_lock c;
                          temporal_stability := temporal_stability c;
                          help := help c |}
                 end
            else if decide (arg = "-m" ∨ arg = "--mode")
            then parse rest' (set_mode value c)
            else if decide (arg = "--models")
            then parse rest'
                   {| input_path := input_path c; output_path := output_path c;
                      models_path := value; target_age := target_age c;
                      cli_mode := cli_mode c; gpu_backend := gpu_backend c;
                      cli_batch_size := cli_batch_size c;
                      identity_lock := identity_lock c;
                      temporal_stability := temporal_stability c;
                      help := help c |}
            else if decide (arg = "--gpu")
            then parse rest' (set_gpu value c)
            else if decide (arg = "--batch-size")
            then match stoi value with
                 | Throw e => Throw e
                 | Ok n =>
                     parse rest'
                       {| input_path := input_path c;
                          output_path := output_path c;
                          models_path := models_path c;
                          target_age := target_age c;
                          cli_mode := cli_mode c; gpu_backend := gpu_backend c;
                          cli_batch_size := n;
                          identity_lock := identity_lock c;
                          temporal_stability := temporal_stability c;
                          help := help c |}
                 end
            else if decide (arg = "--identity-lock")
            then match stof value with
                 | Throw e => Throw e
                 | Ok lock =>
                     parse rest'
                       {| input_path := input_path c;
                          output_path := output_path c;
                          models_path := models_path c;
                          target_age := target_age c;
                          cli_mode := cli_mode c; gpu_backend := gpu_backend c;
                          cli_batch_size := cli_batch_size c;
                          identity_lock := lock;
                          temporal_stability := temporal_stability c;
                          help := help c |}
                 end
            else if decide (arg = "--temporal-stability")
            then parse rest
                   {| input_path := input_path c; output_path := output_path c;
                      models_path := models_path c; target_age := target_age c;
                      cli_mode := cli_mode c; gpu_backend := gpu_backend c;
                      cli_batch_size := cli_batch_size c;
                      identity_lock := identity_lock c;
                      temporal_stability := true; help := help c |}
            else parse rest c
        | [] =>
            if decide (arg = "--temporal-stability")
            then Ok {| input_path := input_path c; output_path := output_path c;
                       models_path := models_path c; target_age := target_age c;
                       cli_mode := cli_mode c; gpu_backend := gpu_backend c;
                       cli_batch_size := cli_batch_size c;
                       identity_lock := identity_lock c;
                       temporal_stability := true; help := help c |}
            else Ok c
        end
  end.

(** [parseArguments(argc, argv)], [args] being [argv[1 .. argc-1]]. *)
Definition parseArguments (args : list string) : Except CLIConfig :=
  parse args CLIConfig_default.

(** The exit code of [main] when it returns before it touches the engine:
    usage is printed on [--help] and on a missing input or output path. *)
Definition usage_exit (c : CLIConfig) : option Z :=
  if help c || bool_decide (input_path c = "") || bool_decide (output_path c = "")
  then Some (if help c then 0 else -1)
  else None.

End Parse.

(** The options [parseArguments] knows. *)
Definition options : list string :=
  ["-h"; "--help"; "-i"; "--input"; "-o"; "--output"; "-a"; "--age";
   "-m"; "--mode"; "--models"; "--gpu"; "--batch-size"; "--identity-lock";
   "--temporal-stability"].

End Cli.

(* ===================================================================== *)
(** ** [cli/main.cpp], [UFRa_Plugin.cpp]: how the clients set the engine up *)
(* ===================================================================== *)

Module Clients.
Import EngineSetup.

(** [createEngine()]: the engine [Impl()] constructs, with no error
    callback. *)
Definition createEngine : State :=
  {| initialized_ := false; config_ := None; error_callback_ := None |}.

Section Client.
Variable env : Collaborators.
(** [Engine::loadModels], which engine.h declares and the clients call. *)
Variable Engine_loadModels : State → string → M bool.

(** [main], from the construction of the engine to the call of
    [processVideo]: the exit code and the line written to [std::cerr] when
    it returns before that call, [None] when it goes on. *)
Definition main_setup (config : Cli.CLIConfig) : M (option (Z * string)) :=
  let model_config :=
    {| model_path := ""; backend := Cli.gpu_backend config;
       batch_size := Cli.cli_batch_size config;
       use_half_precision := true; max_resolution := 1024 |} in
  r <~ initialize env createEngine model_config ;;
  if negb r.1
  then ret (Some (-1, "Error: Failed to initialize UFRa engine"))
  else
    loaded <~ Engine_loadModels r.2 (Cli.models_path config) ;;
    if negb loaded
    then ret (Some (-1, "Error: Failed to load models from: "
                          +:+ Cli.models_path config))
    else ret None.

(** [UFRaPlugin::setupEngine]: the value of [engineInitialized_] it
    leaves. *)
Definition setupEngine : M bool :=
  try_catch
    (let config :=
       {| model_path := ""; backend := CUDA; batch_size := 1;
          use_half_precision := true; max_resolution := 1024 |} in
     r <~ initialize env createEngine config ;;
     if r.1
     then loaded <~ Engine_loadModels r.2 "/usr/local/share/ufra/models" ;;
          if loaded then ret true else ret false
     else ret false)
    (λ _, ret false).

End Client.

(** The GPU memory manager initialises and the components are
    constructed. *)
Definition components_ready (env : Collaborators) (b : GPUBackend) : Prop :=
  gpu_initialize env b = Ok true ∧ make_components env = Ok tt.

(** The four required models load and the load of the diffusion model
    does not throw. *)
Definition models_ready (env : Collaborators) (model_dir : string) : Prop :=
  loadModel env Detector (model_dir +:+ "/face_detector.onnx") = Ok true ∧
  loadModel env Estimator (model_dir +:+ "/age_estimator.onnx") = Ok true ∧
  loadModel env ParserModel (model_dir +:+ "/face_parser.onnx") = Ok true ∧
  loadModel env Generator (model_dir +:+ "/feedforward_generator.onnx")
    = Ok true ∧
  ∃ b, loadModel env Diffusion (model_dir +:+ "/diffusion_editor") = Ok b.

End Clients.

(* ===================================================================== *)
(** ** The frame orchestrator                                            *)
(* ===================================================================== *)

(** C1. [processFrame] on an engine that is not initialized fails: the
    result has [success = false], a non-empty [error_message] and an empty
    [output_frame], whatever the frame context holds; no component is
    called.  This holds for the full and for the minimal build. *)
Theorem processFrame_not_initialized
    (impl : Engine.Impl) (start_time end_time : Z) (context : FrameContext)
    (log : list Engine.Event)
    (mimpl : MinimalEngine.Impl) (mcontext : MinimalEngine.FrameContext) :
  Engine.initialized_ impl = false →
  MinimalEngine.initialized_ mimpl = false →
  let r := Engine.processFrame impl start_time end_time context log in
  let mr := MinimalEngine.processFrame mimpl mcontext in
  (success r.1 = false ∧ error_message r.1 ≠ "" ∧
   cv.empty (output_frame r.1) = true ∧ r.2 = log) ∧
  (MinimalEngine.success mr = false ∧ MinimalEngine.error_message mr ≠ "" ∧
   MinimalEngine.empty (MinimalEngine.output_frame mr) = true).
Proof.
  intros Hinit Hminit. unfold Engine.processFrame, MinimalEngine.processFrame.
  rewrite Hinit, Hminit. cbn. repeat split; discriminate.
Qed.

Lemma processFrame_not_initialized_witness :
  let r := Engine.processFrame (Offline.engine false) 0 7000000
             (Offline.context [] HYBRID) [] in
  let mr := MinimalEngine.processFrame (Offline.minimal_engine false)
              Offline.minimal_context in
  (success r.1 = false ∧ error_message r.1 ≠ "" ∧
   cv.empty (output_frame r.1) = true ∧ r.2 = []) ∧
  (MinimalEngine.success mr = false ∧ MinimalEngine.error_message mr ≠ "" ∧
   MinimalEngine.empty (MinimalEngine.output_frame mr) = true).
Proof.
  apply (processFrame_not_initialized (Offline.engine false) 0 7000000
           (Offline.context [] HYBRID) []
           (Offline.minimal_engine false) Offline.minimal_context);
    reflexivity.
Defined.

(** C2. On an initialized engine, a context without faces on which the
    detector finds none either is passed through: [success = true] and the
    output frame is a copy of the input frame. *)
Theorem processFrame_passthrough
    (impl : Engine.Impl) (start_time end_time : Z) (context : FrameContext)
    (log : list Engine.Event) :
  Engine.initialized_ impl = true →
  detected_faces context = [] →
  Engine.face_detector_ impl (input_frame context) = Ok [] →
  let r := Engine.processFrame impl start_time end_time context log in
  success r.1 = true ∧ output_frame r.1 = input_frame context ∧
  error_message r.1 = "".
Proof.
  intros Hinit Hnone Hdetect.
  unfold Engine.processFrame, Engine.try_catch, Engine.bind, Engine.call.
  rewrite Hinit, Hnone, Hdetect. cbn.
  destruct (decide _) as [_|Hne]; [|done].
  destruct (decide _) as [_|Hne]; [|done].
  done.
Qed.

Lemma processFrame_passthrough_witness :
  let r := Engine.processFrame (Offline.engine true) 0 7000000
             (Offline.context [] FEEDFORWARD) [] in
  success r.1 = true ∧ output_frame r.1 = Offline.frame ∧ error_message r.1 = "".
Proof.
  apply (processFrame_passthrough (Offline.engine true) 0 7000000
           (Offline.context [] FEEDFORWARD) []); reflexivity.
Defined.

(** Outcome of [processFrame] on an initialized engine, by cases. *)
Lemma processFrame_initialized_cases
    (impl : Engine.Impl) (start_time end_time : Z) (context : FrameContext)
    (log : list Engine.Event) :
  Engine.initialized_ impl = true →
  let r := Engine.processFrame impl start_time end_time context log in
  success r.1 = false ∨
  (success r.1 = true ∧ processed_faces r.1 = [] ∧ metrics r.1 = ∅ ∧
   output_frame r.1 = input_frame context) ∨
  (success r.1 = true ∧ processed_faces r.1 ≠ [] ∧
   metrics r.1 =
     <["faces_processed" := F32.of_Z (Z.of_nat (length (processed_faces r.1)))]>
       (<["processing_time_ms" :=
            F32.of_Z (Engine.duration_ms start_time end_time)]> ∅)).
Proof.
  intros Hinit r.
  assert (r = Engine.processFrame impl start_time end_time context log) as E
    by reflexivity.
  clearbody r. revert E.
  unfold Engine.processFrame, Engine.try_catch, Engine.bind, Engine.call.
  rewrite Hinit. cbn.
  destruct (decide (detected_faces context = [])) as [Hnone|Hsome].
  - destruct (Engine.face_detector_ impl (input_frame context)) as [faces|e];
      [|intros ->; by left].
    destruct (decide (faces = [])) as [->|Hfaces].
    + intros ->. right; left. done.
    + destruct (Engine.for_each _ _ _ _) as [[out|e] log'];
        intros ->; [|by left].
      right; right. cbn. auto.
  - unfold Engine.ret at 1.
    destruct (decide (detected_faces context = [])) as [?|_]; [done|].
    destruct (Engine.for_each _ _ _ _) as [[out|e] log'];
      intros ->; [|by left].
    right; right. cbn. auto.
Qed.

(** C3 (as the code has it).  A [processFrame] of the full build that
    succeeds after processing at least one face reports both
    [processing_time_ms] and [faces_processed]; a success of the minimal
    build reports [processing_time_ms]. *)
Theorem processFrame_metrics_after_faces
    (impl : Engine.Impl) (start_time end_time : Z) (context : FrameContext)
    (log : list Engine.Event)
    (mimpl : MinimalEngine.Impl) (mcontext : MinimalEngine.FrameContext) :
  let r := Engine.processFrame impl start_time end_time context log in
  let mr := MinimalEngine.processFrame mimpl mcontext in
  success r.1 = true →
  processed_faces r.1 ≠ [] →
  MinimalEngine.success mr = true →
  (metrics r.1 !! "processing_time_ms"
     = Some (F32.of_Z (Engine.duration_ms start_time end_time)) ∧
   metrics r.1 !! "faces_processed"
     = Some (F32.of_Z (Z.of_nat (length (processed_faces r.1))))) ∧
  MinimalEngine.metrics mr !! "processing_time_ms" = Some (F32.of_Z 50).
Proof.
  intros r mr Hok Hfaces Hmok. split.
  - destruct (Engine.initialized_ impl) eqn:Hinit.
    + destruct (processFrame_initialized_cases impl start_time end_time
                  context log Hinit) as [Hf|[(_ & Hnil & _)|(_ & _ & Hm)]].
      * fold r in Hf. congruence.
      * fold r in Hnil. congruence.
      * fold r in Hm. rewrite Hm. split.
        -- rewrite lookup_insert_ne by done. apply lookup_insert_eq.
        -- apply lookup_insert_eq.
    + subst r. unfold Engine.processFrame in Hok. rewrite Hinit in Hok.
      discriminate.
  - subst mr. unfold MinimalEngine.processFrame in *.
    destruct (MinimalEngine.initialized_ mimpl); [|discriminate].
    destruct (MinimalEngine.empty _); [discriminate|]. cbn.
    rewrite !lookup_insert_ne by done. apply lookup_insert_eq.
Qed.

Lemma processFrame_metrics_after_faces_witness :
  let r := Engine.processFrame (Offline.engine true) 0 7000000
             (Offline.context [Offline.face [[(1, 2, 3)]]] FEEDFORWARD) [] in
  let mr := MinimalEngine.processFrame (Offline.minimal_engine true)
              Offline.minimal_context in
  (metrics r.1 !! "processing_time_ms" = Some (F32.of_Z 7) ∧
   metrics r.1 !! "faces_processed" = Some (F32.of_Z 1)) ∧
  MinimalEngine.metrics mr !! "processing_time_ms" = Some (F32.of_Z 50).
Proof.
  apply (processFrame_metrics_after_faces (Offline.engine true) 0 7000000
           (Offline.context [Offline.face [[(1, 2, 3)]]] FEEDFORWARD) []
           (Offline.minimal_engine true) Offline.minimal_context);
    [reflexivity | discriminate | reflexivity].
Defined.

(** C3 fails as stated: the pass-through of the full build succeeds with
    an empty metrics map. *)
Lemma passthrough_success_has_no_metrics :
  let r := Engine.processFrame (Offline.engine true) 0 7000000
             (Offline.context [] FEEDFORWARD) [] in
  success r.1 = true ∧
  metrics r.1 !! "processing_time_ms" = None ∧
  metrics r.1 !! "faces_processed" = None.
Proof. cbn. repeat split; apply lookup_empty. Qed.

(** The minimal build reports [face_count], not [faces_processed]. *)
Lemma minimal_processFrame_metric_keys :
  let mr := MinimalEngine.processFrame (Offline.minimal_engine true)
              Offline.minimal_context in
  MinimalEngine.success mr = true ∧
  MinimalEngine.metrics mr !! "face_count" = Some (F32.of_Z 1) ∧
  MinimalEngine.metrics mr !! "faces_processed" = None.
Proof.
  cbn. split; [done|]. split.
  - rewrite lookup_insert_ne by done. apply lookup_insert_eq.
  - rewrite !lookup_insert_ne by done. apply lookup_empty.
Qed.

Section HybridMode.
Import Engine Trace.

Variable impl : Impl.
Variable context : FrameContext.
Hypothesis Hmode : mode context = HYBRID.

Lemma hybrid_calls_app (a b : list Event) :
  hybrid_calls a → hybrid_calls b → hybrid_calls (a ++ b).
Proof using Type.
  unfold hybrid_calls, generator_calls, composite_calls.
  intros [Ha1 Ha2] [Hb1 Hb2].
  rewrite List.filter_app, omap_app, Ha1, Hb1. split; [done|].
  by apply Forall_app.
Qed.

(** One iteration of the per-face loop in hybrid mode. *)
Lemma process_face_hybrid (frame : ImageData) (face : Face) (log : list Event) :
  process_face impl context frame face log =
  match face_parser_ impl (aligned_crop face) with
  | Ok _ =>
      (compositor_ impl frame cv.Mat_default face,
       (log ++ [ParseFace (aligned_crop face)]) ++
         [CompositeFace frame cv.Mat_default face])
  | Throw e => (Throw e, log ++ [ParseFace (aligned_crop face)])
  end.
Proof using Hmode.
  unfold process_face, bind, call, ret. rewrite Hmode.
  by destruct (face_parser_ impl (aligned_crop face)).
Qed.

(** The per-face loop in hybrid mode. *)
Lemma hybrid_loop (faces : list Face) :
  ∀ (frame : ImageData) (log : list Event) res log',
    for_each faces (process_face impl context) frame log = (res, log') →
    ∃ new : list Event,
      log' = log ++ new ∧
      hybrid_calls new ∧
      ∀ out, res = Ok out →
             composite_calls new = (λ f, (cv.Mat_default, f)) <$> faces.
Proof using Hmode.
  induction faces as [|face faces IH]; intros frame log res log' Hrun.
  - injection Hrun as <- <-. exists []. rewrite app_nil_r.
    repeat split; constructor.
  - cbn [for_each] in Hrun. unfold bind at 1 in Hrun.
    rewrite process_face_hybrid in Hrun.
    destruct (face_parser_ impl (aligned_crop face)) as [mask|e].
    + destruct (compositor_ impl frame cv.Mat_default face) as [frame'|e].
      * apply IH in Hrun as (new & -> & Hcalls & Hall).
        exists ([ParseFace (aligned_crop face);
                 CompositeFace frame cv.Mat_default face] ++ new).
        split; [|split].
        -- by rewrite <- !app_assoc.
        -- apply hybrid_calls_app; [|done].
           split; [done|]. cbn. by constructor.
        -- intros out Hout. unfold composite_calls in *.
           rewrite omap_app. cbn. f_equal. by eapply Hall.
      * injection Hrun as <- <-.
        exists [ParseFace (aligned_crop face);
                CompositeFace frame cv.Mat_default face].
        split; [by rewrite <- app_assoc|].
        split; [|discriminate].
        split; [done|]. cbn. by constructor.
    + injection Hrun as <- <-.
      exists [ParseFace (aligned_crop face)].
      repeat split; [constructor | discriminate].
Qed.
End HybridMode.

(** C10. In [HYBRID] mode, [processFrame] on an initialized engine and a
    non-empty face list calls neither generator; each call of
    [compositeFace] is given a default-constructed (empty) image as the
    processed face, and a successful run makes exactly one such call per
    face, in order. *)
Theorem processFrame_hybrid_composites_empty_crops
    (impl : Engine.Impl) (start_time end_time : Z) (context : FrameContext)
    (log : list Engine.Event) :
  Engine.initialized_ impl = true →
  mode context = HYBRID →
  detected_faces context ≠ [] →
  let r := Engine.processFrame impl start_time end_time context log in
  ∃ new : list Engine.Event,
    r.2 = log ++ new ∧
    Trace.generator_calls new = [] ∧
    Forall (λ cf : ImageData * Face, cv.empty cf.1 = true ∧ cf.1 = cv.Mat_default)
           (Trace.composite_calls new) ∧
    (success r.1 = true →
     Trace.composite_calls new
       = (λ f, (cv.Mat_default, f)) <$> detected_faces context).
Proof.
  intros Hinit Hmode Hfaces r.
  assert (r = Engine.processFrame impl start_time end_time context log) as E
    by reflexivity.
  clearbody r. revert E.
  unfold Engine.processFrame, Engine.try_catch, Engine.bind.
  rewrite Hinit. cbn.
  destruct (decide (detected_faces context = [])) as [?|_]; [done|].
  unfold Engine.ret at 1.
  destruct (decide (detected_faces context = [])) as [?|_]; [done|].
  destruct (Engine.for_each _ _ _ _) as [res log'] eqn:Hloop.
  apply (hybrid_loop impl context Hmode) in Hloop
    as (new & -> & [Hgen Hcomp] & Hall).
  destruct res as [out|e]; intros ->; cbn; exists new.
  - repeat split; try done.
    + eapply Forall_impl; [exact Hcomp|]. intros cf ->. done.
    + intros _. by eapply Hall.
  - repeat split; try done.
    eapply Forall_impl; [exact Hcomp|]. intros cf ->. done.
Qed.

Lemma processFrame_hybrid_composites_empty_crops_witness :
  let faces := [Offline.face [[(1, 2, 3)]]; Offline.face [[(4, 5, 6)]]] in
  let r := Engine.processFrame (Offline.engine true) 0 7000000
             (Offline.context faces HYBRID) [] in
  ∃ new : list Engine.Event,
    r.2 = [] ++ new ∧
    Trace.generator_calls new = [] ∧
    Forall (λ cf : ImageData * Face, cv.empty cf.1 = true ∧ cf.1 = cv.Mat_default)
           (Trace.composite_calls new) ∧
    (success r.1 = true →
     Trace.composite_calls new = (λ f, (cv.Mat_default, f)) <$> faces).
Proof.
  apply (processFrame_hybrid_composites_empty_crops (Offline.engine true)
           0 7000000
           (Offline.context [Offline.face [[(1, 2, 3)]]; Offline.face [[(4, 5, 6)]]]
                            HYBRID) []);
    [reflexivity | reflexivity | discriminate].
Defined.

(* ===================================================================== *)
(** ** Pixel access through the matrix primitives                        *)
(* ===================================================================== *)

Section PixelAccess.
Import cv.

Lemma get_Some_inv {A} (m : list (list A)) (y x : Z) (v : A) :
  get m y x = Some v →
  0 ≤ y ∧ 0 ≤ x ∧ ∃ r, m !! Z.to_nat y = Some r ∧ r !! Z.to_nat x = Some v.
Proof.
  unfold get. destruct (Z.leb_spec 0 y), (Z.leb_spec 0 x); try discriminate.
  cbn. destruct (m !! Z.to_nat y) as [r|] eqn:Hr; [|discriminate]. cbn.
  intros Hv. repeat split; [lia | lia | eauto].
Qed.

Lemma get_of_lookup {A} (m : list (list A)) (i j : nat) (r : list A) (v : A) :
  m !! i = Some r → r !! j = Some v → get m (Z.of_nat i) (Z.of_nat j) = Some v.
Proof.
  intros Hr Hv. unfold get.
  destruct (Z.leb_spec 0 (Z.of_nat i)); [|lia].
  destruct (Z.leb_spec 0 (Z.of_nat j)); [|lia].
  cbn. rewrite !Nat2Z.id, Hr. exact Hv.
Qed.

Lemma get_map_pixels {A B} (f : A → B) (m : list (list A)) (y x : Z) :
  get (map_pixels f m) y x = f <$> get m y x.
Proof.
  unfold get, map_pixels. destruct ((0 <=? y) && (0 <=? x)); [|done].
  rewrite list_lookup_fmap. destruct (m !! Z.to_nat y) as [r|]; [|done].
  cbn. apply list_lookup_fmap.
Qed.

Lemma get_zip_pixels {A B C} (f : A → B → C)
    (a : list (list A)) (b : list (list B)) (y x : Z) :
  get (zip_pixels f a b) y x =
  match get a y x, get b y x with
  | Some u, Some v => Some (f u v)
  | _, _ => None
  end.
Proof.
  unfold get, zip_pixels. destruct ((0 <=? y) && (0 <=? x)); [|done].
  rewrite lookup_zip_with.
  destruct (a !! Z.to_nat y) as [ra|]; [|done]. cbn.
  destruct (b !! Z.to_nat y) as [rb|]; cbn.
  - rewrite lookup_zip_with.
    destruct (ra !! Z.to_nat x); [|done]. cbn.
    by destruct (rb !! Z.to_nat x).
  - by destruct (ra !! Z.to_nat x).
Qed.

Lemma get_mapi_pixels {A B} (f : Z → Z → A → B) (m : list (list A)) (y x : Z) :
  get (mapi_pixels f m) y x = f y x <$> get m y x.
Proof.
  unfold get, mapi_pixels.
  destruct (Z.leb_spec 0 y), (Z.leb_spec 0 x); try done. cbn.
  rewrite list_lookup_imap. destruct (m !! Z.to_nat y) as [r|]; [|done].
  cbn. rewrite list_lookup_imap. rewrite !Z2Nat.id by lia. done.
Qed.

Lemma get_tabulate {A B} (f : Z → Z → B) (m : list (list A)) (y x : Z) :
  get (tabulate f m) y x = (λ _, f y x) <$> get m y x.
Proof. apply get_mapi_pixels. Qed.

(** A loop that rewrites every pixel to itself. *)
Lemma mapi_pixels_id {A} (f : Z → Z → A → A) (m : list (list A)) :
  (∀ y x p, get m y x = Some p → f y x p = p) → mapi_pixels f m = m.
Proof.
  intros Hf. unfold mapi_pixels.
  apply list_eq. intros i. rewrite list_lookup_imap.
  destruct (m !! i) as [r|] eqn:Hr; [|done]. cbn. f_equal.
  apply list_eq. intros j. rewrite list_lookup_imap.
  destruct (r !! j) as [p|] eqn:Hp; [|done]. cbn. f_equal.
  eapply Hf, get_of_lookup; eauto.
Qed.

(** A property of all pixels, through [get]. *)
Lemma Forall_pixels_get {A} (P : A → Prop) (m : list (list A)) :
  Forall (Forall P) m ↔ ∀ y x v, get m y x = Some v → P v.
Proof.
  split.
  - intros Hall y x v Hget.
    apply get_Some_inv in Hget as (_ & _ & r & Hr & Hv).
    rewrite Forall_lookup in Hall. specialize (Hall _ _ Hr).
    rewrite Forall_lookup in Hall. by eapply Hall.
  - intros Hget. apply Forall_lookup. intros i r Hr.
    apply Forall_lookup. intros j v Hv.
    eapply Hget, get_of_lookup; eauto.
Qed.

End PixelAccess.

(* ===================================================================== *)
(** ** Region masks are binary                                           *)
(* ===================================================================== *)

Section BinaryMasks.
Import cv RegionSpec.

Lemma binary_get (mask : MaskImage) :
  binary mask ↔ ∀ y x v, get mask y x = Some v → v = 0 ∨ v = 255.
Proof. apply Forall_pixels_get. Qed.

Lemma inRange_binary (src : MaskImage) (lo hi : Z) : binary (inRange src lo hi).
Proof.
  apply binary_get. intros y x v. unfold inRange. rewrite get_map_pixels.
  destruct (get src y x) as [l|]; [|discriminate]. cbn. intros [= <-].
  destruct ((lo <=? l) && (l <=? hi)); auto.
Qed.

Lemma zeros_binary (sz : nat * nat) : binary (zeros sz).
Proof.
  unfold binary, zeros. apply Forall_replicate, Forall_replicate. by left.
Qed.

Lemma bitwise_or_binary (a b : MaskImage) :
  binary a → binary b → binary (bitwise_or a b).
Proof.
  rewrite !binary_get. intros Ha Hb y x v. unfold bitwise_or.
  rewrite get_zip_pixels.
  destruct (get a y x) as [u|] eqn:Hu; [|discriminate].
  destruct (get b y x) as [w|] eqn:Hw; [|discriminate].
  intros [= <-].
  destruct (Ha _ _ _ Hu) as [->| ->], (Hb _ _ _ Hw) as [->| ->]; cbn; auto.
Qed.

Lemma bitwise_and_binary (a b : MaskImage) :
  binary a → binary b → binary (bitwise_and a b).
Proof.
  rewrite !binary_get. intros Ha Hb y x v. unfold bitwise_and.
  rewrite get_zip_pixels.
  destruct (get a y x) as [u|] eqn:Hu; [|discriminate].
  destruct (get b y x) as [w|] eqn:Hw; [|discriminate].
  intros [= <-].
  destruct (Ha _ _ _ Hu) as [->| ->], (Hb _ _ _ Hw) as [->| ->]; cbn; auto.
Qed.

Lemma bitwise_not_binary (a : MaskImage) : binary a → binary (bitwise_not a).
Proof.
  rewrite !binary_get. intros Ha y x v. unfold bitwise_not.
  rewrite get_map_pixels.
  destruct (get a y x) as [u|] eqn:Hu; [|discriminate]. intros [= <-].
  destruct (Ha _ _ _ Hu) as [->| ->]; cbn; auto.
Qed.

Lemma tabulate_binary {A} (f : Z → Z → Z) (m : list (list A)) :
  (∀ y x, f y x = 0 ∨ f y x = 255) → binary (tabulate f m).
Proof.
  intros Hf. apply binary_get. intros y x v. rewrite get_tabulate.
  destruct (get m y x); [|discriminate]. intros [= <-]. apply Hf.
Qed.

(** The pixels under the structuring element are pixels of the image. *)
Lemma elem_of_window (src : MaskImage) (kw kh : nat) (y x v : Z) :
  v ∈ window src kw kh y x ↔
  ∃ i j, 0 ≤ i < Z.of_nat kh ∧ 0 ≤ j < Z.of_nat kw ∧
         get src (y + i - Z.of_nat kh / 2) (x + j - Z.of_nat kw / 2) = Some v.
Proof.
  unfold window, offsets. rewrite list_elem_of_bind. split.
  - intros (i & Hv & Hi). apply list_elem_of_bind in Hv as (j & Hv & Hj).
    apply list_elem_of_fmap in Hi as (i' & -> & Hi).
    apply list_elem_of_fmap in Hj as (j' & -> & Hj).
    apply elem_of_seq in Hi, Hj.
    exists (Z.of_nat i'), (Z.of_nat j'). repeat split; try lia.
    destruct (get src _ _) as [w|]; [|by apply elem_of_nil in Hv].
    apply list_elem_of_singleton in Hv. by subst.
  - intros (i & j & Hi & Hj & Hv).
    exists i. split.
    + apply list_elem_of_bind. exists j. split.
      * rewrite Hv. by apply list_elem_of_singleton.
      * apply list_elem_of_fmap. exists (Z.to_nat j). split; [lia|].
        apply elem_of_seq. lia.
    + apply list_elem_of_fmap. exists (Z.to_nat i). split; [lia|].
      apply elem_of_seq. lia.
Qed.

(** The maximum of a list of binary values is 255 exactly when 255 occurs. *)
Lemma foldr_max_binary (l : list Z) :
  Forall (λ v, v = 0 ∨ v = 255) l →
  ((255 ∈ l) ∧ foldr Z.max 0 l = 255) ∨ ((255 ∉ l) ∧ foldr Z.max 0 l = 0).
Proof.
  induction 1 as [|v l Hv _ IH]; cbn.
  - right. split; [apply not_elem_of_nil | done].
  - destruct IH as [[Hin ->]|[Hout ->]], Hv as [->| ->]; cbn.
    + left. split; [apply elem_of_cons; by right | done].
    + left. split; [apply elem_of_cons; by left | done].
    + right. split; [|done]. intros [?|?]%elem_of_cons; [done|auto].
    + left. split; [apply elem_of_cons; by left | done].
Qed.

Lemma window_binary (src : MaskImage) (kw kh : nat) (y x : Z) :
  binary src → Forall (λ v, v = 0 ∨ v = 255) (window src kw kh y x).
Proof.
  rewrite binary_get. intros Hsrc. apply Forall_forall. intros v Hv.
  apply elem_of_window in Hv as (i & j & _ & _ & Hget). eauto.
Qed.

Lemma dilate_binary (src : MaskImage) (kw kh : nat) :
  binary src → binary (dilate src kw kh).
Proof.
  intros Hsrc. apply tabulate_binary. intros y x.
  destruct (foldr_max_binary _ (window_binary src kw kh y x Hsrc))
    as [[_ ->]|[_ ->]]; auto.
Qed.

Lemma getRegionMask_binary (m : MaskImage) (ids : list Z) :
  binary (FaceParser.getRegionMask m ids).
Proof.
  unfold FaceParser.getRegionMask. destruct (empty m); [constructor|].
  generalize (zeros_binary (size m)). generalize (zeros (size m)).
  induction ids as [|id ids IH]; intros acc Hacc; cbn; [done|].
  apply IH, bitwise_or_binary; [done | apply inRange_binary].
Qed.

End BinaryMasks.

(** C4. Every pixel of the mask returned by any of the eight region
    operations, on any label map, is exactly 0 or 255. *)
Theorem region_masks_are_binary (r : FaceParser.Region) (m : MaskImage) :
  RegionSpec.binary (FaceParser.regionMask r m).
Proof.
  destruct r; cbn [FaceParser.regionMask];
    try apply getRegionMask_binary.
  - apply bitwise_and_binary; [apply inRange_binary|].
    apply dilate_binary, inRange_binary.
  - apply bitwise_and_binary; [apply inRange_binary|].
    apply bitwise_not_binary, dilate_binary, bitwise_or_binary;
      apply inRange_binary.
  - apply bitwise_and_binary; [apply inRange_binary|].
    apply tabulate_binary. intros y _. destruct (_ <=? y); auto.
Qed.

(* ===================================================================== *)
(** ** The forehead mask                                                 *)
(* ===================================================================== *)

Section Forehead.
Import cv RegionSpec.

Lemma selected_here (m : MaskImage) (ids : list Z) (y x l : Z) :
  get m y x = Some l → (selected m ids y x ↔ l ∈ ids).
Proof.
  intros Hl. unfold selected. split.
  - intros (l' & Hl' & Hin). congruence.
  - eauto.
Qed.

(** The eyebrow selection of the code, [inRange(6, 7)], selects the labels
    6 and 7. *)
Lemma brow_mask_selected (m : MaskImage) (y x : Z) :
  get (inRange m 6 7) y x = Some 255 ↔ selected m [6; 7] y x.
Proof.
  unfold inRange. rewrite get_map_pixels. unfold selected. split.
  - destruct (get m y x) as [l|]; [|discriminate]. cbn.
    destruct (Z.leb_spec 6 l), (Z.leb_spec l 7); cbn; try discriminate.
    intros _. exists l. split; [done|].
    assert (l = 6 ∨ l = 7) as [->| ->] by lia; rewrite !elem_of_cons; auto.
  - intros (l & -> & Hin). cbn.
    rewrite !elem_of_cons, elem_of_nil in Hin.
    by destruct Hin as [->|[->|[]]].
Qed.

(** The 15 x 15 dilation of the code is the dilation of the pixel set. *)
Lemma dilated_brow_window (m : MaskImage) (y x : Z) :
  255 ∈ window (inRange m 6 7) 15 15 y x ↔
  dilated_15x15 (selected m [6; 7]) y x.
Proof.
  rewrite elem_of_window. change (Z.of_nat 15 / 2) with 7.
  unfold dilated_15x15. split.
  - intros (i & j & Hi & Hj & Hget).
    exists (y + i - 7), (x + j - 7).
    split; [lia|]. split; [lia|]. by apply brow_mask_selected.
  - intros (y' & x' & Hy & Hx & Hsel).
    exists (y' - y + 7), (x' - x + 7).
    split; [lia|]. split; [lia|].
    apply brow_mask_selected.
    by replace (y + (y' - y + 7) - 7) with y' by lia;
       replace (x + (x' - x + 7) - 7) with x' by lia.
Qed.

Lemma getForeheadMask_get (m : MaskImage) (y x : Z) :
  get (FaceParser.getForeheadMask m) y x =
  (λ l, Z.land (if (1 <=? l) && (l <=? 1) then 255 else 0)
               (foldr Z.max 0 (window (inRange m 6 7) 15 15 y x)))
    <$> get m y x.
Proof.
  unfold FaceParser.getForeheadMask, bitwise_and, dilate.
  rewrite get_zip_pixels, get_tabulate. unfold inRange.
  rewrite !get_map_pixels. by destruct (get m y x).
Qed.

Lemma getForeheadMask_represents (m : MaskImage) :
  represents m (FaceParser.getForeheadMask m) (forehead m).
Proof.
  intros y x. rewrite getForeheadMask_get.
  destruct (foldr_max_binary _
              (window_binary (inRange m 6 7) 15 15 y x (inRange_binary m 6 7)))
    as [[Hin ->]|[Hout ->]];
    (destruct (get m y x) as [l|] eqn:Hl; [|done]);
    cbn; unfold forehead; rewrite (selected_here m [1] y x l Hl);
    rewrite <- dilated_brow_window.
  - destruct (Z.leb_spec 1 l), (Z.leb_spec l 1); cbn.
    + left. split; [|done]. split; [|done].
      assert (l = 1) as -> by lia. by apply list_elem_of_singleton.
    + right. split; [|done]. intros [Hskin _].
      apply list_elem_of_singleton in Hskin. lia.
    + right. split; [|done]. intros [Hskin _].
      apply list_elem_of_singleton in Hskin. lia.
    + lia.
  - right. split; [tauto|]. by rewrite Z.land_0_r.
Qed.

End Forehead.

(** C5. [getForeheadMask] returns the binary image of the pixel set
    "skin (label 1) and inside the 15 x 15 rectangular dilation of the
    eyebrow selection (labels 6 and 7)"; on a label map without eyebrow
    pixels the mask is all zero. *)
Theorem getForeheadMask_is_skin_near_brows (m : MaskImage) :
  RegionSpec.represents m (FaceParser.getForeheadMask m) (RegionSpec.forehead m) ∧
  ((∀ y x, ¬ RegionSpec.selected m [6; 7] y x) →
   RegionSpec.all_zero (FaceParser.getForeheadMask m)).
Proof.
  split; [apply getForeheadMask_represents|].
  intros Hnone. apply Forall_pixels_get. intros y x v Hv.
  pose proof (getForeheadMask_represents m y x) as Hrep.
  destruct (cv.get m y x) as [l|]; [|congruence].
  destruct Hrep as [[[_ (y' & x' & _ & _ & Hbrow)] _]|[_ Hzero]].
  - by apply Hnone in Hbrow.
  - congruence.
Qed.

Lemma getForeheadMask_is_skin_near_brows_witness :
  RegionSpec.represents [[1; 2; 1]; [1; 10; 13]]
    (FaceParser.getForeheadMask [[1; 2; 1]; [1; 10; 13]])
    (RegionSpec.forehead [[1; 2; 1]; [1; 10; 13]]) ∧
  RegionSpec.all_zero (FaceParser.getForeheadMask [[1; 2; 1]; [1; 10; 13]]).
Proof.
  destruct (getForeheadMask_is_skin_near_brows [[1; 2; 1]; [1; 10; 13]])
    as [Hrep Hzero].
  split; [exact Hrep|]. apply Hzero.
  intros y x (l & Hget & Hin).
  apply get_Some_inv in Hget as (_ & _ & r & Hr & Hl).
  destruct (Z.to_nat y) as [|[|?]]; cbn in Hr; try discriminate;
    injection Hr as <-;
    (destruct (Z.to_nat x) as [|[|[|?]]]; cbn in Hl; try discriminate;
     injection Hl as <-; rewrite !elem_of_cons, elem_of_nil in Hin;
     by destruct Hin as [?|[?|[]]]).
Defined.

(** The test scenario of the parser: skin around an eyebrow patch. *)
Example getForeheadMask_example :
  FaceParser.getForeheadMask [[1; 1; 6; 1]; [0; 1; 7; 13]]
  = [[255; 255; 0; 255]; [0; 255; 0; 0]].
Proof. reflexivity. Qed.

(* ===================================================================== *)
(** ** Single-precision facts on 8-bit values                            *)
(* ===================================================================== *)

Section ByteArithmetic.
Import cv.

(** A decidable property of all 8-bit values, by enumeration. *)
Lemma byte_cases (P : Z → bool) :
  forallb P (offsets 256) = true → ∀ a, 0 ≤ a ≤ 255 → P a = true.
Proof.
  intros Hall a Ha. rewrite forallb_forall in Hall. apply Hall.
  unfold offsets. apply list_elem_of_In, list_elem_of_fmap.
  exists (Z.to_nat a). split; [lia|]. apply elem_of_seq. lia.
Qed.

Lemma sub_one_one : F32.sub F32.one F32.one = F32.zero.
Proof. reflexivity. Qed.

Lemma sub_one_zero : F32.sub F32.one F32.zero = F32.one.
Proof. reflexivity. Qed.

Lemma mul_byte_zero (b : Z) :
  0 ≤ b ≤ 255 → F32.mul (F32.of_Z b) F32.zero = F32.zero.
Proof.
  intros Hb.
  pose proof (byte_cases
    (λ b, bool_decide (F32.mul (F32.of_Z b) F32.zero = F32.zero))) as H.
  cbv beta in H. eapply bool_decide_eq_true_1, H; [|exact Hb].
  vm_compute. reflexivity.
Qed.

(** A mask pixel of 255 normalises to a value above 0.5. *)
Lemma mask_255_inside :
  F32.ltb (F32.lit 5 10) (convert_32F (F64.lit 1 255) 255) = true.
Proof. vm_compute. reflexivity. Qed.

(** [a * 1.0f + 0 + 0], rounded and saturated, is [a]. *)
Lemma weighted_identity (a : Z) :
  0 ≤ a ≤ 255 →
  saturate_cast_uchar
    (F32.add (F32.add (F32.mul (F32.of_Z a) F32.one) F32.zero) F32.zero) = a.
Proof.
  intros Ha. apply Z.eqb_eq.
  apply (byte_cases (λ a, saturate_cast_uchar
           (F32.add (F32.add (F32.mul (F32.of_Z a) F32.one) F32.zero) F32.zero)
           =? a)); [|exact Ha].
  vm_compute. reflexivity.
Qed.

(** [static_cast<uchar>(o * 1.0f + 0)] is [o]. *)
Lemma truncated_identity (o : Z) :
  0 ≤ o ≤ 255 →
  static_cast_uchar (F32.add (F32.mul (F32.of_Z o) F32.one) F32.zero) = o.
Proof.
  intros Ho. apply Z.eqb_eq.
  apply (byte_cases (λ o, static_cast_uchar
           (F32.add (F32.mul (F32.of_Z o) F32.one) F32.zero) =? o));
    [|exact Ho].
  vm_compute. reflexivity.
Qed.

Lemma weighted_sum_lock_one (a b : Z) :
  0 ≤ a ≤ 255 → 0 ≤ b ≤ 255 →
  weighted_sum F32.one (F32.sub F32.one F32.one) F32.zero a b = a.
Proof.
  intros Ha Hb. unfold weighted_sum.
  rewrite sub_one_one, (mul_byte_zero b Hb). by apply weighted_identity.
Qed.

Lemma blend_channel_zero (o a : Z) :
  0 ≤ o ≤ 255 → 0 ≤ a ≤ 255 →
  FeedforwardGenerator.blend_channel F32.zero o a = o.
Proof.
  intros Ho Ha. unfold FeedforwardGenerator.blend_channel.
  rewrite sub_one_zero, (mul_byte_zero a Ha). by apply truncated_identity.
Qed.

(** Adding the zero offset of [addWeighted] changes no written value. *)
Lemma saturate_add_zero (v : spec_float) :
  saturate_cast_uchar (F32.add v F32.zero) = saturate_cast_uchar v.
Proof. by destruct v as [[]|[]| |]. Qed.

Lemma weighted_sum_convex (lock : spec_float) (a b : Z) :
  weighted_sum lock (F32.sub F32.one lock) F32.zero a b
  = BlendSpec.convex_channel lock a b.
Proof. apply saturate_add_zero. Qed.

End ByteArithmetic.

(* ===================================================================== *)
(** ** Identity lock and region overrides                                *)
(* ===================================================================== *)

Section Blend.
Import cv BlendSpec.

Lemma zip_with_fst_id {A B} (P : A → Prop) (Q : B → Prop) (f : A → B → A)
    (a : list A) (b : list B) :
  (∀ u v, P u → Q v → f u v = u) →
  length a = length b → Forall P a → Forall Q b → zip_with f a b = a.
Proof.
  intros Hf Hlen Ha. revert b Hlen.
  induction Ha as [|u a Hu _ IH]; intros [|v b] Hlen Hb; try done.
  cbn in *. inversion Hb; subst. f_equal; [by apply Hf | apply IH; [lia|done]].
Qed.

Lemma valid_image_get (img : ImageData) (y x : Z) (p : Vec3b) :
  valid_image img → get img y x = Some p → valid_pixel p.
Proof.
  intros [_ Hall] Hget. by eapply (Forall_pixels_get valid_pixel img).
Qed.

(** One pixel of [blendRegion]. *)
Lemma get_blendRegion (original aged : ImageData) (mask : MaskImage)
    (strength : spec_float) (y x : Z) :
  get (FeedforwardGenerator.blendRegion original aged mask strength) y x =
  (λ a,
     if empty mask then a
     else match get mask y x, get original y x with
          | Some mv, Some o =>
              if F32.ltb (F32.lit 5 10) (convert_32F (F64.lit 1 255) mv)
              then zip_channels (FeedforwardGenerator.blend_channel strength) o a
              else a
          | _, _ => a
          end) <$> get aged y x.
Proof.
  unfold FeedforwardGenerator.blendRegion.
  destruct (empty mask); [by destruct (get aged y x)|].
  apply get_mapi_pixels.
Qed.

Lemma blend_pixel_zero (o a : Vec3b) :
  valid_pixel o → valid_pixel a →
  zip_channels (FeedforwardGenerator.blend_channel F32.zero) o a = o.
Proof.
  destruct o as [[o1 o2] o3], a as [[a1 a2] a3].
  intros (? & ? & ?) (? & ? & ?). unfold zip_channels. cbn in *.
  by rewrite !blend_channel_zero.
Qed.

(** A region override of strength 0 applied to the original itself. *)
Lemma blendRegion_zero_original (original : ImageData) (mask : MaskImage) :
  valid_image original →
  FeedforwardGenerator.blendRegion original original mask F32.zero = original.
Proof.
  intros Hvalid. unfold FeedforwardGenerator.blendRegion.
  destruct (empty mask); [done|].
  apply mapi_pixels_id. intros y x p Hp. rewrite Hp.
  destruct (get mask y x); [|done].
  destruct (F32.ltb _ _); [|done].
  apply blend_pixel_zero; exact (valid_image_get original y x p Hvalid Hp).
Qed.

Lemma addWeighted_lock_one (original transformed : ImageData) :
  valid_image original → valid_image transformed →
  size original = size transformed →
  addWeighted original F32.one transformed (F32.sub F32.one F32.one) F32.zero
  = Ok original.
Proof.
  intros [Hrect Hpix] [Hrect' Hpix'] Hsize. unfold addWeighted.
  unfold rectangular in Hrect, Hrect'.
  destruct (decide _) as [_|]; [|done]. f_equal.
  injection Hsize as Hrows Hcols. unfold rows in Hrows.
  unfold zip_pixels.
  apply (zip_with_fst_id
           (λ r, length r = cols original ∧ Forall valid_pixel r)
           (λ r, length r = cols original ∧ Forall valid_pixel r)).
  - intros r r' [Hlen Hr] [Hlen' Hr'].
    apply (zip_with_fst_id valid_pixel valid_pixel); try done; [|congruence].
    intros [[o1 o2] o3] [[t1 t2] t3] (? & ? & ?) (? & ? & ?).
    unfold zip_channels. cbn in *. by rewrite !weighted_sum_lock_one.
  - done.
  - apply Forall_forall. intros r Hr.
    rewrite Forall_forall in Hrect, Hpix. auto.
  - apply Forall_forall. intros r Hr.
    rewrite Forall_forall in Hrect', Hpix'. rewrite Hcols. auto.
Qed.

End Blend.

(** With the strengths the generator hard-codes, lock strength 1.0 is
    reproduced only up to the truncation of the region blend: a skin-labelled
    pixel of value 3 comes back as 2 when hair aging is disabled. *)
Example lock_one_fixed_strengths_truncate :
  FeedforwardGenerator.generateAgedFace
    {| FeedforwardGenerator.model_loaded_ := true;
       FeedforwardGenerator.input_width_ := 1;
       FeedforwardGenerator.input_height_ := 1;
       FeedforwardGenerator.run_network := λ _ _, Ok [[(200, 210, 220)]] |}
    [[(3, 100, 255)]] (Offline.age_controls false F32.one) [[1]]
  = [[(2, 100, 255)]].
Proof. vm_compute. reflexivity. Qed.

Section FixedStrengths.
Import cv BlendSpec.

Lemma mask_0_outside :
  F32.ltb (F32.lit 5 10) (convert_32F (F64.lit 1 255) 0) = false.
Proof. vm_compute. reflexivity. Qed.

(** Blending a value with itself at one of the four hard-coded strengths
    loses at most one unit to truncation. *)
Lemma blend_channel_self (s : spec_float) (o : Z) :
  s ∈ [F32.lit 8 10; F32.lit 1 10; F32.lit 3 10; F32.lit 4 10] →
  0 ≤ o ≤ 255 →
  o - 1 ≤ FeedforwardGenerator.blend_channel s o o ≤ o.
Proof.
  intros Hs Ho.
  assert (forallb (λ s, forallb (λ o,
            (o - 1 <=? FeedforwardGenerator.blend_channel s o o) &&
            (FeedforwardGenerator.blend_channel s o o <=? o)) (offsets 256))
          [F32.lit 8 10; F32.lit 1 10; F32.lit 3 10; F32.lit 4 10] = true)
    as Hall by (vm_compute; reflexivity).
  rewrite forallb_forall in Hall.
  specialize (Hall s (proj1 (list_elem_of_In _ _) Hs)).
  pose proof (byte_cases _ Hall o Ho) as Hb. cbv beta in Hb.
  apply andb_true_iff in Hb as [?%Z.leb_le ?%Z.leb_le]. lia.
Qed.

Lemma blend_pixel_self (s : spec_float) (o : Vec3b) :
  s ∈ [F32.lit 8 10; F32.lit 1 10; F32.lit 3 10; F32.lit 4 10] →
  valid_pixel o →
  within_rounding o (zip_channels (FeedforwardGenerator.blend_channel s) o o).
Proof.
  destruct o as [[o1 o2] o3]. intros Hs (? & ? & ?).
  unfold within_rounding, zip_channels. cbn in *.
  repeat split; by apply blend_channel_self.
Qed.

(** One region step on a pixel of known label. *)
Lemma get_blendRegion_inRange (original aged : ImageData)
    (parsing_mask : MaskImage) (lo hi : Z) (s : spec_float)
    (y x l : Z) (o a : Vec3b) :
  get parsing_mask y x = Some l →
  get original y x = Some o →
  get aged y x = Some a →
  get (FeedforwardGenerator.blendRegion original aged
         (inRange parsing_mask lo hi) s) y x
  = Some (if empty (inRange parsing_mask lo hi) then a
          else if (lo <=? l) && (l <=? hi)
               then zip_channels (FeedforwardGenerator.blend_channel s) o a
               else a).
Proof.
  intros Hl Ho Ha. rewrite get_blendRegion, Ha. cbn. f_equal.
  destruct (empty _); [done|].
  unfold inRange. rewrite get_map_pixels, Hl, Ho. cbn.
  destruct ((lo <=? l) && (l <=? hi)).
  - by rewrite mask_255_inside.
  - by rewrite mask_0_outside.
Qed.

(** At lock strength 1.0 the default blend is the original; the regional
    blend with its hard-coded strengths then moves every channel by at
    most one unit. *)
Lemma lock_one_fixed_strengths_within_rounding (original : ImageData)
    (parsing_mask : MaskImage) (c : AgeControls) (y x : Z) (o : Vec3b) :
  valid_image original →
  get original y x = Some o →
  ∃ p, get (FeedforwardGenerator.applyRegionalBlending
              original original parsing_mask c) y x = Some p ∧
       within_rounding o p.
Proof.
  intros Hvalid Ho.
  pose proof (valid_image_get original y x o Hvalid Ho) as Hvo.
  assert (within_rounding o o) as Hrefl.
  { unfold within_rounding. lia. }
  assert (∀ s, s ∈ [F32.lit 8 10; F32.lit 1 10; F32.lit 3 10; F32.lit 4 10] →
               within_rounding o
                 (zip_channels (FeedforwardGenerator.blend_channel s) o o))
    as Hblend by (intros; by apply blend_pixel_self).
  pose proof (Hblend (F32.lit 8 10) ltac:(rewrite !elem_of_cons; auto)) as H8.
  pose proof (Hblend (F32.lit 1 10) ltac:(rewrite !elem_of_cons; auto)) as H1.
  pose proof (Hblend (F32.lit 3 10) ltac:(rewrite !elem_of_cons; auto)) as H3.
  pose proof (Hblend (F32.lit 4 10) ltac:(rewrite !elem_of_cons; auto)) as H4.
  clear Hblend.
  unfold FeedforwardGenerator.applyRegionalBlending.
  destruct (get parsing_mask y x) as [l|] eqn:Hl.
  - set (hair := if enable_hair_aging c then _ else _).
    assert (∃ a, get hair y x = Some a ∧
                 (a = o ∨ (l = 1 ∧ within_rounding o a))) as (a & Ha & Hcase).
    { subst hair. destruct (enable_hair_aging c);
        rewrite (get_blendRegion_inRange _ _ _ _ _ _ _ _ l o o Hl Ho Ho);
        eexists; (split; [done|]);
        destruct (empty _); auto;
        destruct (Z.leb_spec 1 l), (Z.leb_spec l 1); cbn; auto;
        right; (split; [lia|done]). }
    rewrite (get_blendRegion_inRange _ _ _ _ _ _ _ _ l o
               (if empty (inRange parsing_mask 3 4) then a
                else if (3 <=? l) && (l <=? 4)
                     then zip_channels
                            (FeedforwardGenerator.blend_channel (F32.lit 3 10)) o a
                     else a) Hl Ho).
    2: { by rewrite (get_blendRegion_inRange _ _ _ _ _ _ _ _ l o a Hl Ho Ha). }
    eexists. split; [done|].
    destruct (empty (inRange parsing_mask 5 6)), (empty (inRange parsing_mask 3 4));
      destruct (Z.leb_spec 3 l), (Z.leb_spec l 4),
               (Z.leb_spec 5 l), (Z.leb_spec l 6); cbn; try lia;
      destruct Hcase as [->|[? ?]]; try lia; done.
  - exists o. split; [|done].
    assert (∀ aged lo hi s,
              get aged y x = Some o →
              get (FeedforwardGenerator.blendRegion original aged
                     (inRange parsing_mask lo hi) s) y x = Some o) as Hskip.
    { intros aged lo hi s Ha. rewrite get_blendRegion, Ha. cbn. f_equal.
      destruct (empty _); [done|].
      unfold inRange. by rewrite get_map_pixels, Hl. }
    apply Hskip, Hskip. destruct (enable_hair_aging c); by apply Hskip.
Qed.

End FixedStrengths.

(* ===================================================================== *)
(** ** The hair region of the regional blend                             *)
(* ===================================================================== *)

(** A pixel outside a region mask is not touched by [blendRegion]. *)
Lemma blendRegion_outside (original aged : ImageData) (mask : MaskImage)
    (strength : spec_float) (y x : Z) :
  cv.get mask y x = Some 0 →
  cv.get (FeedforwardGenerator.blendRegion original aged mask strength) y x
  = cv.get aged y x.
Proof.
  intros Hout. rewrite get_blendRegion, Hout.
  destruct (cv.get aged y x) as [a|]; [|done]. cbn.
  destruct (cv.empty mask); [done|]. by destruct (cv.get original y x).
Qed.

(** No region of [applyRegionalBlending] covers the label 13: such a pixel
    keeps the value of the default blend, whatever [enable_hair_aging] is. *)
Lemma applyRegionalBlending_label_13 (original aged : ImageData)
    (parsing_mask : MaskImage) (c : AgeControls) (y x : Z) :
  cv.get parsing_mask y x = Some 13 →
  cv.get (FeedforwardGenerator.applyRegionalBlending original aged parsing_mask c)
         y x
  = cv.get aged y x.
Proof.
  intros Hlabel. unfold FeedforwardGenerator.applyRegionalBlending.
  assert (∀ lo hi, (13 <? lo) || (hi <? 13) = true →
                   cv.get (cv.inRange parsing_mask lo hi) y x = Some 0) as Hout.
  { intros lo hi Hrange. unfold cv.inRange. rewrite get_map_pixels, Hlabel. cbn.
    destruct (Z.leb_spec lo 13), (Z.leb_spec 13 hi); cbn; try done.
    apply orb_true_iff in Hrange as [?%Z.ltb_lt|?%Z.ltb_lt]; lia. }
  rewrite !blendRegion_outside by (by apply Hout).
  destruct (enable_hair_aging c); by rewrite blendRegion_outside by (by apply Hout).
Qed.

(** C7 on the code.  With hair aging disabled, a hair pixel (label 13) of
    value 10 whose transformed value is 200 comes out fully transformed
    (lock strength 0), while the skin pixel (label 1) beside it is the one
    held near the original at strength 0.1. *)
Theorem hair_label_is_not_held_back :
  FeedforwardGenerator.generateAgedFace
    {| FeedforwardGenerator.model_loaded_ := true;
       FeedforwardGenerator.input_width_ := 2;
       FeedforwardGenerator.input_height_ := 1;
       FeedforwardGenerator.run_network :=
         λ _ _, Ok [[(200, 210, 220); (200, 210, 220)]] |}
    [[(10, 20, 30); (10, 20, 30)]] (Offline.age_controls false F32.zero) [[13; 1]]
  = [[(200, 210, 220); (29, 39, 49)]].
Proof. vm_compute. reflexivity. Qed.

(* ===================================================================== *)
(** ** Soft failure of the generator                                     *)
(* ===================================================================== *)

(** C8. Whenever the generator cannot produce a valid same-size transformed
    crop (model not loaded, empty crop, an exception in the network
    pipeline, or a result of another size), [generateAgedFace] returns the
    crop it was given; it returns an image in every case and throws
    nothing. *)
Theorem generateAgedFace_soft_fails
    (impl : FeedforwardGenerator.Impl) (face_crop : ImageData)
    (c : AgeControls) (parsing_mask : MaskImage) :
  BlendSpec.cannot_transform impl face_crop c →
  FeedforwardGenerator.generateAgedFace impl face_crop c parsing_mask
  = cv.clone face_crop.
Proof.
  unfold BlendSpec.cannot_transform, FeedforwardGenerator.generateAgedFace,
    FeedforwardGenerator.generate_body.
  intros [Hload|[Hempty|[[e Hthrow]|(r & Hrun & Hsize)]]].
  - by rewrite Hload.
  - rewrite Hempty. by rewrite orb_true_r.
  - destruct (negb _ || _); [done|]. by rewrite Hthrow.
  - destruct (negb _ || _); [done|]. rewrite Hrun. unfold cv.addWeighted.
    destruct (decide _) as [Heq|_]; [|done]. by destruct Hsize.
Qed.

Lemma generateAgedFace_soft_fails_witness :
  FeedforwardGenerator.generateAgedFace
    {| FeedforwardGenerator.model_loaded_ := true;
       FeedforwardGenerator.input_width_ := 2;
       FeedforwardGenerator.input_height_ := 2;
       FeedforwardGenerator.run_network :=
         λ _ _, Ok [[(1, 1, 1); (2, 2, 2)]; [(3, 3, 3); (4, 4, 4)]] |}
    [[(10, 20, 30)]] (Offline.age_controls true (F32.lit 8 10)) [[13]]
  = [[(10, 20, 30)]].
Proof.
  apply generateAgedFace_soft_fails.
  right; right; right.
  exists [[(1, 1, 1); (2, 2, 2)]; [(3, 3, 3); (4, 4, 4)]].
  split; [reflexivity | discriminate].
Defined.

(* ===================================================================== *)
(** ** The compositor                                                    *)
(* ===================================================================== *)

(** C9. Compositing an empty face crop leaves the target frame as it was,
    whatever the frame, the face geometry and the configuration. *)
Theorem compositeFace_empty_crop
    (alg : Compositor.Algorithms) (cfg : Compositor.BlendConfig)
    (target_frame processed_face : ImageData) (face_info : Face) :
  cv.empty processed_face = true →
  Compositor.compositeFace alg cfg target_frame processed_face face_info
  = target_frame.
Proof.
  intros Hempty. unfold Compositor.compositeFace. by rewrite Hempty.
Qed.

Lemma compositeFace_empty_crop_witness :
  Compositor.compositeFace Offline.algorithms Offline.config Offline.frame
    cv.Mat_default (Offline.face [[(1, 2, 3)]])
  = Offline.frame.
Proof. apply compositeFace_empty_crop. reflexivity. Defined.

(** The compositor does write when the crop is not empty. *)
Example compositeFace_places_crop :
  Compositor.compositeFace Offline.algorithms Offline.config Offline.frame
    [[(200, 180, 160)]] (Offline.face [[(1, 2, 3)]])
  = [[Offline.gray; (200, 180, 160); Offline.gray];
     [Offline.gray; Offline.gray; Offline.gray]].
Proof. vm_compute. reflexivity. Qed.

(* ===================================================================== *)
(** ** More on the region masks                                          *)
(* ===================================================================== *)

Section MaskFacts.
Import cv RegionSpec MaskSpec.

Lemma represents_iff (m mask : MaskImage) (S S' : Z → Z → Prop) :
  (∀ y x, S y x ↔ S' y x) → represents m mask S → represents m mask S'.
Proof.
  intros Hiff Hrep y x. specialize (Hrep y x).
  destruct (get m y x); [|done]. rewrite <- !Hiff. done.
Qed.

Lemma get_zeros (r c : nat) (y x : Z) :
  get (zeros (r, c)) y x =
  if (0 <=? y) && (y <? Z.of_nat r) && (0 <=? x) && (x <? Z.of_nat c)
  then Some 0 else None.
Proof.
  unfold get, zeros. cbn [fst snd].
  destruct (Z.leb_spec 0 y), (Z.leb_spec 0 x); cbn;
    try by rewrite ?andb_false_r.
  destruct (Z.ltb_spec y (Z.of_nat r)); cbn.
  - assert (Z.to_nat y < r)%nat as Hy by lia.
    rewrite (lookup_replicate_2 r (replicate c 0) (Z.to_nat y) Hy). cbn.
    destruct (Z.ltb_spec x (Z.of_nat c)).
    + apply lookup_replicate_2. lia.
    + apply lookup_replicate_None. lia.
  - assert (r ≤ Z.to_nat y)%nat as Hy by lia.
    apply (lookup_replicate_None r (replicate c 0)) in Hy. by rewrite Hy.
Qed.

(** In a rectangular matrix the pixels are those of the grid
    [rows] x [cols]. *)
Lemma rectangular_get {A} (m : list (list A)) (y x : Z) :
  rectangular m →
  (is_Some (get m y x) ↔ 0 ≤ y < Z.of_nat (rows m) ∧ 0 ≤ x < Z.of_nat (cols m)).
Proof.
  intros Hrect. unfold rectangular in Hrect. rewrite Forall_lookup in Hrect.
  unfold get, rows.
  destruct (Z.leb_spec 0 y), (Z.leb_spec 0 x); cbn;
    try (split; [by intros [? ?] | lia]).
  destruct (m !! Z.to_nat y) as [r|] eqn:Hr; cbn.
  - pose proof (lookup_lt_Some _ _ _ Hr). rewrite <- (Hrect _ _ Hr).
    rewrite lookup_lt_is_Some. lia.
  - apply lookup_ge_None in Hr. split; [by intros [? ?] | lia].
Qed.

Lemma zeros_represents (m : MaskImage) :
  rectangular m → represents m (zeros (size m)) (λ _ _, False).
Proof.
  intros Hrect y x. unfold size. rewrite get_zeros.
  pose proof (rectangular_get m y x Hrect) as Hgrid.
  destruct (get m y x) as [l|].
  - destruct Hgrid as [Hgrid _]. specialize (Hgrid (mk_is_Some _ _ eq_refl)).
    destruct (Z.leb_spec 0 y), (Z.ltb_spec y (Z.of_nat (rows m))),
             (Z.leb_spec 0 x), (Z.ltb_spec x (Z.of_nat (cols m))); try lia.
    cbn. right. tauto.
  - destruct (Z.leb_spec 0 y), (Z.ltb_spec y (Z.of_nat (rows m))),
             (Z.leb_spec 0 x), (Z.ltb_spec x (Z.of_nat (cols m))); try done.
    cbn. destruct Hgrid as [_ Hgrid]. destruct Hgrid as [? ?]; [lia|done].
Qed.

Lemma selected_singleton (m : MaskImage) (id y x : Z) :
  selected m [id] y x ↔ get m y x = Some id.
Proof.
  unfold selected. split.
  - intros (l & Hl & Hin). apply list_elem_of_singleton in Hin. by subst.
  - intros Hl. exists id. split; [done|]. by apply list_elem_of_singleton.
Qed.

Lemma selected_app (m : MaskImage) (a b : list Z) (y x : Z) :
  selected m (a ++ b) y x ↔ selected m a y x ∨ selected m b y x.
Proof.
  unfold selected. split.
  - intros (l & Hl & Hin). apply elem_of_app in Hin as [?|?]; eauto.
  - intros [(l & Hl & Hin)|(l & Hl & Hin)]; exists l;
      (split; [done|]); apply elem_of_app; auto.
Qed.

(** One step of the loop of [getRegionMask]. *)
Lemma region_step_represents (m acc : MaskImage) (S : Z → Z → Prop) (id : Z) :
  represents m acc S →
  represents m (bitwise_or acc (inRange m id id))
             (λ y x, S y x ∨ selected m [id] y x).
Proof.
  intros Hacc y x. specialize (Hacc y x). unfold bitwise_or, inRange.
  rewrite get_zip_pixels, get_map_pixels.
  destruct (get m y x) as [l|] eqn:Hl; cbn.
  - assert (selected m [id] y x ↔ l = id) as Hsel.
    { rewrite selected_singleton, Hl. split; congruence. }
    rewrite Hsel.
    destruct Hacc as [[HS ->]|[HS ->]];
      destruct (Z.leb_spec id l), (Z.leb_spec l id); cbn;
      first [ left; split; [tauto || (right; lia) | done]
            | right; split; [intros [?|?]; (tauto || lia) | done] ].
  - by rewrite Hacc.
Qed.

Lemma region_fold_represents (m : MaskImage) (ids : list Z) :
  ∀ (acc : MaskImage) (done_ids : list Z),
    represents m acc (selected m done_ids) →
    represents m
      (foldl (λ region_mask region_idx,
                bitwise_or region_mask (inRange m region_idx region_idx))
             acc ids)
      (selected m (done_ids ++ ids)).
Proof.
  induction ids as [|id ids IH]; intros acc done_ids Hacc; cbn.
  - by rewrite app_nil_r.
  - replace (done_ids ++ id :: ids) with ((done_ids ++ [id]) ++ ids)
      by (by rewrite <- app_assoc).
    apply IH. eapply represents_iff; [|by apply region_step_represents].
    intros y x. by rewrite selected_app.
Qed.

End MaskFacts.

Lemma getRegionMask_represents (m : MaskImage) (ids : list Z) :
  cv.rectangular m →
  cv.empty m = false →
  RegionSpec.represents m (FaceParser.getRegionMask m ids)
                        (RegionSpec.selected m ids).
Proof.
  intros Hrect Hne. unfold FaceParser.getRegionMask. rewrite Hne.
  apply (region_fold_represents m ids (cv.zeros (cv.size m)) []).
  eapply represents_iff; [|by apply zeros_represents].
  intros y x. split; [done|]. intros (l & _ & Hin). by apply elem_of_nil in Hin.
Qed.

(** X1. On a non-empty label map, [getRegionMask] returns the binary image
    of the pixels whose label is one of the listed ids: 255 there, 0 on
    every other pixel of the map, and no pixel outside the map. *)
Theorem getRegionMask_selects (m : MaskImage) (ids : list Z) :
  cv.rectangular m →
  cv.empty m = false →
  RegionSpec.represents m (FaceParser.getRegionMask m ids)
                        (RegionSpec.selected m ids).
Proof. apply getRegionMask_represents. Qed.

Lemma getRegionMask_selects_witness :
  RegionSpec.represents [[4; 1; 5]; [0; 13; 4]]
    (FaceParser.getRegionMask [[4; 1; 5]; [0; 13; 4]] [4; 5])
    (RegionSpec.selected [[4; 1; 5]; [0; 13; 4]] [4; 5]).
Proof.
  apply getRegionMask_selects; [|reflexivity].
  repeat constructor.
Defined.

Section Shapes.
Import cv RegionSpec MaskSpec.

Lemma shape_map_pixels {A B} (f : A → B) (m : list (list A)) :
  shape (map_pixels f m) = shape m.
Proof.
  unfold shape, map_pixels. rewrite <- list_fmap_compose.
  apply list_fmap_ext. intros _ r _. cbn. apply length_fmap.
Qed.

Lemma shape_mapi_pixels {A B} (f : Z → Z → A → B) (m : list (list A)) :
  shape (mapi_pixels f m) = shape m.
Proof.
  unfold shape, mapi_pixels. apply list_eq. intros i.
  rewrite !list_lookup_fmap, list_lookup_imap.
  destruct (m !! i); [|done]. cbn. by rewrite length_imap.
Qed.

Lemma shape_zip_pixels {A B C} (f : A → B → C)
    (a : list (list A)) (b : list (list B)) :
  shape a = shape b → shape (zip_pixels f a b) = shape a.
Proof.
  unfold shape, zip_pixels. revert b.
  induction a as [|ra a IH]; intros [|rb b] Hshape; try done.
  cbn in *. injection Hshape as Hlen Hrest.
  rewrite length_zip_with, IH by done. f_equal. lia.
Qed.

Lemma shape_zeros {A} (m : list (list A)) :
  rectangular m → shape (zeros (size m)) = shape m.
Proof.
  intros Hrect. unfold shape, zeros, size, rows. cbn [fst snd].
  unfold rectangular in Hrect. generalize dependent (cols m). intros c Hrect.
  induction Hrect as [|r m Hr _ IH]; [done|].
  cbn. by rewrite length_replicate, Hr, IH.
Qed.

Lemma shape_getRegionMask (m : MaskImage) (ids : list Z) :
  rectangular m → empty m = false →
  shape (FaceParser.getRegionMask m ids) = shape m.
Proof.
  intros Hrect Hne. unfold FaceParser.getRegionMask. rewrite Hne.
  generalize (shape_zeros m Hrect). generalize (zeros (size m)).
  induction ids as [|id ids IH]; intros acc Hacc; cbn; [done|].
  apply IH. unfold bitwise_or. rewrite shape_zip_pixels; [done|].
  unfold inRange. by rewrite shape_map_pixels.
Qed.

(** Matrices of one shape with the same pixels are equal. *)
Lemma mat_eq_get {A} (a b : list (list A)) :
  shape a = shape b → (∀ y x, get a y x = get b y x) → a = b.
Proof.
  unfold shape. intros Hshape Hget. apply list_eq. intros i.
  assert (length <$> a !! i = length <$> b !! i) as Hlen.
  { by rewrite <- !list_lookup_fmap, Hshape. }
  destruct (a !! i) as [ra|] eqn:Ha, (b !! i) as [rb|] eqn:Hb; try done.
  cbn in Hlen. injection Hlen as Hlen. f_equal.
  apply list_eq. intros j.
  specialize (Hget (Z.of_nat i) (Z.of_nat j)). unfold get in Hget.
  destruct (Z.leb_spec 0 (Z.of_nat i)); [|lia].
  destruct (Z.leb_spec 0 (Z.of_nat j)); [|lia].
  cbn in Hget. by rewrite !Nat2Z.id, Ha, Hb in Hget.
Qed.

Lemma shape_get_is_Some {A B} (a : list (list A)) (b : list (list B)) (y x : Z) :
  shape a = shape b → (is_Some (get a y x) ↔ is_Some (get b y x)).
Proof.
  unfold shape. intros Hshape. unfold get.
  destruct ((0 <=? y) && (0 <=? x)); [|done].
  assert (length <$> a !! Z.to_nat y = length <$> b !! Z.to_nat y) as Hlen.
  { by rewrite <- !list_lookup_fmap, Hshape. }
  destruct (a !! Z.to_nat y) as [ra|], (b !! Z.to_nat y) as [rb|];
    cbn in *; try done.
  injection Hlen as Hlen.
  rewrite !lookup_lt_is_Some. by rewrite Hlen.
Qed.

Lemma shape_empty {A B} (a : list (list A)) (b : list (list B)) :
  shape a = shape b → empty a = empty b.
Proof.
  unfold shape, empty, rows, cols.
  destruct a as [|ra a], b as [|rb b]; try done. cbn.
  intros [= -> _]. done.
Qed.

Lemma shape_rectangular {A B} (a : list (list A)) (b : list (list B)) :
  shape a = shape b → rectangular a → rectangular b.
Proof.
  unfold shape, rectangular. intros Hshape Hrect.
  assert (cols b = cols a) as ->.
  { destruct a, b; try done. cbn in *. by injection Hshape as -> _. }
  generalize dependent (cols a). intros c Hrect. revert b Hshape.
  induction Hrect as [|ra a Hra _ IH]; intros [|rb b] Hshape; try done.
  cbn in Hshape. injection Hshape as Hlen Hrest.
  constructor; [congruence | by apply IH].
Qed.

End Shapes.

(** X2. On a non-empty label map every region mask has the shape of the
    map: as many rows, each as long as the row of the map. *)
Theorem region_masks_keep_shape (r : FaceParser.Region) (m : MaskImage) :
  cv.rectangular m →
  cv.empty m = false →
  MaskSpec.shape (FaceParser.regionMask r m) = MaskSpec.shape m.
Proof.
  intros Hrect Hne.
  destruct r; cbn [FaceParser.regionMask];
    try (by apply shape_getRegionMask).
  - unfold FaceParser.getForeheadMask, cv.bitwise_and, cv.dilate, cv.tabulate,
      cv.inRange.
    repeat first [ rewrite shape_map_pixels | rewrite shape_mapi_pixels
                 | rewrite shape_zip_pixels ]; reflexivity.
  - unfold FaceParser.getCheeksMask, cv.bitwise_and, cv.bitwise_or,
      cv.bitwise_not, cv.dilate, cv.tabulate, cv.inRange.
    repeat first [ rewrite shape_map_pixels | rewrite shape_mapi_pixels
                 | rewrite shape_zip_pixels ]; reflexivity.
  - unfold FaceParser.getJawMask, cv.bitwise_and, cv.tabulate, cv.inRange.
    repeat first [ rewrite shape_map_pixels | rewrite shape_mapi_pixels
                 | rewrite shape_zip_pixels ]; reflexivity.
Qed.

Lemma region_masks_keep_shape_witness :
  MaskSpec.shape (FaceParser.regionMask FaceParser.Cheeks [[4; 1; 5]; [0; 13; 4]])
  = [3; 3]%nat.
Proof.
  apply (region_masks_keep_shape FaceParser.Cheeks [[4; 1; 5]; [0; 13; 4]]);
    [repeat constructor | reflexivity].
Defined.

(** X3. Locality of the simple region masks: two label maps of one shape
    that carry the listed ids on the same pixels get the same mask, whatever
    the other labels are. *)
Theorem getRegionMask_local (m1 m2 : MaskImage) (ids : list Z) :
  cv.rectangular m1 →
  MaskSpec.shape m1 = MaskSpec.shape m2 →
  (∀ y x, RegionSpec.selected m1 ids y x ↔ RegionSpec.selected m2 ids y x) →
  FaceParser.getRegionMask m1 ids = FaceParser.getRegionMask m2 ids.
Proof.
  intros Hrect Hshape Hsame.
  pose proof (shape_rectangular m1 m2 Hshape Hrect) as Hrect2.
  pose proof (shape_empty m1 m2 Hshape) as Hempty.
  destruct (cv.empty m1) eqn:Hne.
  { unfold FaceParser.getRegionMask. by rewrite Hne, <- Hempty. }
  symmetry in Hempty.
  apply mat_eq_get.
  - rewrite !shape_getRegionMask by done. done.
  - intros y x.
    pose proof (getRegionMask_represents m1 ids Hrect Hne y x) as H1.
    pose proof (getRegionMask_represents m2 ids Hrect2 Hempty y x) as H2.
    pose proof (shape_get_is_Some m1 m2 y x Hshape) as Hsome.
    destruct (cv.get m1 y x) as [l1|], (cv.get m2 y x) as [l2|].
    + destruct H1 as [[Hs1 ->]|[Hs1 ->]], H2 as [[Hs2 ->]|[Hs2 ->]]; try done;
        [by apply Hsame in Hs1 | by apply Hsame in Hs2].
    + destruct Hsome as [Hsome _].
      by destruct (Hsome (mk_is_Some _ _ eq_refl)).
    + destruct Hsome as [_ Hsome].
      by destruct (Hsome (mk_is_Some _ _ eq_refl)).
    + congruence.
Qed.

Lemma getRegionMask_local_witness :
  FaceParser.getEyesMask [[4; 1; 5]; [0; 13; 4]]
  = FaceParser.getEyesMask [[4; 17; 5]; [2; 2; 4]].
Proof.
  apply (getRegionMask_local [[4; 1; 5]; [0; 13; 4]] [[4; 17; 5]; [2; 2; 4]]
           [4; 5]); [repeat constructor | reflexivity |].
  intros y x. unfold RegionSpec.selected, cv.get.
  destruct ((0 <=? y) && (0 <=? x)); [|naive_solver].
  destruct (Z.to_nat y) as [|[|?]]; cbn;
    [| |naive_solver];
    (destruct (Z.to_nat x) as [|[|[|?]]]; cbn; [| | |naive_solver]);
    split; intros (l & [= <-] & Hin);
    rewrite !elem_of_cons, elem_of_nil in Hin;
    try (by destruct Hin as [?|[?|[]]]);
    eexists; (split; [done|]); rewrite !elem_of_cons; auto.
Defined.

Section DerivedMasks.
Import cv RegionSpec MaskSpec.

(** A decidable property of the numbers below [n], by enumeration. *)
Lemma range_cases (n : nat) (P : Z → bool) :
  forallb P (offsets n) = true → ∀ a, 0 ≤ a < Z.of_nat n → P a = true.
Proof.
  intros Hall a Ha. rewrite forallb_forall in Hall. apply Hall.
  unfold offsets. apply list_elem_of_In, list_elem_of_fmap.
  exists (Z.to_nat a). split; [lia|]. apply elem_of_seq. lia.
Qed.

(** The central selection of the code, nose or mouth area, selects the
    labels 2, 10, 11 and 12. *)
Lemma central_mask_selected (m : MaskImage) (y x : Z) :
  get (bitwise_or (inRange m 2 2) (inRange m 10 12)) y x = Some 255 ↔
  selected m [2; 10; 11; 12] y x.
Proof.
  unfold bitwise_or, inRange. rewrite get_zip_pixels, !get_map_pixels.
  unfold selected. split.
  - destruct (get m y x) as [l|]; [|discriminate]. cbn. intros Hv.
    exists l. split; [done|]. rewrite !elem_of_cons.
    destruct (Z.leb_spec 2 l), (Z.leb_spec l 2),
             (Z.leb_spec 10 l), (Z.leb_spec l 12); cbn in Hv;
      try discriminate; lia.
  - intros (l & -> & Hin). cbn.
    rewrite !elem_of_cons, elem_of_nil in Hin.
    by destruct Hin as [->|[->|[->|[->|[]]]]].
Qed.

Lemma dilated_central_window (m : MaskImage) (y x : Z) :
  255 ∈ window (bitwise_or (inRange m 2 2) (inRange m 10 12)) 20 20 y x ↔
  dilated_20x20 (selected m [2; 10; 11; 12]) y x.
Proof.
  rewrite elem_of_window. change (Z.of_nat 20 / 2) with 10.
  unfold dilated_20x20. split.
  - intros (i & j & Hi & Hj & Hget).
    exists (y + i - 10), (x + j - 10).
    split; [lia|]. split; [lia|]. by apply central_mask_selected.
  - intros (y' & x' & Hy & Hx & Hsel).
    exists (y' - y + 10), (x' - x + 10).
    split; [lia|]. split; [lia|].
    apply central_mask_selected.
    by replace (y + (y' - y + 10) - 10) with y' by lia;
       replace (x + (x' - x + 10) - 10) with x' by lia.
Qed.

Lemma get_bitwise_or (a b : MaskImage) (y x : Z) :
  get (bitwise_or a b) y x =
  match get a y x, get b y x with
  | Some u, Some v => Some (Z.lor u v)
  | _, _ => None
  end.
Proof. apply get_zip_pixels. Qed.

Lemma get_inRange (m : MaskImage) (lo hi : Z) (y x : Z) :
  get (inRange m lo hi) y x =
  (λ v, if (lo <=? v) && (v <=? hi) then 255 else 0) <$> get m y x.
Proof. apply get_map_pixels. Qed.

Lemma getCheeksMask_get (m : MaskImage) (y x : Z) :
  get (FaceParser.getCheeksMask m) y x =
  (λ l, Z.land (if (1 <=? l) && (l <=? 1) then 255 else 0)
          (Z.lxor
             (foldr Z.max 0
                (window (bitwise_or (inRange m 2 2) (inRange m 10 12)) 20 20 y x))
             255))
    <$> get m y x.
Proof.
  unfold FaceParser.getCheeksMask, bitwise_and, bitwise_not, dilate.
  rewrite get_zip_pixels, get_map_pixels, get_tabulate.
  rewrite get_bitwise_or, !get_inRange. by destruct (get m y x).
Qed.

Lemma getCheeksMask_represents (m : MaskImage) :
  represents m (FaceParser.getCheeksMask m) (cheeks m).
Proof.
  intros y x. rewrite getCheeksMask_get.
  assert (binary (bitwise_or (inRange m 2 2) (inRange m 10 12))) as Hbin
    by (apply bitwise_or_binary; apply inRange_binary).
  destruct (foldr_max_binary _ (window_binary _ 20 20 y x Hbin))
    as [[Hin ->]|[Hout ->]];
    (destruct (get m y x) as [l|] eqn:Hl; [|done]);
    cbn; unfold cheeks; rewrite (selected_here m [1] y x l Hl);
    rewrite <- dilated_central_window.
  - right. split; [tauto|]. by rewrite Z.land_0_r.
  - destruct (Z.leb_spec 1 l), (Z.leb_spec l 1); cbn.
    + left. split; [|done]. split; [|done].
      assert (l = 1) as -> by lia. by apply list_elem_of_singleton.
    + right. split; [|done]. intros [Hskin _].
      apply list_elem_of_singleton in Hskin. lia.
    + right. split; [|done]. intros [Hskin _].
      apply list_elem_of_singleton in Hskin. lia.
    + lia.
Qed.

(** [static_cast<int>(rows * 0.6)] is three fifths of [rows], rounded
    down, for every height up to 4096. *)
Lemma jaw_start_row (n : Z) :
  0 ≤ n ≤ 4096 →
  static_cast_int (F64.mul (F64.of_Z n) (F64.lit 6 10)) = 3 * n / 5.
Proof.
  intros Hn. apply Z.eqb_eq.
  apply (range_cases 4097
           (λ n, static_cast_int (F64.mul (F64.of_Z n) (F64.lit 6 10))
                 =? 3 * n / 5)); [|lia].
  vm_compute. reflexivity.
Qed.

Lemma getJawMask_get (m : MaskImage) (y x : Z) :
  get (FaceParser.getJawMask m) y x =
  (λ l, Z.land (if (1 <=? l) && (l <=? 1) then 255 else 0)
          (if static_cast_int
                (F64.mul (F64.of_Z (Z.of_nat (rows m))) (F64.lit 6 10)) <=? y
           then 255 else 0))
    <$> get m y x.
Proof.
  unfold FaceParser.getJawMask, bitwise_and.
  rewrite get_zip_pixels, get_tabulate. unfold inRange.
  rewrite get_map_pixels. by destruct (get m y x).
Qed.

Lemma getJawMask_represents (m : MaskImage) :
  (rows m ≤ 4096)%nat → represents m (FaceParser.getJawMask m) (jaw m).
Proof.
  intros Hrows y x. rewrite getJawMask_get, jaw_start_row by lia.
  destruct (get m y x) as [l|] eqn:Hl; [|done]. cbn.
  unfold jaw. rewrite (selected_here m [1] y x l Hl), list_elem_of_singleton.
  destruct (Z.leb_spec 1 l), (Z.leb_spec l 1),
           (Z.leb_spec (3 * Z.of_nat (rows m) / 5) y); cbn;
    first [ left; split; [split; lia | done]
          | right; split; [lia | done] ].
Qed.

(** A pixel set to 255 by a region operation carries one of the labels
    the operation reads. *)
Lemma getRegionMask_sound (m : MaskImage) (ids : list Z) (y x : Z) :
  get (FaceParser.getRegionMask m ids) y x = Some 255 → selected m ids y x.
Proof.
  unfold FaceParser.getRegionMask. destruct (empty m).
  { unfold get, Mat_default. destruct (_ && _); cbn; [|done].
    by rewrite lookup_nil. }
  assert (∀ acc done_ids,
            (∀ y x, get acc y x = Some 255 → selected m done_ids y x) →
            get (foldl (λ region_mask region_idx,
                          bitwise_or region_mask
                            (inRange m region_idx region_idx)) acc ids) y x
              = Some 255 →
            selected m (done_ids ++ ids) y x) as Hfold.
  { induction ids as [|id ids IH]; intros acc done_ids Hacc; cbn.
    - rewrite app_nil_r. apply Hacc.
    - replace (done_ids ++ id :: ids) with ((done_ids ++ [id]) ++ ids)
        by (by rewrite <- app_assoc).
      apply IH. intros y' x'. unfold bitwise_or, inRange.
      rewrite get_zip_pixels, get_map_pixels.
      destruct (get acc y' x') as [u|] eqn:Hu; [|discriminate].
      destruct (get m y' x') as [l|] eqn:Hl; [|discriminate]. cbn.
      intros [= Hv]. apply selected_app.
      destruct (Z.leb_spec id l), (Z.leb_spec l id); cbn in Hv;
        try (left; apply Hacc; rewrite Hu; f_equal;
             by rewrite Z.lor_0_r in Hv).
      right. apply selected_singleton. rewrite Hl. f_equal. lia. }
  apply (Hfold (zeros (size m)) []).
  intros y' x'. unfold size. rewrite get_zeros. by destruct (_ && _).
Qed.

Lemma skin_and_sound (m other : MaskImage) (y x : Z) :
  binary other →
  get (bitwise_and (inRange m 1 1) other) y x = Some 255 → selected m [1] y x.
Proof.
  intros Hbin. unfold bitwise_and, inRange.
  rewrite get_zip_pixels, get_map_pixels.
  destruct (get m y x) as [l|] eqn:Hl; [|discriminate]. cbn.
  destruct (get other y x) as [v|]; [|discriminate]. intros [= Hv].
  apply selected_singleton. rewrite Hl. f_equal.
  destruct (Z.leb_spec 1 l), (Z.leb_spec l 1); cbn in Hv;
    try (rewrite Z.land_0_l in Hv; discriminate). lia.
Qed.

Lemma regionMask_sound (r : FaceParser.Region) (m : MaskImage) (y x : Z) :
  get (FaceParser.regionMask r m) y x = Some 255 →
  selected m (region_labels r) y x.
Proof.
  destruct r; cbn [FaceParser.regionMask region_labels];
    try apply getRegionMask_sound.
  - apply skin_and_sound, dilate_binary, inRange_binary.
  - apply skin_and_sound, bitwise_not_binary, dilate_binary, bitwise_or_binary;
      apply inRange_binary.
  - apply skin_and_sound, tabulate_binary. intros y' _.
    destruct (_ <=? y'); auto.
Qed.

Lemma regionMask_binary (r : FaceParser.Region) (m : MaskImage) :
  binary (FaceParser.regionMask r m).
Proof.
  destruct r; cbn [FaceParser.regionMask]; try apply getRegionMask_binary.
  - apply bitwise_and_binary; [apply inRange_binary|].
    apply dilate_binary, inRange_binary.
  - apply bitwise_and_binary; [apply inRange_binary|].
    apply bitwise_not_binary, dilate_binary, bitwise_or_binary;
      apply inRange_binary.
  - apply bitwise_and_binary; [apply inRange_binary|].
    apply tabulate_binary. intros y _. destruct (_ <=? y); auto.
Qed.

(** A mask without a pixel at 255 is all zero. *)
Lemma binary_all_zero (mask : MaskImage) :
  binary mask → (∀ y x, get mask y x ≠ Some 255) → all_zero mask.
Proof.
  rewrite binary_get. intros Hbin Hnone. apply Forall_pixels_get.
  intros y x v Hv. destruct (Hbin _ _ _ Hv) as [->| ->]; [done|].
  by destruct (Hnone y x).
Qed.

End DerivedMasks.

(** X4. [getCheeksMask] returns the binary image of the skin pixels
    (label 1) that have no nose or mouth label (2, 10, 11, 12) within the
    20 x 20 rectangle anchored at (10, 10): from 10 rows and columns before
    the pixel to 9 after it. *)
Theorem getCheeksMask_is_skin_off_centre (m : MaskImage) :
  RegionSpec.represents m (FaceParser.getCheeksMask m) (MaskSpec.cheeks m).
Proof. apply getCheeksMask_represents. Qed.

(** X5. For a label map of up to 4096 rows, [getJawMask] returns the binary
    image of the skin pixels (label 1) in the rows from [3 * rows / 5]
    (rounded down) on: the double-precision product [rows * 0.6] truncates
    to that row for every such height. *)
Theorem getJawMask_is_lower_skin (m : MaskImage) :
  (cv.rows m ≤ 4096)%nat →
  RegionSpec.represents m (FaceParser.getJawMask m) (MaskSpec.jaw m).
Proof. apply getJawMask_represents. Qed.

Lemma getJawMask_is_lower_skin_witness :
  RegionSpec.represents [[1]; [1]; [1]; [1]; [0]]
    (FaceParser.getJawMask [[1]; [1]; [1]; [1]; [0]])
    (MaskSpec.jaw [[1]; [1]; [1]; [1]; [0]]).
Proof. apply getJawMask_is_lower_skin. cbn. lia. Defined.

(** X6. Two region operations that read different labels never select a
    common pixel; only forehead, cheeks and jaw, which all read skin, can
    overlap. *)
Theorem region_masks_disjoint (r1 r2 : FaceParser.Region) (m : MaskImage) :
  MaskSpec.region_labels r1 ≠ MaskSpec.region_labels r2 →
  MaskSpec.disjoint (FaceParser.regionMask r1 m) (FaceParser.regionMask r2 m).
Proof.
  intros Hlabels. unfold MaskSpec.disjoint.
  apply binary_all_zero.
  { apply bitwise_and_binary; apply regionMask_binary. }
  intros y x. unfold cv.bitwise_and. rewrite get_zip_pixels.
  destruct (cv.get (FaceParser.regionMask r1 m) y x) as [u|] eqn:Hu; [|done].
  destruct (cv.get (FaceParser.regionMask r2 m) y x) as [w|] eqn:Hw; [|done].
  intros [= Hv].
  pose proof (regionMask_binary r1 m) as Hb1.
  pose proof (regionMask_binary r2 m) as Hb2.
  rewrite binary_get in Hb1, Hb2.
  destruct (Hb1 _ _ _ Hu) as [->| ->]; [done|].
  destruct (Hb2 _ _ _ Hw) as [->| ->]; [done|].
  apply regionMask_sound in Hu as (l1 & Hl1 & Hin1).
  apply regionMask_sound in Hw as (l2 & Hl2 & Hin2).
  assert (l2 = l1) as -> by congruence.
  apply list_elem_of_In in Hin1, Hin2.
  destruct r1, r2; cbn in Hlabels, Hin1, Hin2;
    try (by destruct Hlabels); lia.
Qed.

Lemma region_masks_disjoint_witness :
  MaskSpec.disjoint
    (FaceParser.regionMask FaceParser.Forehead [[1; 6; 1]; [4; 1; 13]])
    (FaceParser.regionMask FaceParser.Eyebrows [[1; 6; 1]; [4; 1; 13]]).
Proof. apply region_masks_disjoint. discriminate. Defined.

(** X7. When the parser cannot run (model not loaded, empty crop, or an
    exception in the network pipeline) [parseFace] returns the all-zero
    label map of the size of the crop, and every region mask derived from
    it is all zero. *)
Theorem parseFace_soft_fails (impl : Parser.Impl) (face_crop : ImageData) :
  Parser.model_loaded_ impl = false ∨
  cv.empty face_crop = true ∨
  (∃ e, Parser.run_network impl face_crop = Throw e) →
  Parser.parseFace impl face_crop = cv.zeros (cv.size face_crop) ∧
  ∀ r, RegionSpec.all_zero
         (FaceParser.regionMask r (Parser.parseFace impl face_crop)).
Proof.
  intros Hfail.
  assert (Parser.parseFace impl face_crop = cv.zeros (cv.size face_crop)) as ->.
  { unfold Parser.parseFace.
    destruct Hfail as [->|[->|[e ->]]]; [done|by rewrite orb_true_r|].
    by destruct (_ || _). }
  split; [done|]. intros r.
  apply binary_all_zero; [apply regionMask_binary|].
  intros y x Hv. apply regionMask_sound in Hv as (l & Hl & Hin).
  unfold cv.size in Hl. rewrite get_zeros in Hl.
  destruct (_ && _); [|done]. injection Hl as <-.
  apply list_elem_of_In in Hin. destruct r; cbn in Hin; lia.
Qed.

Lemma parseFace_soft_fails_witness :
  let impl := {| Parser.model_loaded_ := false;
                 Parser.input_width_ := 512; Parser.input_height_ := 512;
                 Parser.run_network := λ _, Ok [[13; 13]] |} in
  Parser.parseFace impl [[(1, 2, 3); (4, 5, 6)]] = [[0; 0]] ∧
  ∀ r, RegionSpec.all_zero
         (FaceParser.regionMask r (Parser.parseFace impl [[(1, 2, 3); (4, 5, 6)]])).
Proof.
  apply (parseFace_soft_fails
           {| Parser.model_loaded_ := false;
              Parser.input_width_ := 512; Parser.input_height_ := 512;
              Parser.run_network := λ _, Ok [[13; 13]] |}
           [[(1, 2, 3); (4, 5, 6)]]).
  left. reflexivity.
Defined.

(* ===================================================================== *)
(** ** More on the generator                                             *)
(* ===================================================================== *)

Section GeneratorFacts.
Import cv BlendSpec.

Lemma size_zip_pixels {A B C} (f : A → B → C)
    (a : list (list A)) (b : list (list B)) :
  size a = size b → size (zip_pixels f a b) = size a.
Proof.
  unfold size, rows, cols, zip_pixels.
  destruct a as [|ra a], b as [|rb b]; try done. cbn.
  intros [= Hrows Hcols]. rewrite !length_zip_with. f_equal; lia.
Qed.

Lemma size_mapi_pixels {A B} (f : Z → Z → A → B) (m : list (list A)) :
  size (mapi_pixels f m) = size m.
Proof.
  unfold size, rows, cols, mapi_pixels. rewrite length_imap.
  destruct m as [|r m]; [done|]. cbn. by rewrite length_imap.
Qed.

Lemma size_blendRegion (original aged : ImageData) (mask : MaskImage)
    (s : spec_float) :
  size (FeedforwardGenerator.blendRegion original aged mask s) = size aged.
Proof.
  unfold FeedforwardGenerator.blendRegion.
  destruct (empty mask); [done|]. apply size_mapi_pixels.
Qed.

Lemma size_applyRegionalBlending (original aged : ImageData)
    (parsing_mask : MaskImage) (c : AgeControls) :
  size (FeedforwardGenerator.applyRegionalBlending original aged parsing_mask c)
  = size aged.
Proof.
  unfold FeedforwardGenerator.applyRegionalBlending.
  rewrite !size_blendRegion. destruct (enable_hair_aging c);
    apply size_blendRegion.
Qed.

Lemma empty_inRange (m : MaskImage) (lo hi : Z) :
  empty (inRange m lo hi) = empty m.
Proof. apply shape_empty. unfold inRange. apply shape_map_pixels. Qed.

Lemma batch_from_spec (impl : FeedforwardGenerator.Impl) (c0 : AgeControls)
    (controls : list AgeControls) (parsing_masks : list MaskImage)
    (face_crops : list ImageData) :
  controls !! 0%nat = Some c0 →
  ∀ i, ∃ results,
    GeneratorState.batch_from impl i face_crops controls parsing_masks
      = Some results ∧
    length results = length face_crops ∧
    ∀ k crop, face_crops !! k = Some crop →
      results !! k =
      Some (FeedforwardGenerator.generateAgedFace impl crop
              (default c0 (controls !! (i + k)%nat))
              (default Mat_default (parsing_masks !! (i + k)%nat))).
Proof.
  intros Hc0. induction face_crops as [|crop rest IH]; intros i.
  - exists []. cbn. repeat split. intros k crop Hk. by rewrite lookup_nil in Hk.
  - destruct (IH (S i)) as (results & Hrest & Hlen & Hnth).
    cbn [GeneratorState.batch_from]. rewrite Hrest, Hc0.
    assert (match controls !! i with
            | Some c => Some c
            | None => Some c0
            end = Some (default c0 (controls !! i))) as ->
      by (by destruct (controls !! i)).
    cbn. eexists. split; [reflexivity|]. split; [cbn; lia|].
    intros [|k] crop' Hk; cbn in Hk.
    + injection Hk as <-. cbn. rewrite Nat.add_0_r.
      by destruct (parsing_masks !! i).
    + replace (i + S k)%nat with (S i + k)%nat by lia.
      exact (Hnth k crop' Hk).
Qed.

End GeneratorFacts.

Section RegionalBlend.
Import cv BlendSpec.

(** One pixel of the regional blend, by its label. *)
Lemma get_applyRegionalBlending
    (original aged : ImageData) (parsing_mask : MaskImage) (c : AgeControls)
    (y x l : Z) (o a : Vec3b) :
  empty parsing_mask = false →
  get parsing_mask y x = Some l →
  get original y x = Some o →
  get aged y x = Some a →
  get (FeedforwardGenerator.applyRegionalBlending original aged parsing_mask c)
      y x
  = Some (match GeneratorState.region_strength c l with
          | Some s => zip_channels (FeedforwardGenerator.blend_channel s) o a
          | None => a
          end).
Proof.
  intros Hne Hl Ho Ha. unfold FeedforwardGenerator.applyRegionalBlending.
  set (hair := if enable_hair_aging c then _ else _).
  set (s1 := if enable_hair_aging c then F32.lit 8 10 else F32.lit 1 10).
  assert (get hair y x =
          Some (if (1 <=? l) && (l <=? 1)
                then zip_channels (FeedforwardGenerator.blend_channel s1) o a
                else a)) as Hhair.
  { subst hair s1. destruct (enable_hair_aging c);
      rewrite (get_blendRegion_inRange _ _ _ _ _ _ _ _ l o a Hl Ho Ha);
      by rewrite empty_inRange, Hne. }
  rewrite (get_blendRegion_inRange _ _ _ _ _ _ _ _ l o _ Hl Ho
             (get_blendRegion_inRange _ _ _ _ _ _ _ _ l o _ Hl Ho Hhair)).
  rewrite !empty_inRange, Hne. f_equal.
  unfold GeneratorState.region_strength. fold s1.
  destruct (Z.eqb_spec l 1), (Z.leb_spec 1 l), (Z.leb_spec l 1),
           (Z.leb_spec 3 l), (Z.leb_spec l 4),
           (Z.leb_spec 5 l), (Z.leb_spec l 6);
    cbn [andb]; try lia; reflexivity.
Qed.

(** The default blend of [generate_body], pixel by pixel. *)
Lemma addWeighted_convex (original transformed : ImageData) (lock : spec_float) :
  size original = size transformed →
  ∃ blended,
    addWeighted original lock transformed (F32.sub F32.one lock) F32.zero
      = Ok blended ∧
    ∀ y x o t, get original y x = Some o → get transformed y x = Some t →
               get blended y x = Some (convex lock o t).
Proof.
  intros Hsize. unfold addWeighted.
  destruct (decide _) as [_|]; [|done]. eexists. split; [done|].
  intros y x [[o1 o2] o3] [[t1 t2] t3] Ho Ht.
  rewrite get_zip_pixels, Ho, Ht. unfold convex, zip_channels.
  cbn. by rewrite !weighted_sum_convex.
Qed.

(** [generateAgedFace] when the network returns a crop of the size of the
    original: the default blend, then the regional blend under a mask. *)
Lemma generateAgedFace_blends (impl : FeedforwardGenerator.Impl)
    (original transformed : ImageData) (c : AgeControls)
    (parsing_mask : MaskImage) (blended : ImageData) :
  FeedforwardGenerator.model_loaded_ impl = true →
  empty original = false →
  FeedforwardGenerator.run_network impl original
    (SFdiv F32.prec F32.emax (target_age c) (F32.of_Z 100)) = Ok transformed →
  addWeighted original (identity_lock_strength c) transformed
    (F32.sub F32.one (identity_lock_strength c)) F32.zero = Ok blended →
  FeedforwardGenerator.generateAgedFace impl original c parsing_mask
  = if empty parsing_mask then blended
    else FeedforwardGenerator.applyRegionalBlending original blended
           parsing_mask c.
Proof.
  intros Hloaded Hne Hrun Hadd.
  unfold FeedforwardGenerator.generateAgedFace,
    FeedforwardGenerator.generate_body.
  rewrite Hloaded, Hne, Hrun, Hadd. cbn. by destruct (empty parsing_mask).
Qed.

End RegionalBlend.

(** C6. On [generateAgedFace], for a transformed crop of the size of the
    original.  Where no region override applies (no parsing mask, or a
    label the regional blend does not read) each pixel is the convex
    combination [original*lock + transformed*(1 - lock)].  At lock strength
    1.0 the result is the original crop: exactly without a parsing mask and
    wherever no override applies, and within the rounding of one region
    blend (a channel is the original value or one below) under the
    overrides the generator hard-codes.  A region override of strength 0
    writes the original value inside its mask, and after any sequence of
    such overrides the crop is still the original, exactly. *)
Theorem identity_lock_one_reproduces_original
    (impl : FeedforwardGenerator.Impl) (original transformed : ImageData)
    (c : AgeControls) (parsing_mask : MaskImage) :
  BlendSpec.valid_image original →
  BlendSpec.valid_image transformed →
  cv.size original = cv.size transformed →
  FeedforwardGenerator.model_loaded_ impl = true →
  cv.empty original = false →
  FeedforwardGenerator.run_network impl original
    (SFdiv F32.prec F32.emax (target_age c) (F32.of_Z 100)) = Ok transformed →
  MaskSpec.fits parsing_mask original →
  let result :=
    FeedforwardGenerator.generateAgedFace impl original c parsing_mask in
  (∀ y x o t,
     cv.get original y x = Some o → cv.get transformed y x = Some t →
     cv.empty parsing_mask = true ∨
     (∃ l, cv.get parsing_mask y x = Some l ∧
           GeneratorState.region_strength c l = None) →
     cv.get result y x
       = Some (BlendSpec.convex (identity_lock_strength c) o t)) ∧
  (identity_lock_strength c = F32.one →
   (cv.empty parsing_mask = true → result = original) ∧
   (∀ y x o l,
      cv.get original y x = Some o → cv.get parsing_mask y x = Some l →
      GeneratorState.region_strength c l = None →
      cv.get result y x = Some o) ∧
   (∀ y x o, cv.get original y x = Some o →
      ∃ p, cv.get result y x = Some p ∧ BlendSpec.within_rounding o p)) ∧
  (∀ aged mask y x o a,
     cv.get original y x = Some o → cv.get aged y x = Some a →
     BlendSpec.valid_pixel a →
     cv.empty mask = false → cv.get mask y x = Some 255 →
     cv.get (FeedforwardGenerator.blendRegion original aged mask F32.zero) y x
       = Some o) ∧
  (∀ masks : list MaskImage,
     Forall (λ mask, MaskSpec.fits mask original) masks →
     foldl (λ aged mask,
              FeedforwardGenerator.blendRegion original aged mask F32.zero)
           original masks = original).
Proof.
  intros Hvalid Hvalid' Hsize Hloaded Hne Hrun Hfits result.
  destruct (addWeighted_convex original transformed (identity_lock_strength c)
              Hsize) as (blended & Hadd & Hblended).
  assert (result = if cv.empty parsing_mask then blended
                   else FeedforwardGenerator.applyRegionalBlending original
                          blended parsing_mask c) as Hresult
    by (by apply (generateAgedFace_blends impl original transformed)).
  clearbody result. subst result.
  assert (∀ y x o a l,
            cv.get original y x = Some o → cv.get blended y x = Some a →
            cv.get parsing_mask y x = Some l →
            GeneratorState.region_strength c l = None →
            cv.get (if cv.empty parsing_mask then blended
                    else FeedforwardGenerator.applyRegionalBlending original
                           blended parsing_mask c) y x = Some a) as Hkeep.
  { intros y x o a l Ho Ha Hl Hnone.
    destruct (cv.empty parsing_mask) eqn:Hempty; [done|].
    by rewrite (get_applyRegionalBlending _ _ _ _ _ _ l o a Hempty Hl Ho Ha),
      Hnone. }
  split; [|split; [|split]].
  - intros y x o t Ho Ht [Hempty|(l & Hl & Hnone)].
    + rewrite Hempty. by apply Hblended.
    + apply (Hkeep y x o _ l Ho (Hblended y x o t Ho Ht) Hl Hnone).
  - intros Hlock. rewrite Hlock in Hadd.
    rewrite (addWeighted_lock_one original transformed Hvalid Hvalid' Hsize)
      in Hadd.
    injection Hadd as <-. split; [|split].
    + by intros ->.
    + intros y x o l Ho Hl Hnone. by apply (Hkeep y x o o l).
    + intros y x o Ho. destruct (cv.empty parsing_mask).
      * exists o. split; [done|]. unfold BlendSpec.within_rounding. lia.
      * by apply lock_one_fixed_strengths_within_rounding.
  - intros aged mask y x o a Ho Ha Hvalid_a Hmask Hin.
    rewrite get_blendRegion, Ha, Hmask, Hin, Ho. cbn.
    rewrite mask_255_inside. f_equal.
    apply blend_pixel_zero; [exact (valid_image_get original y x o Hvalid Ho) | done].
  - intros masks _. induction masks as [|mask masks IH]; cbn; [done|].
    by rewrite blendRegion_zero_original.
Qed.

Lemma identity_lock_one_reproduces_original_witness :
  let impl :=
    {| FeedforwardGenerator.model_loaded_ := true;
       FeedforwardGenerator.input_width_ := 2;
       FeedforwardGenerator.input_height_ := 1;
       FeedforwardGenerator.run_network :=
         λ _ _, Ok [[(200, 210, 220); (0, 255, 7)]] |} in
  let original := [[(10, 20, 30); (40, 50, 60)]] in
  let c := Offline.age_controls false F32.one in
  FeedforwardGenerator.generateAgedFace impl original c [] = original ∧
  cv.get (FeedforwardGenerator.generateAgedFace impl original c [[1; 13]]) 0 1
    = Some (40, 50, 60) ∧
  ∃ p, cv.get (FeedforwardGenerator.generateAgedFace impl original c [[1; 13]])
         0 0 = Some p ∧
       BlendSpec.within_rounding (10, 20, 30) p.
Proof.
  intros impl original c.
  assert (BlendSpec.valid_image original) as H1.
  { split; repeat constructor; cbn; lia. }
  assert (BlendSpec.valid_image [[(200, 210, 220); (0, 255, 7)]]) as H2.
  { split; repeat constructor; cbn; lia. }
  destruct (identity_lock_one_reproduces_original impl original
              [[(200, 210, 220); (0, 255, 7)]] c [] H1 H2 eq_refl eq_refl
              eq_refl eq_refl (or_introl eq_refl))
    as (_ & Hone & _).
  destruct (identity_lock_one_reproduces_original impl original
              [[(200, 210, 220); (0, 255, 7)]] c [[1; 13]] H1 H2 eq_refl
              eq_refl eq_refl eq_refl (or_intror eq_refl))
    as (_ & Hmask & _).
  split; [by apply Hone|].
  destruct (Hmask eq_refl) as (_ & Hexact & Hround).
  split; [by apply (Hexact 0 1 (40, 50, 60) 13) | by apply Hround].
Defined.

(** X8. [generateAgedFace] returns an image of the size of the crop it was
    given, on every path: soft failure, plain identity blend, and regional
    blend, the parsing mask being empty or of the shape of the crop. *)
Theorem generateAgedFace_keeps_size
    (impl : FeedforwardGenerator.Impl) (face_crop : ImageData)
    (c : AgeControls) (parsing_mask : MaskImage) :
  MaskSpec.fits parsing_mask face_crop →
  cv.size (FeedforwardGenerator.generateAgedFace impl face_crop c parsing_mask)
  = cv.size face_crop.
Proof.
  intros _.
  unfold FeedforwardGenerator.generateAgedFace,
    FeedforwardGenerator.generate_body.
  destruct (negb _ || _); [done|].
  destruct (FeedforwardGenerator.run_network _ _ _) as [result|e]; [|done].
  unfold cv.addWeighted. destruct (decide _) as [Hsize|_]; [|done].
  destruct (negb (cv.empty parsing_mask));
    rewrite ?size_applyRegionalBlending; by apply size_zip_pixels.
Qed.

Lemma generateAgedFace_keeps_size_witness :
  cv.size (FeedforwardGenerator.generateAgedFace
             {| FeedforwardGenerator.model_loaded_ := true;
                FeedforwardGenerator.input_width_ := 2;
                FeedforwardGenerator.input_height_ := 1;
                FeedforwardGenerator.run_network :=
                  λ _ _, Ok [[(200, 210, 220); (0, 255, 7)]] |}
             [[(10, 20, 30); (40, 50, 60)]]
             (Offline.age_controls false (F32.lit 5 10)) [[1; 13]])
  = (1%nat, 2%nat).
Proof.
  apply (generateAgedFace_keeps_size
           {| FeedforwardGenerator.model_loaded_ := true;
              FeedforwardGenerator.input_width_ := 2;
              FeedforwardGenerator.input_height_ := 1;
              FeedforwardGenerator.run_network :=
                λ _ _, Ok [[(200, 210, 220); (0, 255, 7)]] |}
           [[(10, 20, 30); (40, 50, 60)]]
           (Offline.age_controls false (F32.lit 5 10)) [[1; 13]]).
  right. reflexivity.
Defined.

(** X9. The regional blend, pixel by pixel: a pixel labelled 1 is blended
    at strength 0.8 (0.1 when hair aging is disabled), a pixel labelled 3
    or 4 at 0.3, a pixel labelled 5 or 6 at 0.4; a pixel of any other
    label, 2 and 13 included, keeps the value it came in with. *)
Theorem applyRegionalBlending_by_label
    (original aged : ImageData) (parsing_mask : MaskImage) (c : AgeControls)
    (y x l : Z) (o a : cv.Vec3b) :
  cv.empty parsing_mask = false →
  cv.get parsing_mask y x = Some l →
  cv.get original y x = Some o →
  cv.get aged y x = Some a →
  cv.get (FeedforwardGenerator.applyRegionalBlending original aged parsing_mask c)
         y x
  = Some (match GeneratorState.region_strength c l with
          | Some s => cv.zip_channels (FeedforwardGenerator.blend_channel s) o a
          | None => a
          end).
Proof. apply get_applyRegionalBlending. Qed.

Lemma applyRegionalBlending_by_label_witness :
  cv.get (FeedforwardGenerator.applyRegionalBlending
            [[(10, 20, 30); (10, 20, 30)]] [[(200, 210, 220); (200, 210, 220)]]
            [[2; 4]] (Offline.age_controls true F32.zero)) 0 1
  = Some (67, 77, 87).
Proof.
  apply (applyRegionalBlending_by_label
           [[(10, 20, 30); (10, 20, 30)]] [[(200, 210, 220); (200, 210, 220)]]
           [[2; 4]] (Offline.age_controls true F32.zero) 0 1 4
           (10, 20, 30) (200, 210, 220)); reflexivity.
Defined.

(** X10. [generateAgedFacesBatch] returns one image per crop, in order:
    the crop at index i is generated with the controls at index i, or the
    first controls when there are fewer, and with the mask at index i, or
    no mask; with crops but no controls at all the read of [controls[0]]
    is out of range. *)
Theorem generateAgedFacesBatch_per_crop
    (impl : FeedforwardGenerator.Impl) (face_crops : list ImageData)
    (controls : list AgeControls) (parsing_masks : list MaskImage) :
  match controls with
  | [] =>
      face_crops ≠ [] →
      GeneratorState.generateAgedFacesBatch impl face_crops [] parsing_masks
        = None
  | c0 :: _ =>
      ∃ results,
        GeneratorState.generateAgedFacesBatch impl face_crops controls
          parsing_masks = Some results ∧
        length results = length face_crops ∧
        ∀ k crop, face_crops !! k = Some crop →
          results !! k =
          Some (FeedforwardGenerator.generateAgedFace impl crop
                  (default c0 (controls !! k))
                  (default cv.Mat_default (parsing_masks !! k)))
  end.
Proof.
  destruct controls as [|c0 controls].
  - destruct face_crops; [done|]. intros _. reflexivity.
  - apply (batch_from_spec impl c0 (c0 :: controls) parsing_masks face_crops
             eq_refl 0%nat).
Qed.

Lemma generateAgedFacesBatch_per_crop_witness :
  GeneratorState.generateAgedFacesBatch Offline.generator
    [[[(1, 2, 3)]]] [] [] = None.
Proof.
  apply (generateAgedFacesBatch_per_crop Offline.generator [[[(1, 2, 3)]]] [] []).
  discriminate.
Defined.

(* ===================================================================== *)
(** ** Clamped settings and estimates                                    *)
(* ===================================================================== *)

Section Clamp.

(** [std::max(lo, std::min(hi, v))] lies between [lo] and [hi] for every
    [v], not-a-number included. *)
Lemma clamp_between (lo hi v : spec_float) :
  SFleb lo lo = true → SFleb hi hi = true → SFleb lo hi = true →
  SFleb lo (Std.max lo (Std.min hi v)) = true ∧
  SFleb (Std.max lo (Std.min hi v)) hi = true.
Proof.
  intros Hlo Hhi Hlohi. unfold Std.max, Std.min.
  destruct (SFltb v hi) eqn:Hv.
  - destruct (SFltb lo v) eqn:Hlv; [|done].
    unfold SFltb, SFleb in *.
    destruct (SFcompare lo v) as [[]|]; try done.
    by destruct (SFcompare v hi) as [[]|].
  - destruct (SFltb lo hi) eqn:Hlh; done.
Qed.

Lemma clamp_inside (lo hi v : spec_float) :
  SFltb lo v = true → SFltb v hi = true →
  Std.max lo (Std.min hi v) = v.
Proof. intros Hlo Hhi. unfold Std.max, Std.min. by rewrite Hhi, Hlo. Qed.

End Clamp.

(** X11. The identity strength kept by [setIdentityPreservationStrength] is
    always between 0 and 1, whatever is passed in; a value strictly inside
    is kept as it is, and not-a-number is stored as 1. *)
Theorem setIdentityPreservationStrength_clamps
    (st : GeneratorState.State) (strength : spec_float) :
  let kept := GeneratorState.identity_strength_
                (GeneratorState.setIdentityPreservationStrength st strength) in
  SFleb F32.zero kept = true ∧ SFleb kept F32.one = true ∧
  (SFltb F32.zero strength = true → SFltb strength F32.one = true →
   kept = strength) ∧
  (strength = S754_nan → kept = F32.one).
Proof.
  cbn. split; [|split; [|split]].
  - by apply clamp_between.
  - by apply clamp_between.
  - apply clamp_inside.
  - by intros ->.
Qed.

(** X12. [estimateAge] always returns an age between 0 and 100, whatever
    the network predicts (not-a-number gives 100); it returns 0 when the
    model is not loaded, the crop is empty or the pipeline throws. *)
Theorem estimateAge_in_range (impl : AgeEstimator.Impl) (face_crop : ImageData) :
  let age := AgeEstimator.estimateAge impl face_crop in
  SFleb F32.zero age = true ∧ SFleb age (F32.of_Z 100) = true ∧
  (AgeEstimator.model_loaded_ impl = false ∨ cv.empty face_crop = true ∨
   (∃ e, AgeEstimator.run_network impl face_crop = Throw e) → age = F32.zero) ∧
  (AgeEstimator.model_loaded_ impl = true → cv.empty face_crop = false →
   AgeEstimator.run_network impl face_crop = Ok S754_nan → age = F32.of_Z 100).
Proof.
  cbn. unfold AgeEstimator.estimateAge. repeat split.
  - destruct (negb _ || _); [done|].
    destruct (AgeEstimator.run_network _ _); [|done]. by apply clamp_between.
  - destruct (negb _ || _); [done|].
    destruct (AgeEstimator.run_network _ _); [|done]. by apply clamp_between.
  - intros [->|[->|[e ->]]]; [done|by rewrite orb_true_r|].
    by destruct (negb _ || _).
  - by intros -> -> ->.
Qed.

(* ===================================================================== *)
(** ** Set-up of the engine                                              *)
(* ===================================================================== *)

(** X13. [initialize] returns true exactly when the GPU memory manager
    initialises and the components are constructed, and then no callback
    is called.  With no callback installed, or one that returns, it never
    throws, and on failure the callback, if there is one, has been called
    exactly once.  A failed call leaves an initialized engine initialized.
    An installed callback that throws on the GPU failure is called a second
    time from the catch handler, and what the callback throws from the
    handler leaves [initialize]: this is the only exception it throws. *)
Theorem initialize_outcome (env : EngineSetup.Collaborators)
    (st : EngineSetup.State) (config : ModelConfig)
    (log : list EngineSetup.Event) :
  ∃ new,
    (EngineSetup.initialize env st config log).2 = log ++ new ∧
    (length (List.filter EngineSetup.is_callback new) ≤ 2)%nat ∧
    match (EngineSetup.initialize env st config log).1 with
    | Ok (ok, st') =>
        (ok = true ↔ Clients.components_ready env (backend config)) ∧
        EngineSetup.initialized_ st' = EngineSetup.initialized_ st || ok ∧
        EngineSetup.config_ st' = Some config ∧
        EngineSetup.error_callback_ st' = EngineSetup.error_callback_ st ∧
        (ok = true → List.filter EngineSetup.is_callback new = []) ∧
        (ok = false →
         (EngineSetup.installed st
            ≤ length (List.filter EngineSetup.is_callback new))%nat) ∧
        (EngineSetup.callback_returns st →
         length (List.filter EngineSetup.is_callback new)
         = if ok then 0%nat else EngineSetup.installed st)
    | Throw what =>
        ¬ Clients.components_ready env (backend config) ∧
        ¬ EngineSetup.callback_returns st ∧
        ∃ callback e,
          EngineSetup.error_callback_ st = Some callback ∧
          callback ("Engine initialization failed: " +:+ e) = Throw what ∧
          last new
          = Some (EngineSetup.Callback ("Engine initialization failed: " +:+ e))
    end.
Proof.
  unfold EngineSetup.initialize, EngineSetup.try_catch, EngineSetup.bind,
    EngineSetup.call, EngineSetup.error_callback, EngineSetup.lift,
    EngineSetup.ret, Clients.components_ready, EngineSetup.installed,
    EngineSetup.callback_returns.
  destruct (EngineSetup.gpu_initialize env (backend config)) as [[]|e];
    destruct (EngineSetup.make_components env) as [[]|e'];
    destruct (EngineSetup.error_callback_ st) as [callback|] eqn:Hcb; cbn;
    repeat (match goal with
            | |- context [callback ?m] =>
                destruct (callback m) as [[]|?] eqn:?; cbn
            end);
    rewrite <- ?app_assoc; cbn;
    eexists; (split; [reflexivity|]); cbn;
    rewrite ?orb_true_r, ?orb_false_r;
    (split; [lia|]);
    repeat split; try done; try lia;
    try (by intros [? ?]);
    try (intros Hret;
         repeat match goal with
                | H : callback ?m = Throw _ |- _ =>
                    rewrite (Hret callback m eq_refl) in H; discriminate H
                end; done);
    try (by do 2 eexists; repeat split; eauto).
Qed.

(** A callback that throws on the GPU failure is called again from the
    catch handler, and its second exception leaves [initialize]. *)
Example initialize_throwing_callback :
  EngineSetup.initialize
    {| EngineSetup.gpu_initialize := λ _, Ok false;
       EngineSetup.make_components := Ok tt;
       EngineSetup.loadModel := λ _ _, Ok true |}
    {| EngineSetup.initialized_ := false;
       EngineSetup.config_ := None;
       EngineSetup.error_callback_ := Some (λ message, Throw message) |}
    {| model_path := "models"; backend := CUDA; batch_size := 1;
       use_half_precision := true; max_resolution := 1024 |} []
  = (Throw "Engine initialization failed: Failed to initialize GPU memory manager",
     [EngineSetup.GpuInitialize CUDA;
      EngineSetup.Callback "Failed to initialize GPU memory manager";
      EngineSetup.Callback
        "Engine initialization failed: Failed to initialize GPU memory manager"]).
Proof. reflexivity. Qed.

Section LoadModels.
Import EngineSetup.

Variable env : Collaborators.
Variable st : State.
Variable model_dir : string.

Lemma attempted_prefix (files : list Event) :
  attempted env files `prefix_of` files.
Proof using Type.
  induction files as [|[| |c path] files IH]; cbn; try apply prefix_nil.
  apply prefix_cons. destruct (loadModel env c path) as [[]|];
    [done|apply prefix_nil..].
Qed.

(** The outcome of [loadModels], case by case. *)
Lemma loadModels_cases (log : list Event) :
  ∃ new,
    (loadModels env st model_dir log).2 = log ++ new ∧
    List.filter is_load new
    = (if initialized_ st then attempted env (model_files model_dir) else []) ∧
    match (loadModels env st model_dir log).1 with
    | Ok true =>
        initialized_ st = true ∧ Clients.models_ready env model_dir ∧
        List.filter is_load new = model_files model_dir ∧
        List.filter is_callback new = []
    | Ok false =>
        ¬ (initialized_ st = true ∧ Clients.models_ready env model_dir) ∧
        is_Some (error_callback_ st) ∧
        (1 ≤ length (List.filter is_callback new) ≤ 2)%nat ∧
        (callback_returns st → length (List.filter is_callback new) = 1%nat)
    | Throw what =>
        ¬ (initialized_ st = true ∧ Clients.models_ready env model_dir) ∧
        match error_callback_ st with
        | None => what = "bad_function_call" ∧ List.filter is_callback new = []
        | Some callback =>
            ∃ message, callback message = Throw what ∧
                       last new = Some (Callback message)
        end
    end.
Proof using Type.
  unfold loadModels, load_required, try_catch, bind, call, error_callback,
    lift, ret, model_files, Clients.models_ready, callback_returns.
  destruct (initialized_ st) eqn:Hinit; cbn.
  2: { destruct (error_callback_ st) as [callback|] eqn:Hcb; cbn.
       - destruct (callback "Engine not initialized") as [[]|e] eqn:Hcall; cbn;
           eexists; (split; [reflexivity|]); cbn; (split; [done|]).
         + split; [by intros [? _]|]. split; [done|]. split; [lia|done].
         + split; [by intros [? _]|]. by eexists.
       - exists []. rewrite app_nil_r. cbn. split; [done|]. split; [done|].
         split; [by intros [? _]|]. done. }
  destruct (loadModel env Detector _) as [[]|e1] eqn:H1; cbn;
    [destruct (loadModel env Estimator _) as [[]|e2] eqn:H2; cbn;
     [destruct (loadModel env ParserModel _) as [[]|e3] eqn:H3; cbn;
      [destruct (loadModel env Generator _) as [[]|e4] eqn:H4; cbn;
       [destruct (loadModel env Diffusion _) as [[]|e5] eqn:H5; cbn|..]|..]|..]|..];
    destruct (error_callback_ st) as [callback|] eqn:Hcb; cbn;
    repeat (match goal with
            | |- context [callback ?m] =>
                destruct (callback m) as [[]|?] eqn:?; cbn
            end);
    rewrite <- ?app_assoc; cbn;
    eexists; (split; [reflexivity|]); cbn;
    (split; [reflexivity|]);
    repeat split; eauto; try lia;
    try (intros (_ & ? & ? & ? & ? & [? ?]); congruence);
    try (intros Hret;
         repeat match goal with
                | H : callback ?m = Throw _ |- _ =>
                    rewrite (Hret callback m eq_refl) in H; discriminate H
                end; done).
Qed.

End LoadModels.

(** X14. With an error callback installed, [loadModels] returns true
    exactly when the engine is initialized, the four required models load
    and the load of the diffusion model does not throw, and then the
    callback is not called.  With a callback that returns, it never throws,
    and on a false return the callback has been called exactly once.  A
    callback that throws is called a second time from the catch handler
    when it throws inside the [try] block, and what the callback throws
    last leaves [loadModels]: it throws nothing else. *)
Theorem loadModels_with_callback (env : EngineSetup.Collaborators)
    (st : EngineSetup.State) (model_dir : string)
    (log : list EngineSetup.Event) (callback : string → Except unit) :
  EngineSetup.error_callback_ st = Some callback →
  ∃ new,
    (EngineSetup.loadModels env st model_dir log).2 = log ++ new ∧
    ((EngineSetup.loadModels env st model_dir log).1 = Ok true ↔
     EngineSetup.initialized_ st = true ∧ Clients.models_ready env model_dir) ∧
    match (EngineSetup.loadModels env st model_dir log).1 with
    | Ok true => List.filter EngineSetup.is_callback new = []
    | Ok false =>
        (1 ≤ length (List.filter EngineSetup.is_callback new) ≤ 2)%nat ∧
        (EngineSetup.callback_returns st →
         length (List.filter EngineSetup.is_callback new) = 1%nat)
    | Throw what =>
        ¬ EngineSetup.callback_returns st ∧
        ∃ message, callback message = Throw what ∧
                   last new = Some (EngineSetup.Callback message)
    end.
Proof.
  intros Hcb.
  destruct (loadModels_cases env st model_dir log) as (new & Hlog & _ & Hcase).
  exists new. split; [done|].
  destruct ((EngineSetup.loadModels env st model_dir log).1) as [[]|what].
  - destruct Hcase as (? & ? & _ & ?). split; [|done].
    split; [by intros _ | done].
  - destruct Hcase as (Hnot & _ & ? & ?). split; [|by split].
    split; [done | intros Hall; by destruct Hnot].
  - destruct Hcase as (Hnot & Hthrow). rewrite Hcb in Hthrow.
    destruct Hthrow as (message & Hcall & Hlast).
    split; [split; [done | intros Hall; by destruct Hnot]|].
    split; [|by exists message].
    intros Hret. by rewrite (Hret callback message Hcb) in Hcall.
Qed.

Lemma loadModels_with_callback_witness :
  let env := {| EngineSetup.gpu_initialize := λ _, Ok true;
                EngineSetup.make_components := Ok tt;
                EngineSetup.loadModel := λ c _,
                  match c with
                  | EngineSetup.ParserModel => Ok false
                  | _ => Ok true
                  end |} in
  let st := {| EngineSetup.initialized_ := true;
               EngineSetup.config_ := None;
               EngineSetup.error_callback_ := Some (λ _, Ok tt) |} in
  EngineSetup.loadModels env st "models" []
    = (Ok false,
       [EngineSetup.LoadModel EngineSetup.Detector "models/face_detector.onnx";
        EngineSetup.LoadModel EngineSetup.Estimator "models/age_estimator.onnx";
        EngineSetup.LoadModel EngineSetup.ParserModel "models/face_parser.onnx";
        EngineSetup.Callback "Failed to load face parsing model"]) ∧
  ∃ new,
    (EngineSetup.loadModels env st "models" []).2 = [] ++ new ∧
    length (List.filter EngineSetup.is_callback new) = 1%nat.
Proof.
  split; [reflexivity|].
  destruct (loadModels_with_callback
              {| EngineSetup.gpu_initialize := λ _, Ok true;
                 EngineSetup.make_components := Ok tt;
                 EngineSetup.loadModel := λ c _,
                   match c with
                   | EngineSetup.ParserModel => Ok false
                   | _ => Ok true
                   end |}
              {| EngineSetup.initialized_ := true;
                 EngineSetup.config_ := None;
                 EngineSetup.error_callback_ := Some (λ _, Ok tt) |}
              "models" [] (λ _, Ok tt) eq_refl) as (new & Hrun & _ & Hcase).
  exists new. split; [exact Hrun|].
  cbn in Hcase. apply Hcase. intros callback message [= <-]. reflexivity.
Defined.

(** A callback that throws is called twice, and its second exception
    leaves [loadModels]. *)
Example loadModels_throwing_callback :
  EngineSetup.loadModels
    {| EngineSetup.gpu_initialize := λ _, Ok true;
       EngineSetup.make_components := Ok tt;
       EngineSetup.loadModel := λ c _,
         match c with
         | EngineSetup.ParserModel => Ok false
         | _ => Ok true
         end |}
    {| EngineSetup.initialized_ := true;
       EngineSetup.config_ := None;
       EngineSetup.error_callback_ := Some (λ message, Throw message) |}
    "models" []
  = (Throw "Model loading failed: Failed to load face parsing model",
     [EngineSetup.LoadModel EngineSetup.Detector "models/face_detector.onnx";
      EngineSetup.LoadModel EngineSetup.Estimator "models/age_estimator.onnx";
      EngineSetup.LoadModel EngineSetup.ParserModel "models/face_parser.onnx";
      EngineSetup.Callback "Failed to load face parsing model";
      EngineSetup.Callback
        "Model loading failed: Failed to load face parsing model"]).
Proof. reflexivity. Qed.

(** X15. Without an error callback, [loadModels] never returns false: a
    call that does not succeed throws [std::bad_function_call], on an
    engine that is not initialized as on a model that fails to load. *)
Theorem loadModels_without_callback (env : EngineSetup.Collaborators)
    (st : EngineSetup.State) (model_dir : string)
    (log : list EngineSetup.Event) :
  EngineSetup.error_callback_ st = None →
  (EngineSetup.loadModels env st model_dir log).1 = Ok true ∨
  (EngineSetup.loadModels env st model_dir log).1 = Throw "bad_function_call".
Proof.
  intros Hcb.
  destruct (loadModels_cases env st model_dir log) as (new & _ & _ & Hcase).
  destruct ((EngineSetup.loadModels env st model_dir log).1) as [[]|what].
  - by left.
  - destruct Hcase as (_ & [callback Hyes] & _). congruence.
  - destruct Hcase as (_ & Hthrow). rewrite Hcb in Hthrow.
    destruct Hthrow as [-> _]. by right.
Qed.

Lemma loadModels_without_callback_witness :
  let env := {| EngineSetup.gpu_initialize := λ _, Ok true;
                EngineSetup.make_components := Ok tt;
                EngineSetup.loadModel := λ c _,
                  match c with
                  | EngineSetup.ParserModel => Ok false
                  | _ => Ok true
                  end |} in
  let st := {| EngineSetup.initialized_ := true;
               EngineSetup.config_ := None;
               EngineSetup.error_callback_ := None |} in
  (EngineSetup.loadModels env st "models" []).1 = Throw "bad_function_call" ∧
  ((EngineSetup.loadModels env st "models" []).1 = Ok true ∨
   (EngineSetup.loadModels env st "models" []).1 = Throw "bad_function_call").
Proof.
  split; [reflexivity|].
  apply (loadModels_without_callback
           {| EngineSetup.gpu_initialize := λ _, Ok true;
              EngineSetup.make_components := Ok tt;
              EngineSetup.loadModel := λ c _,
                match c with
                | EngineSetup.ParserModel => Ok false
                | _ => Ok true
                end |}
           {| EngineSetup.initialized_ := true;
              EngineSetup.config_ := None;
              EngineSetup.error_callback_ := None |}
           "models" []).
  reflexivity.
Defined.

(** X16. [loadModels] asks for the model files in a fixed order (detector,
    age estimator, parser, generator, diffusion editor, each under the
    model directory) and stops at the first that fails: on an initialized
    engine the loads it makes are the files up to and including the first
    one whose load does not return true, and nothing after it; they are a
    prefix of the list, all of it when it returns true, and none on an
    engine that is not initialized. *)
Theorem loadModels_load_order (env : EngineSetup.Collaborators)
    (st : EngineSetup.State) (model_dir : string)
    (log : list EngineSetup.Event) :
  ∃ new,
    (EngineSetup.loadModels env st model_dir log).2 = log ++ new ∧
    List.filter EngineSetup.is_load new
    = (if EngineSetup.initialized_ st
       then EngineSetup.attempted env (EngineSetup.model_files model_dir)
       else []) ∧
    List.filter EngineSetup.is_load new
      `prefix_of` EngineSetup.model_files model_dir ∧
    ((EngineSetup.loadModels env st model_dir log).1 = Ok true →
     List.filter EngineSetup.is_load new = EngineSetup.model_files model_dir) ∧
    (∀ k c path,
       EngineSetup.initialized_ st = true →
       EngineSetup.model_files model_dir !! k
         = Some (EngineSetup.LoadModel c path) →
       EngineSetup.loadModel env c path ≠ Ok true →
       (length (List.filter EngineSetup.is_load new) ≤ S k)%nat).
Proof.
  destruct (loadModels_cases env st model_dir log) as (new & Hlog & Hloads & Hcase).
  exists new. split; [done|]. split; [done|]. split; [|split].
  - rewrite Hloads. destruct (EngineSetup.initialized_ st);
      [apply attempted_prefix | apply prefix_nil].
  - intros Hok. rewrite Hok in Hcase. tauto.
  - intros k c path Hinit Hk Hfail. rewrite Hloads, Hinit.
    clear -Hk Hfail. revert k Hk.
    induction (EngineSetup.model_files model_dir) as [|[| |c' path'] files IH];
      intros k Hk; cbn; try lia.
    destruct k as [|k]; cbn in Hk.
    + injection Hk as -> ->.
      destruct (EngineSetup.loadModel env c path) as [[]|]; [done|cbn; lia..].
    + destruct (EngineSetup.loadModel env c' path') as [[]|]; [|cbn; lia..].
      specialize (IH k Hk). cbn. lia.
Qed.

(* ===================================================================== *)
(** ** More on the per-face loop                                         *)
(* ===================================================================== *)

Section FaceLoop.
Import Engine Trace Calls.

Variable impl : Impl.
Variable context : FrameContext.

Lemma for_each_app {A S} (xs ys : list A) (body : S → A → M S) (s : S)
    (log : list Event) :
  for_each (xs ++ ys) body s log =
  match for_each xs body s log with
  | (Ok s', log') => for_each ys body s' log'
  | (Throw e, log') => (Throw e, log')
  end.
Proof using Type.
  revert s log. induction xs as [|x xs IH]; intros s log; [done|].
  cbn [for_each app]. unfold bind.
  destruct (body s x log) as [[s'|e] log']; [apply IH | done].
Qed.

(** One iteration, by outcome. *)
Lemma process_face_cases (frame : ImageData) (face : Face) (log : list Event) :
  ∃ new,
    (process_face impl context frame face log).2 = log ++ new ∧
    List.filter is_detect new = [] ∧
    match (process_face impl context frame face log).1 with
    | Ok frame' =>
        ∃ crop, made_for impl context face (crop, face) ∧
                compositor_ impl frame crop face = Ok frame' ∧
                composite_calls new = [(crop, face)]
    | Throw e =>
        face_parser_ impl (aligned_crop face) = Throw e ∨
        (∃ mask, face_parser_ impl (aligned_crop face) = Ok mask ∧
                 transformed impl context face mask = Throw e) ∨
        (∃ crop, made_for impl context face (crop, face) ∧
                 compositor_ impl frame crop face = Throw e)
    end.
Proof using Type.
  unfold process_face, bind, call, ret, made_for, transformed.
  destruct (face_parser_ impl (aligned_crop face)) as [mask|e] eqn:Hparse; cbn.
  2: { eexists. split; [reflexivity|]. split; [done|]. by left. }
  destruct (mode context) eqn:Hmode; cbn.
  - destruct (feedforward_generator_ impl _ _ _) as [crop|e] eqn:Hgen; cbn.
    + destruct (compositor_ impl frame crop face) as [frame'|e] eqn:Hcomp; cbn;
        rewrite <- ?app_assoc; eexists; (split; [reflexivity|]);
        (split; [done|]); [|right; right]; exists crop; eauto 10.
    + rewrite <- ?app_assoc. eexists. split; [reflexivity|]. split; [done|].
      right; left. eauto.
  - destruct (diffusion_editor_ impl _ _ _) as [crop|e] eqn:Hgen; cbn.
    + destruct (compositor_ impl frame crop face) as [frame'|e] eqn:Hcomp; cbn;
        rewrite <- ?app_assoc; eexists; (split; [reflexivity|]);
        (split; [done|]); [|right; right]; exists crop; eauto 10.
    + rewrite <- ?app_assoc. eexists. split; [reflexivity|]. split; [done|].
      right; left. eauto.
  - destruct (compositor_ impl frame cv.Mat_default face) as [frame'|e] eqn:Hcomp;
      cbn; rewrite <- ?app_assoc; eexists; (split; [reflexivity|]);
      (split; [done|]); [|right; right]; exists cv.Mat_default; eauto 10.
  - destruct (feedforward_generator_ impl _ _ _) as [crop|e] eqn:Hgen; cbn.
    + destruct (compositor_ impl frame crop face) as [frame'|e] eqn:Hcomp; cbn;
        rewrite <- ?app_assoc; eexists; (split; [reflexivity|]);
        (split; [done|]); [|right; right]; exists crop; eauto 10.
    + rewrite <- ?app_assoc. eexists. split; [reflexivity|]. split; [done|].
      right; left. eauto.
Qed.

(** The whole loop: no call of the detector; on success one composite per
    face, in order, each made for its face, and the frame that comes out is
    the result of these composites applied in turn. *)
Lemma for_each_cases (faces : list Face) :
  ∀ (frame : ImageData) (log : list Event),
    ∃ new,
      (for_each faces (process_face impl context) frame log).2 = log ++ new ∧
      List.filter is_detect new = [] ∧
      ∀ out,
        (for_each faces (process_face impl context) frame log).1 = Ok out →
        Forall2 (made_for impl context) faces (composite_calls new) ∧
        replay impl frame (composite_calls new) = Ok out.
Proof using Type.
  induction faces as [|face faces IH]; intros frame log.
  - exists []. cbn. rewrite app_nil_r. split; [done|]. split; [done|].
    intros out [= <-]. split; [constructor|done].
  - cbn [for_each]. unfold bind at 1 2.
    destruct (process_face_cases frame face log) as (new1 & Hlog1 & Hdet1 & Hcase).
    destruct (process_face impl context frame face log) as [[frame'|e] log1];
      cbn in Hlog1, Hcase; subst log1.
    + destruct Hcase as (crop & Hmade & Hcomp & Hcalls).
      destruct (IH frame' (log ++ new1)) as (new2 & Hlog2 & Hdet2 & Hok).
      exists (new1 ++ new2). rewrite Hlog2, <- app_assoc.
      split; [done|]. split.
      { by rewrite List.filter_app, Hdet1, Hdet2. }
      intros out Hout. destruct (Hok out Hout) as [Hall Hreplay].
      unfold composite_calls in *. rewrite omap_app, Hcalls. cbn.
      split; [by constructor|]. by rewrite Hcomp.
    + exists new1. repeat split; try done.
Qed.

End FaceLoop.

(** X17. On success with supplied faces, [processFrame] has called the
    compositor exactly once per face, in the order of the faces, each time
    with the crop the generator of the mode returned for that face (under
    the label map the parser returned for it); the output frame is what
    these composites, applied in turn to a copy of the input frame, give,
    and [processed_faces] is the list of faces. *)
Theorem processFrame_composites_in_order
    (impl : Engine.Impl) (start_time end_time : Z) (context : FrameContext)
    (log : list Engine.Event) :
  Engine.initialized_ impl = true →
  detected_faces context ≠ [] →
  let r := Engine.processFrame impl start_time end_time context log in
  success r.1 = true →
  ∃ new,
    r.2 = log ++ new ∧
    Forall2 (Calls.made_for impl context) (detected_faces context)
            (Trace.composite_calls new) ∧
    Calls.replay impl (input_frame context) (Trace.composite_calls new)
      = Ok (output_frame r.1) ∧
    processed_faces r.1 = detected_faces context.
Proof.
  intros Hinit Hfaces r.
  assert (r = Engine.processFrame impl start_time end_time context log) as E
    by reflexivity.
  clearbody r. revert E.
  unfold Engine.processFrame, Engine.try_catch, Engine.bind.
  rewrite Hinit. cbn.
  destruct (decide (detected_faces context = [])) as [?|_]; [done|].
  unfold Engine.ret at 1.
  destruct (decide (detected_faces context = [])) as [?|_]; [done|].
  destruct (for_each_cases impl context (detected_faces context)
              (cv.clone (input_frame context)) log) as (new & Hlog & _ & Hok).
  destruct (Engine.for_each _ _ _ _) as [[out|e] log'];
    cbn in Hlog, Hok; subst log'; intros ->; cbn; [|done].
  intros _. exists new. destruct (Hok out eq_refl) as [Hall Hreplay].
  done.
Qed.

Lemma processFrame_composites_in_order_witness :
  let context := Offline.context [Offline.face [[(1, 2, 3)]]] FEEDFORWARD in
  let r := Engine.processFrame (Offline.engine true) 0 7000000 context [] in
  ∃ new,
    r.2 = [] ++ new ∧
    Forall2 (Calls.made_for (Offline.engine true) context)
            (detected_faces context) (Trace.composite_calls new) ∧
    Calls.replay (Offline.engine true) (input_frame context)
                 (Trace.composite_calls new) = Ok (output_frame r.1) ∧
    processed_faces r.1 = detected_faces context.
Proof.
  apply (processFrame_composites_in_order (Offline.engine true) 0 7000000
           (Offline.context [Offline.face [[(1, 2, 3)]]] FEEDFORWARD) []);
    [reflexivity | discriminate | reflexivity].
Defined.

(** X18. No isolation between faces: when the parser throws on the last
    supplied face, the whole call fails, with an empty output frame, no
    processed faces, no metrics and a message that starts with
    "Processing failed: ", whatever was composited for the faces before. *)
Theorem processFrame_failure_discards_frame
    (impl : Engine.Impl) (start_time end_time : Z) (context : FrameContext)
    (log : list Engine.Event) (faces : list Face) (face : Face) (e : string) :
  Engine.initialized_ impl = true →
  detected_faces context = faces ++ [face] →
  Engine.face_parser_ impl (aligned_crop face) = Throw e →
  let r := Engine.processFrame impl start_time end_time context log in
  success r.1 = false ∧
  output_frame r.1 = cv.Mat_default ∧
  processed_faces r.1 = [] ∧
  metrics r.1 = ∅ ∧
  ∃ what, error_message r.1 = "Processing failed: " +:+ what.
Proof.
  intros Hinit Hfaces Hthrow r.
  assert (r = Engine.processFrame impl start_time end_time context log) as E
    by reflexivity.
  clearbody r. revert E.
  unfold Engine.processFrame, Engine.try_catch, Engine.bind.
  rewrite Hinit, Hfaces. cbn.
  destruct (decide (faces ++ [face] = [])) as [Hnil|_].
  { by destruct faces. }
  unfold Engine.ret at 1.
  destruct (decide (faces ++ [face] = [])) as [Hnil|_].
  { by destruct faces. }
  rewrite for_each_app.
  destruct (Engine.for_each faces _ _ _) as [[frame|e'] log1].
  - cbn [Engine.for_each]. unfold Engine.bind at 1.
    unfold Engine.process_face at 1. unfold Engine.bind at 1, Engine.call at 1.
    rewrite Hthrow. intros ->. cbn. repeat split. eauto.
  - intros ->. cbn. repeat split. eauto.
Qed.

Lemma processFrame_failure_discards_frame_witness :
  let impl :=
    {| Engine.initialized_ := true;
       Engine.processing_mode_ := FEEDFORWARD;
       Engine.face_detector_ := λ _, Ok [];
       Engine.face_parser_ :=
         λ crop, if decide (crop = [[(9, 9, 9)]]) then Throw "parser"
                 else Ok (cv.zeros (cv.size crop));
       Engine.feedforward_generator_ := λ crop _ _, Ok crop;
       Engine.diffusion_editor_ := λ crop _ _, Ok crop;
       Engine.compositor_ := λ frame _ _, Ok frame |} in
  let r := Engine.processFrame impl 0 7000000
             (Offline.context [Offline.face [[(1, 2, 3)]];
                               Offline.face [[(9, 9, 9)]]] FEEDFORWARD) [] in
  success r.1 = false ∧
  output_frame r.1 = cv.Mat_default ∧
  processed_faces r.1 = [] ∧
  metrics r.1 = ∅ ∧
  ∃ what, error_message r.1 = "Processing failed: " +:+ what.
Proof.
  apply (processFrame_failure_discards_frame _ 0 7000000
           (Offline.context [Offline.face [[(1, 2, 3)]];
                             Offline.face [[(9, 9, 9)]]] FEEDFORWARD) []
           [Offline.face [[(1, 2, 3)]]] (Offline.face [[(9, 9, 9)]]) "parser");
    reflexivity.
Defined.

(** X19. The detector is called only when the context brings no faces:
    then exactly once, on the input frame, before anything else; with
    supplied faces it is never called. *)
Theorem processFrame_detects_only_without_faces
    (impl : Engine.Impl) (start_time end_time : Z) (context : FrameContext)
    (log : list Engine.Event) :
  Engine.initialized_ impl = true →
  ∃ new,
    (Engine.processFrame impl start_time end_time context log).2 = log ++ new ∧
    List.filter Calls.is_detect new
      = (if decide (detected_faces context = [])
         then [Engine.DetectFaces (input_frame context)] else []) ∧
    (detected_faces context = [] →
     ∃ rest, new = Engine.DetectFaces (input_frame context) :: rest).
Proof.
  intros Hinit.
  unfold Engine.processFrame, Engine.try_catch, Engine.bind.
  rewrite Hinit. cbn.
  destruct (decide (detected_faces context = [])) as [Hnone|Hsome].
  - unfold Engine.call.
    destruct (Engine.face_detector_ impl (input_frame context)) as [faces|e]; cbn.
    2: { eexists. split; [reflexivity|]. split; [done|]. eauto. }
    destruct (decide (faces = [])) as [->|Hfaces]; cbn.
    { eexists. split; [reflexivity|]. split; [done|]. eauto. }
    destruct (for_each_cases impl context faces (cv.clone (input_frame context))
                (log ++ [Engine.DetectFaces (input_frame context)]))
      as (new & Hlog & Hdet & _).
    destruct (Engine.for_each _ _ _ _) as [[out|e] log'];
      cbn in Hlog; subst log'; cbn; rewrite <- app_assoc;
      eexists; (split; [reflexivity|]); cbn; rewrite Hdet; eauto.
  - unfold Engine.ret at 1.
    destruct (decide (detected_faces context = [])) as [?|_]; [done|].
    destruct (for_each_cases impl context (detected_faces context)
                (cv.clone (input_frame context)) log)
      as (new & Hlog & Hdet & _).
    destruct (Engine.for_each _ _ _ _) as [[out|e] log'];
      cbn in Hlog; subst log'; cbn;
      eexists; (split; [reflexivity|]); rewrite Hdet; done.
Qed.

Lemma processFrame_detects_only_without_faces_witness :
  ∃ new,
    (Engine.processFrame (Offline.engine true) 0 7000000
       (Offline.context [] FEEDFORWARD) []).2 = [] ++ new ∧
    List.filter Calls.is_detect new = [Engine.DetectFaces Offline.frame] ∧
    (detected_faces (Offline.context [] FEEDFORWARD) = [] →
     ∃ rest, new = Engine.DetectFaces Offline.frame :: rest).
Proof.
  apply (processFrame_detects_only_without_faces (Offline.engine true)
           0 7000000 (Offline.context [] FEEDFORWARD) []).
  reflexivity.
Defined.

(** X20. Only the mode of the frame context matters, and [AUTO] is handled
    as [FEEDFORWARD]: a context in mode [AUTO] gives the same result and the
    same calls as the same context in mode [FEEDFORWARD], and the mode set
    on the engine by [setProcessingMode] changes nothing. *)
Theorem processFrame_auto_is_feedforward
    (impl : Engine.Impl) (start_time end_time : Z) (context : FrameContext)
    (log : list Engine.Event) (m : ProcessingMode) :
  Engine.processFrame impl start_time end_time (with_mode context AUTO) log
  = Engine.processFrame impl start_time end_time
      (with_mode context FEEDFORWARD) log ∧
  Engine.processFrame (setProcessingMode impl m) start_time end_time context log
  = Engine.processFrame impl start_time end_time context log.
Proof. split; reflexivity. Qed.

(* ===================================================================== *)
(** ** The face detector                                                 *)
(* ===================================================================== *)

Section CropRect.
Import FaceDetector DetectorSpec.

Lemma checked_Some (z : Z) :
  - 2 ^ 31 ≤ z < 2 ^ 31 → CInt.checked z = Some z.
Proof using Type.
  intros Hz. unfold CInt.checked, CInt.in_range.
  destruct (Z.leb_spec (- 2 ^ 31) z), (Z.ltb_spec z (2 ^ 31)); cbn; done || lia.
Qed.

Lemma checked_inv (z r : Z) :
  CInt.checked z = Some r → r = z ∧ - 2 ^ 31 ≤ z < 2 ^ 31.
Proof using Type.
  unfold CInt.checked, CInt.in_range.
  destruct (Z.leb_spec (- 2 ^ 31) z), (Z.ltb_spec z (2 ^ 31)); cbn;
    intros [=]; lia.
Qed.

Lemma in_range_spec (z : Z) :
  CInt.in_range z = true ↔ - 2 ^ 31 ≤ z < 2 ^ 31.
Proof using Type.
  unfold CInt.in_range.
  destruct (Z.leb_spec (- 2 ^ 31) z), (Z.ltb_spec z (2 ^ 31)); cbn;
    split; done || lia.
Qed.

(** When [m(roi)] does not throw. *)
Lemma submat_Ok {A} (m : list (list A)) (roi : Rect) :
  (∃ crop, submat m roi = Ok crop) ↔
  0 ≤ rect_x roi ∧ 0 ≤ rect_width roi ∧
  rect_x roi + rect_width roi ≤ Z.of_nat (cv.cols m) ∧
  0 ≤ rect_y roi ∧ 0 ≤ rect_height roi ∧
  rect_y roi + rect_height roi ≤ Z.of_nat (cv.rows m).
Proof using Type.
  unfold submat.
  destruct (_ && _) eqn:Hroi.
  - rewrite !andb_true_iff, !Z.leb_le in Hroi. split; [lia | by eexists].
  - split; [by intros [crop [=]]|]. intros Hall.
    assert (true = false) as [=]. rewrite <- Hroi.
    symmetry. rewrite !andb_true_iff, !Z.leb_le. lia.
Qed.

Variable image_rows image_cols : Z.
Hypothesis Hrows : 0 ≤ image_rows < 2 ^ 31.
Hypothesis Hcols : 0 ≤ image_cols < 2 ^ 31.

(** The crop rectangle of a box whose padding stays in [int]. *)
Lemma crop_rect_paddable (b : Rect) :
  int_rect b → paddable b →
  crop_rect image_rows image_cols b
  = Some {| rect_x := Z.max 0 (rect_x b - 50);
            rect_y := Z.max 0 (rect_y b - 50);
            rect_width := Z.min (image_cols - Z.max 0 (rect_x b - 50))
                                (rect_width b + 100);
            rect_height := Z.min (image_rows - Z.max 0 (rect_y b - 50))
                                 (rect_height b + 100) |}.
Proof using Hrows Hcols.
  intros (Hx & Hy & Hw & Hh) (Hpx & Hpy & Hpw & Hph).
  apply in_range_spec in Hx, Hy, Hw, Hh.
  unfold crop_rect, CInt.sub, CInt.add.
  rewrite (checked_Some (rect_x b - 50)) by lia. cbn.
  rewrite (checked_Some (rect_y b - 50)) by lia. cbn.
  rewrite (checked_Some (image_cols - _)) by lia. cbn.
  rewrite (checked_Some (rect_width b + _)) by lia. cbn.
  rewrite (checked_Some (image_rows - _)) by lia. cbn.
  rewrite (checked_Some (rect_height b + _)) by lia. cbn.
  done.
Qed.

(** A crop rectangle that is defined is the one of a paddable box. *)
Lemma crop_rect_defined (b r : Rect) :
  crop_rect image_rows image_cols b = Some r → paddable b.
Proof using Type.
  unfold crop_rect, CInt.sub, CInt.add, paddable.
  destruct (CInt.checked (rect_x b - 50)) as [x|] eqn:Hx; [|done]. cbn.
  destruct (CInt.checked (rect_y b - 50)) as [y|] eqn:Hy; [|done]. cbn.
  destruct (CInt.checked (image_cols - _)) as [rx|] eqn:Hrx; [|done]. cbn.
  destruct (CInt.checked (rect_width b + _)) as [w|] eqn:Hw; [|done]. cbn.
  destruct (CInt.checked (image_rows - _)) as [ry|] eqn:Hry; [|done]. cbn.
  destruct (CInt.checked (rect_height b + _)) as [h|] eqn:Hh; [|done]. cbn.
  intros _.
  apply checked_inv in Hx as [_ Hx], Hy as [_ Hy], Hw as [_ Hw], Hh as [_ Hh].
  lia.
Qed.

End CropRect.

(** X21. For an image of at most 2^31 - 101 rows and columns and a box of
    [int]s, the crop rectangle is defined exactly when the padding stays
    in [int].  Its origin is then not negative and its right and bottom
    edges are within the width and the height, but its size is negative,
    and taking the crop throws, unless the padded box meets the image: the
    crop is a rectangle of the image exactly when the box starts at most
    50 pixels past the right and bottom border and its width and height
    are at least -100.  For a box that lies in the image the crop is
    defined, contains the box and adds at most 50 pixels on each side. *)
Theorem crop_rect_in_image (image : ImageData) (b : FaceDetector.Rect) :
  Z.of_nat (cv.rows image) ≤ 2 ^ 31 - 101 →
  Z.of_nat (cv.cols image) ≤ 2 ^ 31 - 101 →
  DetectorSpec.int_rect b →
  let image_rows := Z.of_nat (cv.rows image) in
  let image_cols := Z.of_nat (cv.cols image) in
  let whole := {| FaceDetector.rect_x := 0; FaceDetector.rect_y := 0;
                  FaceDetector.rect_width := image_cols;
                  FaceDetector.rect_height := image_rows |} in
  (is_Some (FaceDetector.crop_rect image_rows image_cols b) ↔
   DetectorSpec.paddable b) ∧
  (∀ r, FaceDetector.crop_rect image_rows image_cols b = Some r →
     (0 ≤ FaceDetector.rect_x r ∧ 0 ≤ FaceDetector.rect_y r ∧
      FaceDetector.rect_x r + FaceDetector.rect_width r ≤ image_cols ∧
      FaceDetector.rect_y r + FaceDetector.rect_height r ≤ image_rows) ∧
     ((0 ≤ FaceDetector.rect_width r ∧ 0 ≤ FaceDetector.rect_height r) ↔
      DetectorSpec.meets image_rows image_cols b) ∧
     ((∃ crop, FaceDetector.submat image r = Ok crop) ↔
      DetectorSpec.meets image_rows image_cols b)) ∧
  (FaceDetector.inside b whole →
   0 ≤ FaceDetector.rect_width b → 0 ≤ FaceDetector.rect_height b →
   ∃ r, FaceDetector.crop_rect image_rows image_cols b = Some r ∧
        FaceDetector.inside b r ∧
        0 ≤ FaceDetector.rect_width r ≤ FaceDetector.rect_width b + 100 ∧
        0 ≤ FaceDetector.rect_height r ≤ FaceDetector.rect_height b + 100 ∧
        FaceDetector.rect_x b - 50 ≤ FaceDetector.rect_x r ∧
        FaceDetector.rect_y b - 50 ≤ FaceDetector.rect_y r).
Proof.
  intros Hrows Hcols Hint image_rows image_cols whole.
  assert (0 ≤ image_rows < 2 ^ 31) as Hr by (subst image_rows; lia).
  assert (0 ≤ image_cols < 2 ^ 31) as Hc by (subst image_cols; lia).
  assert (∀ r, FaceDetector.crop_rect image_rows image_cols b = Some r →
               r = {| FaceDetector.rect_x := Z.max 0 (FaceDetector.rect_x b - 50);
                      FaceDetector.rect_y := Z.max 0 (FaceDetector.rect_y b - 50);
                      FaceDetector.rect_width :=
                        Z.min (image_cols - Z.max 0 (FaceDetector.rect_x b - 50))
                              (FaceDetector.rect_width b + 100);
                      FaceDetector.rect_height :=
                        Z.min (image_rows - Z.max 0 (FaceDetector.rect_y b - 50))
                              (FaceDetector.rect_height b + 100) |}) as Hform.
  { intros r Hcrop. pose proof (crop_rect_defined _ _ _ _ Hcrop) as Hpad.
    rewrite (crop_rect_paddable _ _ Hr Hc b Hint Hpad) in Hcrop.
    by injection Hcrop as <-. }
  split; [|split].
  - split.
    + intros [r Hcrop]. by apply (crop_rect_defined _ _ _ _ Hcrop).
    + intros Hpad. rewrite (crop_rect_paddable _ _ Hr Hc b Hint Hpad). by eexists.
  - intros r Hcrop. rewrite (Hform r Hcrop). rewrite submat_Ok.
    unfold DetectorSpec.meets. cbn. fold image_rows image_cols. lia.
  - intros Hin Hw Hh. pose proof Hint as (Hx & Hy & Hbw & Hbh).
    apply in_range_spec in Hx, Hy, Hbw, Hbh.
    unfold FaceDetector.inside in Hin. cbn in Hin.
    rewrite (crop_rect_paddable _ _ Hr Hc b);
      [|exact Hint|unfold DetectorSpec.paddable; lia].
    eexists. split; [reflexivity|]. unfold FaceDetector.inside. cbn. lia.
Qed.

Lemma crop_rect_in_image_witness :
  let b := {| FaceDetector.rect_x := 3; FaceDetector.rect_y := 1;
              FaceDetector.rect_width := 1; FaceDetector.rect_height := 1 |} in
  FaceDetector.crop_rect 2 4 b
  = Some {| FaceDetector.rect_x := 0; FaceDetector.rect_y := 0;
            FaceDetector.rect_width := 4; FaceDetector.rect_height := 2 |} ∧
  ∃ r, FaceDetector.crop_rect 2 4 b = Some r ∧ FaceDetector.inside b r.
Proof.
  split; [reflexivity|].
  destruct (crop_rect_in_image
              [[(0, 0, 0); (0, 0, 0); (0, 0, 0); (0, 0, 0)];
               [(0, 0, 0); (0, 0, 0); (0, 0, 0); (0, 0, 0)]]
              {| FaceDetector.rect_x := 3; FaceDetector.rect_y := 1;
                 FaceDetector.rect_width := 1; FaceDetector.rect_height := 1 |})
    as (_ & _ & Hinside); [cbn; lia | cbn; lia | by repeat split |].
  destruct Hinside as (r & Hcrop & Hin & _);
    [unfold FaceDetector.inside; cbn; lia | cbn; lia | cbn; lia |].
  exists r. by split.
Defined.

(** A box past the right border of a 640 x 480 image: the crop rectangle
    starts past the border with a negative width, and taking the crop
    throws. *)
Example crop_rect_past_border :
  FaceDetector.crop_rect 480 640
    {| FaceDetector.rect_x := 700; FaceDetector.rect_y := 10;
       FaceDetector.rect_width := 30; FaceDetector.rect_height := 40 |}
  = Some {| FaceDetector.rect_x := 650; FaceDetector.rect_y := 0;
            FaceDetector.rect_width := -10; FaceDetector.rect_height := 140 |} ∧
  FaceDetector.submat (replicate 480 (replicate 640 (0, 0, 0)))
    {| FaceDetector.rect_x := 650; FaceDetector.rect_y := 0;
       FaceDetector.rect_width := -10; FaceDetector.rect_height := 140 |}
  = Throw "roi out of range".
Proof. split; reflexivity. Qed.

Section DetectorLoop.
Import FaceDetector.

Variable impl : Impl.
Variable image : ImageData.
Variable boxes : list Rect.
Variable confidences : list spec_float.

Hypothesis Hconf :
  Forall (λ c, SFltb (confidence_threshold_ impl) c = true) confidences.
Hypothesis Hmax : 0 ≤ max_faces_ impl < 2 ^ 31.



Hypothesis Hrows : Z.of_nat (cv.rows image) < 2 ^ 31.
Hypothesis Hcols : Z.of_nat (cv.cols image) < 2 ^ 31.
Hypothesis Hboxes : Forall DetectorSpec.int_rect boxes.
Hypothesis Hlength : length confidences = length boxes.


End DetectorLoop.




(** A negative limit is no limit: it is compared as an unsigned size. *)
Example detectFaces_negative_limit :
  length <$>
    FaceDetector.detectFaces
      {| FaceDetector.model_loaded_ := true;
         FaceDetector.confidence_threshold_ := F32.lit 7 10;
         FaceDetector.nms_threshold_ := F32.lit 4 10;
         FaceDetector.max_faces_ := -1;
         FaceDetector.forward := λ _,
           Ok [[{| FaceDetector.det_confidence := F32.lit 9 10;
                   FaceDetector.det_x1 := F32.zero;
                   FaceDetector.det_y1 := F32.zero;
                   FaceDetector.det_x2 := F32.one;
                   FaceDetector.det_y2 := F32.one |}]];
         FaceDetector.NMSBoxes := λ _ _ _ _, Ok [0; 0; 0] |}
      Offline.frame = Some 3%nat.
Proof. vm_compute. reflexivity. Qed.

(** A detection that is not a number has no box: its conversion to [int]
    is undefined, and so is the run. *)
Example detectFaces_not_a_number :
  FaceDetector.detectFaces
    {| FaceDetector.model_loaded_ := true;
       FaceDetector.confidence_threshold_ := F32.lit 7 10;
       FaceDetector.nms_threshold_ := F32.lit 4 10;
       FaceDetector.max_faces_ := 10;
       FaceDetector.forward := λ _,
         Ok [[{| FaceDetector.det_confidence := F32.lit 9 10;
                 FaceDetector.det_x1 := S754_nan;
                 FaceDetector.det_y1 := F32.zero;
                 FaceDetector.det_x2 := F32.one;
                 FaceDetector.det_y2 := F32.one |}]];
       FaceDetector.NMSBoxes := λ _ _ _ _, Ok [0] |}
    Offline.frame = None.
Proof. vm_compute. reflexivity. Qed.

(* ===================================================================== *)
(** ** The minimal build                                                 *)
(* ===================================================================== *)

(** X23. In the minimal build [processFrame] succeeds exactly on an
    initialized engine with a non-empty frame.  On success the output is
    the input frame, there is one face, carrying the frame number of the
    context, and the metrics are [processing_time_ms], [face_count] and
    [confidence]; on failure there is an error message and neither face
    nor metric nor output frame. *)
Theorem minimal_processFrame_outcome (impl : MinimalEngine.Impl)
    (context : MinimalEngine.FrameContext) :
  let r := MinimalEngine.processFrame impl context in
  (MinimalEngine.success r = true ↔
   MinimalEngine.initialized_ impl = true ∧
   MinimalEngine.empty (MinimalEngine.input_frame context) = false) ∧
  (MinimalEngine.success r = true →
   MinimalEngine.output_frame r = MinimalEngine.input_frame context ∧
   MinimalEngine.error_message r = EmptyString ∧
   (∃ f, MinimalEngine.processed_faces r = [f] ∧
         MinimalEngine.frame_number f = MinimalEngine.ctx_frame_number context ∧
         MinimalEngine.track_id f = 1 ∧
         MinimalEngine.face_id (MinimalEngine.box f) = 1) ∧
   ∀ k, is_Some (MinimalEngine.metrics r !! k) ↔
        k = "processing_time_ms" ∨ k = "face_count" ∨ k = "confidence") ∧
  (MinimalEngine.success r = false →
   MinimalEngine.error_message r ≠ EmptyString ∧
   MinimalEngine.processed_faces r = [] ∧
   MinimalEngine.metrics r = ∅ ∧
   MinimalEngine.output_frame r = MinimalEngine.ImageData_default).
Proof.
  intros r. assert (r = MinimalEngine.processFrame impl context) as Hr
    by reflexivity.
  clearbody r. revert Hr. unfold MinimalEngine.processFrame.
  destruct (MinimalEngine.initialized_ impl); cbn [negb];
    [destruct (MinimalEngine.empty _)|]; intros ->; cbn.
  - split; [split; [done|by intros [_ ?]]|]. split; [done|]. by intros _.
  - split; [done|]. split; [|done]. intros _.
    split; [done|]. split; [done|]. split.
    + eexists. split; [reflexivity|]. by cbn.
    + intros k. rewrite !lookup_insert_is_Some, lookup_empty.
      split.
      * intros [ <- | [_ [ <- | [_ [ <- | [_ [? ?]]]]]]]; auto. done.
      * intros [ -> | [ -> | -> ] ]; [right|right|left]; try done.
        -- split; [done|]. right. split; [done|]. by left.
        -- split; [done|]. by left.
  - split; [split; [done|by intros [? _]]|]. split; [done|]. by intros _.
Qed.

Section Lifecycle.
Import MinimalLifecycle.

Lemma after_snoc (calls : list Call) (c : Call) :
  after (calls ++ [c]) = step (after calls) c.
Proof. unfold after. by rewrite foldl_app. Qed.

Lemma snoc_split {A} (before later l : list A) (x c : A) :
  before ++ x :: later = l ++ [c] →
  (later = [] ∧ x = c ∧ before = l) ∨
  (∃ later', later = later' ++ [c] ∧ l = before ++ x :: later').
Proof.
  destruct later as [|y later _] using rev_ind.
  - intros H. apply app_inj_tail in H as [-> ->]. by left.
  - intros H. right. exists later.
    rewrite app_comm_cons, app_assoc in H.
    apply app_inj_tail in H as [<- ->]. done.
Qed.

Lemma initialized_started (calls : list Call) :
  MinimalEngine.initialized_ (impl (after calls)) = true ↔ started calls.
Proof.
  induction calls as [|c calls IH] using rev_ind.
  - split; [done|]. intros (before & config & later & H & _).
    by destruct before.
  - rewrite after_snoc. destruct c as [config|path|m|]; cbn.
    + split; [intros _|done]. exists calls, config, [].
      split; [done|]. apply not_elem_of_nil.
    + rewrite IH. split.
      * intros (before & config & later & -> & Hno).
        exists before, config, (later ++ [LoadModels path]).
        split; [by rewrite <- app_assoc|].
        rewrite elem_of_app, list_elem_of_singleton. by intros [?|?].
      * intros (before & config & later & H & Hno).
        symmetry in H. apply snoc_split in H as [(_ & ? & _)|(later' & -> & ->)]; [done|].
        exists before, config, later'. split; [done|].
        intros Hin. apply Hno. apply elem_of_app. by left.
    + rewrite IH. split.
      * intros (before & config & later & -> & Hno).
        exists before, config, (later ++ [SetProcessingMode m]).
        split; [by rewrite <- app_assoc|].
        rewrite elem_of_app, list_elem_of_singleton. by intros [?|?].
      * intros (before & config & later & H & Hno).
        symmetry in H. apply snoc_split in H as [(_ & ? & _)|(later' & -> & ->)]; [done|].
        exists before, config, later'. split; [done|].
        intros Hin. apply Hno. apply elem_of_app. by left.
    + split; [done|]. intros (before & config & later & H & Hno).
      symmetry in H. apply snoc_split in H as [(_ & ? & _)|(later' & -> & ->)]; [done|].
      destruct Hno. apply elem_of_app. right. by apply list_elem_of_singleton.
Qed.

Lemma mode_kept (calls : list Call) (e : Engine) :
  (∀ m, SetProcessingMode m ∉ calls) →
  getProcessingMode (foldl step e calls) = getProcessingMode e.
Proof.
  revert e. induction calls as [|c calls IH]; intros e Hno; [done|].
  cbn [foldl]. rewrite IH.
  - destruct c as [config|path|m|]; try done.
    destruct (Hno m). by left.
  - intros m Hin. apply (Hno m). by right.
Qed.

End Lifecycle.

(** X24. After any sequence of [initialize], [loadModels],
    [setProcessingMode] and [shutdown] calls on a new engine of the
    minimal build, [loadModels] returns true exactly when some
    [initialize] has no [shutdown] after it, whether the model path exists
    or not, and [processFrame] succeeds exactly when, besides, the frame
    is not empty.  The processing mode is the one set last, whatever was
    called since. *)
Theorem minimal_engine_lifecycle (calls : list MinimalLifecycle.Call)
    (fileExists : string → bool) (model_path : string)
    (context : MinimalEngine.FrameContext) :
  ((MinimalLifecycle.loadModels fileExists (MinimalLifecycle.after calls)
      model_path).1 = true ↔ MinimalLifecycle.started calls) ∧
  (MinimalEngine.success
     (MinimalLifecycle.processFrame (MinimalLifecycle.after calls) context) = true ↔
   MinimalLifecycle.started calls ∧
   MinimalEngine.empty (MinimalEngine.input_frame context) = false) ∧
  (∀ before m later,
     calls = before ++ MinimalLifecycle.SetProcessingMode m :: later →
     (∀ m', MinimalLifecycle.SetProcessingMode m' ∉ later) →
     MinimalLifecycle.getProcessingMode (MinimalLifecycle.after calls) = m) ∧
  ((∀ m, MinimalLifecycle.SetProcessingMode m ∉ calls) →
   MinimalLifecycle.getProcessingMode (MinimalLifecycle.after calls) = FEEDFORWARD).
Proof.
  rewrite <- initialized_started. split; [|split; [|split]].
  - unfold MinimalLifecycle.loadModels.
    by destruct (MinimalEngine.initialized_ _).
  - unfold MinimalLifecycle.processFrame, MinimalEngine.processFrame.
    destruct (MinimalEngine.initialized_ _); cbn [negb].
    + destruct (MinimalEngine.empty _); cbn; split; try done; by intros [_ ?].
    + cbn. split; [done|]. by intros [? _].
  - intros before m later -> Hno. unfold MinimalLifecycle.after.
    rewrite foldl_app. cbn [foldl]. by rewrite mode_kept.
  - intros Hno. unfold MinimalLifecycle.after. by rewrite mode_kept.
Qed.

Lemma minimal_engine_lifecycle_witness :
  let calls := [MinimalLifecycle.SetProcessingMode HYBRID;
                MinimalLifecycle.Initialize
                  {| backend := CPU_FALLBACK; model_path := "m";
                     use_half_precision := false; batch_size := 1;
                     max_resolution := 512 |};
                MinimalLifecycle.Shutdown] in
  MinimalLifecycle.getProcessingMode (MinimalLifecycle.after calls) = HYBRID ∧
  ¬ MinimalLifecycle.started calls.
Proof.
  intros calls.
  destruct (minimal_engine_lifecycle calls (λ _, true) "m"
              Offline.minimal_context) as (Hload & _ & Hmode & _).
  split.
  - apply (Hmode [] HYBRID (tail calls) eq_refl).
    intros m' Hin. apply list_elem_of_In in Hin. cbn in Hin.
    destruct Hin as [?|[?|[]]]; discriminate.
  - intros Hstarted. apply Hload in Hstarted. discriminate.
Defined.

(* ===================================================================== *)
(** ** [splitString]                                                     *)
(* ===================================================================== *)

Section SplitString.
Import Utils.

Variable delimiter : Ascii.ascii.

Lemma string_app_assoc (a b c : string) : (a +:+ b) +:+ c = a +:+ (b +:+ c).
Proof using Type. induction a as [|x a IH]; cbn; [done|exact (f_equal _ IH)]. Qed.

(** What [take_token] returns: the token has no delimiter in it, and the
    string is the token alone, or the token, a delimiter and the rest. *)
Lemma take_token_spec (s : string) :
  ¬ occurs delimiter (take_token s delimiter).1 ∧
  ((s = (take_token s delimiter).1 ∧ (take_token s delimiter).2 = EmptyString ∧
    ¬ occurs delimiter s) ∨
   s = (take_token s delimiter).1
         +:+ String delimiter (take_token s delimiter).2).
Proof using Type.
  induction s as [|c s IH]; cbn.
  - split; [tauto|]. left. tauto.
  - destruct (decide (c = delimiter)) as [->|Hne]; cbn.
    + split; [tauto|]. by right.
    + destruct (take_token s delimiter) as [token rest]; cbn in *.
      destruct IH as [Hno [(Hs & Hrest & Hnone)|Hs]].
      * split; [tauto|]. left. split; [congruence|]. split; [done|]. tauto.
      * split; [tauto|]. right.
        change (String c s = String c (token +:+ String delimiter rest)).
        by f_equal.
Qed.

Lemma take_token_shorter (c : Ascii.ascii) (s : string) :
  (String.length (take_token (String c s) delimiter).2 < S (String.length s))%nat.
Proof using Type.
  revert c. induction s as [|c' s IH]; intros c; cbn.
  - destruct (decide (c = delimiter)); cbn; lia.
  - destruct (decide (c = delimiter)); cbn; [lia|].
    specialize (IH c'). cbn in IH.
    destruct (decide (c' = delimiter)); cbn in *; [lia|].
    destruct (take_token s delimiter) as [token rest]; cbn in *. lia.
Qed.

Lemma split_loop_acc (fuel : nat) (s : string) (tokens : list string) :
  split_loop fuel s delimiter tokens
  = tokens ++ split_loop fuel s delimiter [].
Proof using Type.
  revert s tokens. induction fuel as [|fuel IH]; intros s tokens; cbn.
  - by rewrite app_nil_r.
  - destruct (getline s delimiter) as [[token rest]|]; [|by rewrite app_nil_r].
    rewrite (IH rest (tokens ++ [token])), (IH rest [token]).
    by rewrite <- app_assoc.
Qed.

Lemma split_loop_step (fuel : nat) (c : Ascii.ascii) (s : string) :
  split_loop (S fuel) (String c s) delimiter []
  = (take_token (String c s) delimiter).1
      :: split_loop fuel (take_token (String c s) delimiter).2 delimiter [].
Proof using Type.
  cbn [split_loop getline]. destruct (take_token _ _) as [token rest].
  by rewrite split_loop_acc.
Qed.

(** More fuel than the string is long changes nothing. *)
Lemma split_loop_fuel (n m : nat) (s : string) :
  (String.length s < n)%nat → (String.length s < m)%nat →
  split_loop n s delimiter [] = split_loop m s delimiter [].
Proof using Type.
  revert m s. induction n as [|n IH]; intros m s Hn Hm; [lia|].
  destruct m as [|m]; [lia|]. destruct s as [|c s]; [done|].
  rewrite !split_loop_step. f_equal.
  pose proof (take_token_shorter c s). cbn in Hn, Hm. apply IH; lia.
Qed.

Lemma split_loop_tokens (fuel : nat) (s : string) :
  Forall (λ token, ¬ occurs delimiter token) (split_loop fuel s delimiter []).
Proof using Type.
  revert s. induction fuel as [|fuel IH]; intros s; [constructor|].
  destruct s as [|c s]; [constructor|]. rewrite split_loop_step.
  constructor; [apply take_token_spec | apply IH].
Qed.

Lemma ends_with_absent (s : string) :
  ¬ occurs delimiter s → ends_with s delimiter = false.
Proof using Type.
  induction s as [|c s IH]; [done|]. cbn. intros Hno.
  destruct s as [|c' s].
  - apply bool_decide_eq_false. tauto.
  - apply IH. tauto.
Qed.

Lemma ends_with_app (token rest : string) :
  rest ≠ EmptyString →
  ends_with (token +:+ String delimiter rest) delimiter
  = ends_with rest delimiter.
Proof using Type.
  intros Hrest. induction token as [|c token IH]; cbn.
  - by destruct rest.
  - rewrite <- IH. by destruct token.
Qed.

Lemma ends_with_delimiter (token : string) :
  ends_with (token +:+ String delimiter EmptyString) delimiter = true.
Proof using Type.
  induction token as [|c token IH]; cbn.
  - by apply bool_decide_eq_true.
  - rewrite <- IH. by destruct token.
Qed.

(** The tokens, each followed by the delimiter, give the string back, with a
    delimiter added at its end when it has none. *)
Lemma split_loop_terminated (fuel : nat) (s : string) :
  (String.length s < fuel)%nat →
  terminated (split_loop fuel s delimiter []) delimiter
  = match s with
    | EmptyString => EmptyString
    | _ => if ends_with s delimiter then s
           else s +:+ String delimiter EmptyString
    end.
Proof using Type.
  revert s. induction fuel as [|fuel IH]; intros s Hfuel; [lia|].
  destruct s as [|c s]; [done|]. rewrite split_loop_step.
  pose proof (take_token_shorter c s) as Hshort.
  pose proof (take_token_spec (String c s)) as [_ Hspec].
  cbn [terminated]. rewrite IH by (cbn in Hfuel; lia).
  destruct (take_token (String c s) delimiter) as [token rest];
    cbn [fst snd] in *.
  destruct Hspec as [(Hs & -> & Hnone)|Hs].
  - rewrite (ends_with_absent _ Hnone). by rewrite <- Hs.
  - rewrite Hs. destruct rest as [|c' rest].
    + rewrite ends_with_delimiter.
      by destruct token.
    + rewrite ends_with_app by done.
      destruct (ends_with (String c' rest) delimiter).
      * by destruct token.
      * rewrite string_app_assoc. by destruct token.
Qed.

End SplitString.

(** X25. [splitString] returns tokens without the delimiter in them, and
    the tokens, each followed by the delimiter, spell the string again,
    with one delimiter added when the string does not end in one: the
    empty string has no token, a delimiter at the end of the string opens
    no empty last token, and every other delimiter closes a token, empty or
    not.  The loop ends: any number of rounds above the length of the
    string gives the same tokens. *)
Theorem splitString_round_trip (str : string) (delimiter : Ascii.ascii) :
  Forall (λ token, ¬ Utils.occurs delimiter token)
    (Utils.splitString str delimiter) ∧
  Utils.terminated (Utils.splitString str delimiter) delimiter
  = match str with
    | EmptyString => EmptyString
    | _ => if Utils.ends_with str delimiter then str
           else str +:+ String delimiter EmptyString
    end ∧
  ∀ fuel, (String.length str < fuel)%nat →
          Utils.split_loop fuel str delimiter []
          = Utils.splitString str delimiter.
Proof.
  split; [apply split_loop_tokens|]. split.
  - apply split_loop_terminated. lia.
  - intros fuel Hfuel. apply split_loop_fuel; lia.
Qed.

Section SplitExamples.
Import Stdlib.Strings.Ascii.

Example splitString_examples :
  Utils.splitString "a,b,,c" ","%char = ["a"; "b"; EmptyString; "c"] ∧
  Utils.splitString "a,b," ","%char = ["a"; "b"] ∧
  Utils.splitString ",a" ","%char = [EmptyString; "a"] ∧
  Utils.splitString EmptyString ","%char = [].
Proof using Type. repeat split. Qed.

End SplitExamples.

(* ===================================================================== *)
(** ** The command line                                                  *)
(* ===================================================================== *)

Section CommandLine.
Import Cli.

Variable stof : string → Except spec_float.
Variable stoi : string → Except Z.

(** What the loop of [parseArguments] does to the two flags. *)
Lemma parse_flags (n : nat) (args : list string) (c c' : CLIConfig) :
  (length args ≤ n)%nat →
  parse stof stoi args c = Ok c' →
  (temporal_stability c = true → temporal_stability c' = true) ∧
  (help c = true → help c' = true) ∧
  (help c' = true → help c = true ∨ "-h" ∈ args ∨ "--help" ∈ args).
Proof using Type.
  revert args c c'. induction n as [|n IH]; intros args c c' Hlen Hparse.
  { destruct args; [|cbn in Hlen; lia]. cbn in Hparse.
    injection Hparse as <-. tauto. }
  destruct args as [|arg rest]; [cbn in Hparse; injection Hparse as <-; tauto|].
  cbn [parse] in Hparse. cbn [length] in Hlen.
  destruct (decide (arg = "-h" ∨ arg = "--help")) as [Hhelp|_].
  { apply IH in Hparse as (H1 & H2 & H3); [|lia]. cbn in H1, H2, H3.
    split; [done|]. split; [auto|]. intros _. right.
    destruct Hhelp as [->| ->]; [left|right]; by left. }
  destruct rest as [|value rest'].
  { destruct (decide (arg = "--temporal-stability"));
      injection Hparse as <-; cbn; tauto. }
  cbn [length] in Hlen.
  repeat (match type of Hparse with
          | (if ?d then _ else _) = _ => destruct d as [_|_]
          | match ?o with Ok _ => _ | Throw _ => _ end = _ =>
              destruct o; [|discriminate]
          end);
    (apply IH in Hparse as (H1 & H2 & H3); [|cbn [length]; lia]);
    cbn in H1, H2, H3; (split; [tauto|]); (split; [tauto|]);
    intros Hh; specialize (H3 Hh); rewrite ?elem_of_cons in H3;
    rewrite !elem_of_cons; tauto.
Qed.

Local Ltac listed := cbn; repeat (first [by left | right]).

(** An argument that is no option is passed over. *)
Lemma parse_unknown (arg : string) (rest : list string) (c : CLIConfig) :
  arg ∉ options → parse stof stoi (arg :: rest) c = parse stof stoi rest c.
Proof using Type.
  intros Hno. cbn [parse].
  assert (∀ name, In name options → arg ≠ name) as Hne.
  { intros name Hin ->. apply Hno. by apply list_elem_of_In. }
  destruct (decide (arg = "-h" ∨ arg = "--help")) as [[H|H]|_];
    [apply Hne in H; [done|listed]..|].
  destruct rest as [|value rest'].
  { destruct (decide (arg = "--temporal-stability")) as [H|_]; [|done].
    apply Hne in H; [done|listed]. }
  repeat (match goal with
          | |- (if ?d then _ else _) = _ =>
              destruct d as [H|_];
              [exfalso;
               first [ apply Hne in H; [done|listed]
                     | destruct H as [H|H]; (apply Hne in H; [done|listed]) ]|]
          end).
  done.
Qed.

End CommandLine.

(** X26. However the command line reads, a configuration that
    [parseArguments] returns has temporal stability on, there being no
    option that turns it off; its help flag is set only if [-h] or
    [--help] is among the arguments, and it is set when one of them comes
    first, in which case [main] prints the usage and returns 0 without
    touching the engine. *)
Theorem parseArguments_flags (stof : string → Except spec_float)
    (stoi : string → Except Z) (args : list string) (c : Cli.CLIConfig) :
  Cli.parseArguments stof stoi args = Ok c →
  Cli.temporal_stability c = true ∧
  (Cli.help c = true → "-h" ∈ args ∨ "--help" ∈ args) ∧
  (head args = Some "-h" ∨ head args = Some "--help" →
   Cli.help c = true ∧ Cli.usage_exit c = Some 0).
Proof.
  intros Hparse.
  pose proof (parse_flags stof stoi (length args) args _ _ (le_n _) Hparse)
    as (H1 & _ & H3).
  split; [by apply H1|]. split.
  - intros Hh. by destruct (H3 Hh).
  - intros Hfirst.
    assert (Cli.help c = true) as Hhelp.
    { destruct args as [|arg rest]; [by destruct Hfirst|].
      unfold Cli.parseArguments in Hparse. cbn [Cli.parse] in Hparse.
      destruct (decide (arg = "-h" ∨ arg = "--help")) as [_|Hno].
      - apply (parse_flags stof stoi (length rest) rest _ _ (le_n _)) in Hparse
          as (_ & H2 & _). by apply H2.
      - destruct Hno. cbn in Hfirst. destruct Hfirst as [[= ->]|[= ->]]; tauto. }
    split; [done|]. unfold Cli.usage_exit. by rewrite Hhelp.
Qed.

Lemma parseArguments_flags_witness :
  let stof := λ _ : string, Throw "invalid_argument" in
  let stoi := λ _ : string, Throw "invalid_argument" in
  let args := ["--help"; "-i"; "in.mp4"; "--temporal-stability"] in
  ∃ c, Cli.parseArguments stof stoi args = Ok c ∧
       Cli.temporal_stability c = true ∧ Cli.usage_exit c = Some 0.
Proof.
  intros stof stoi args. eexists. split; [reflexivity|].
  destruct (parseArguments_flags stof stoi args _ eq_refl) as (Hon & _ & Hhelp).
  split; [exact Hon|]. apply Hhelp. by right.
Defined.

(** X27. Arguments that are not options are passed over: a command line
    made of such arguments only gives the default configuration, on which
    [main] prints the usage and returns -1. *)
Theorem parseArguments_ignores_unknown (stof : string → Except spec_float)
    (stoi : string → Except Z) (args : list string) :
  Forall (λ arg, arg ∉ Cli.options) args →
  Cli.parseArguments stof stoi args = Ok Cli.CLIConfig_default ∧
  Cli.usage_exit Cli.CLIConfig_default = Some (-1).
Proof.
  intros Hargs. split; [|reflexivity]. unfold Cli.parseArguments.
  induction Hargs as [|arg rest Hno _ IH]; [done|].
  by rewrite parse_unknown.
Qed.

Lemma parseArguments_ignores_unknown_witness :
  Cli.parseArguments (λ _, Throw "invalid_argument")
    (λ _, Throw "invalid_argument") ["input.mp4"; "--fast"; "-x"]
  = Ok Cli.CLIConfig_default ∧
  Cli.usage_exit Cli.CLIConfig_default = Some (-1).
Proof.
  apply (parseArguments_ignores_unknown (λ _, Throw "invalid_argument")
           (λ _, Throw "invalid_argument") ["input.mp4"; "--fast"; "-x"]).
  repeat constructor; intros Hin; apply list_elem_of_In in Hin; cbn in Hin;
    repeat (destruct Hin as [Hin|Hin]; [discriminate|]); done.
Defined.

(* ===================================================================== *)
(** ** The available backends                                            *)
(* ===================================================================== *)

(** X28. Whatever the build has found, [getAvailableBackends] lists the
    CPU fallback first, lists no backend twice, and lists a GPU backend
    exactly when the build has found it; the minimal build lists what a
    build that has found nothing lists. *)
Theorem getAvailableBackends_lists (cuda_found metal_found directml_found : bool) :
  let backends := getAvailableBackends cuda_found metal_found directml_found in
  head backends = Some CPU_FALLBACK ∧
  NoDup backends ∧
  (∀ b, b ∈ backends ↔
        b = CPU_FALLBACK ∨ (b = CUDA ∧ cuda_found = true) ∨
        (b = METAL ∧ metal_found = true) ∨
        (b = DIRECTML ∧ directml_found = true)) ∧
  MinimalLifecycle.getAvailableBackends = getAvailableBackends false false false.
Proof.
  destruct cuda_found, metal_found, directml_found; cbn;
    (split; [done|]); (split; [by apply (bool_decide_unpack _)|]);
    (split; [|done]); intros b; rewrite !elem_of_cons, elem_of_nil;
    destruct b; split; intros H; try tauto;
    repeat (destruct H as [H|H]); try destruct H; try discriminate; tauto.
Qed.

(* ===================================================================== *)
(** ** The clients' set-up of the engine                                 *)
(* ===================================================================== *)

Section ClientSetup.
Import EngineSetup Clients.

Variable env : Collaborators.

(** [initialize] on a new engine: one call of the GPU memory manager, no
    exception, and an engine that is initialized exactly on success. *)
Lemma initialize_createEngine (config : ModelConfig) (log : list Event) :
  ∃ ok,
    initialize env createEngine config log
    = (Ok (ok, {| initialized_ := ok; config_ := Some config;
                  error_callback_ := None |}),
       log ++ [GpuInitialize (backend config)]) ∧
    (ok = true ↔ components_ready env (backend config)).
Proof using Type.
  unfold initialize, try_catch, bind, call, error_callback, lift, ret,
    components_ready, createEngine.
  destruct (gpu_initialize env (backend config)) as [[]|e];
    destruct (make_components env) as [[]|e']; cbn;
    eexists; (split; [reflexivity|]); split; try done; by intros [? ?].
Qed.

(** With everything in place [loadModels] returns true. *)
Lemma loadModels_ready (st : State) (model_dir : string) (log : list Event) :
  initialized_ st = true → models_ready env model_dir →
  (loadModels env st model_dir log).1 = Ok true.
Proof using Type.
  intros Hinit (H1 & H2 & H3 & H4 & b & H5).
  unfold loadModels, load_required, try_catch, bind, call, ret.
  by rewrite Hinit, H1, H2, H3, H4, H5.
Qed.

(** [loadModels] on an initialized engine without error callback. *)
Lemma loadModels_silent (config : option ModelConfig) (model_dir : string)
    (log : list Event) :
  let st := {| initialized_ := true; config_ := config;
               error_callback_ := None |} in
  ∃ new,
    (loadModels env st model_dir log).2 = log ++ new ∧
    List.filter is_callback new = [] ∧
    (((loadModels env st model_dir log).1 = Ok true ∧
      models_ready env model_dir) ∨
     ((loadModels env st model_dir log).1 = Throw "bad_function_call" ∧
      ¬ models_ready env model_dir)).
Proof using Type.
  intros st.
  destruct (loadModels_cases env st model_dir log) as (new & Hlog & _ & Hcase).
  exists new. split; [done|].
  destruct ((loadModels env st model_dir log).1) as [[]|what] eqn:Hrun.
  - destruct Hcase as (_ & Hready & _ & Hcb).
    split; [done|]. by left.
  - by destruct Hcase as (_ & [callback [=]] & _).
  - destruct Hcase as (Hnot & -> & Hcb). split; [done|]. right.
    split; [done|]. intros Hready. by destruct Hnot.
Qed.

End ClientSetup.

(** X29. [main] sets no error callback, so with [Engine::loadModels] doing
    what [Impl::loadModels] does it never reports a model that fails to
    load: it returns -1 with its message only when [initialize] fails,
    goes on to the video when everything loads, and otherwise leaves by
    the [std::bad_function_call] that the engine throws, which nothing in
    [main] catches.  No callback is called on the way. *)
Theorem main_never_reports_load_failure (env : EngineSetup.Collaborators)
    (config : Cli.CLIConfig) (log : list EngineSetup.Event) :
  let run := Clients.main_setup env (EngineSetup.loadModels env) config log in
  (∃ new, run.2 = log ++ new ∧ List.filter EngineSetup.is_callback new = []) ∧
  match run.1 with
  | Ok None =>
      Clients.components_ready env (Cli.gpu_backend config) ∧
      Clients.models_ready env (Cli.models_path config)
  | Ok (Some (code, message)) =>
      code = -1 ∧ message = "Error: Failed to initialize UFRa engine" ∧
      ¬ Clients.components_ready env (Cli.gpu_backend config)
  | Throw what =>
      what = "bad_function_call" ∧
      Clients.components_ready env (Cli.gpu_backend config) ∧
      ¬ Clients.models_ready env (Cli.models_path config)
  end.
Proof.
  cbn zeta. unfold Clients.main_setup, EngineSetup.bind.
  destruct (initialize_createEngine env
              {| model_path := ""; backend := Cli.gpu_backend config;
                 batch_size := Cli.cli_batch_size config;
                 use_half_precision := true; max_resolution := 1024 |} log)
    as (ok & -> & Hok).
  cbn [backend] in Hok. destruct ok; cbn [fst snd negb].
  - destruct (loadModels_silent env
                (Some {| model_path := ""; backend := Cli.gpu_backend config;
                         batch_size := Cli.cli_batch_size config;
                         use_half_precision := true; max_resolution := 1024 |})
                (Cli.models_path config)
                (log ++ [EngineSetup.GpuInitialize (Cli.gpu_backend config)]))
      as (new & Hlog & Hcb & Hcase).
    cbn zeta in Hlog, Hcase. cbn [backend].
    destruct (EngineSetup.loadModels env _ _ _) as [outcome log'].
    cbn [fst snd] in Hlog, Hcase. subst log'.
    destruct Hcase as [[-> Hready]|[-> Hnot]]; cbn.
    + split; [|by split; [apply Hok|]].
      eexists. by rewrite <- app_assoc.
    + split; [|by split; [|split; [apply Hok|]]].
      eexists. by rewrite <- app_assoc.
  - cbn. split; [by eexists|]. split; [done|]. split; [done|].
    intros Hready. by apply Hok in Hready.
Qed.

(** X30. [UFRaPlugin::setupEngine] never throws and calls no callback;
    with [Engine::loadModels] doing what [Impl::loadModels] does, it
    leaves [engineInitialized_] set exactly when the GPU memory manager
    and the components come up and the models under
    [/usr/local/share/ufra/models] load. *)
Theorem setupEngine_outcome (env : EngineSetup.Collaborators)
    (log : list EngineSetup.Event) :
  ∃ engineInitialized_ new,
    Clients.setupEngine env (EngineSetup.loadModels env) log
    = (Ok engineInitialized_, log ++ new) ∧
    List.filter EngineSetup.is_callback new = [] ∧
    (engineInitialized_ = true ↔
     Clients.components_ready env CUDA ∧
     Clients.models_ready env "/usr/local/share/ufra/models").
Proof.
  unfold Clients.setupEngine, EngineSetup.try_catch, EngineSetup.bind.
  destruct (initialize_createEngine env
              {| model_path := ""; backend := CUDA; batch_size := 1;
                 use_half_precision := true; max_resolution := 1024 |} log)
    as (ok & -> & Hok).
  cbn [backend] in Hok. destruct ok; cbn [fst snd].
  - destruct (loadModels_silent env
                (Some {| model_path := ""; backend := CUDA; batch_size := 1;
                         use_half_precision := true; max_resolution := 1024 |})
                "/usr/local/share/ufra/models"
                (log ++ [EngineSetup.GpuInitialize CUDA]))
      as (new & Hlog & Hcb & Hcase).
    cbn zeta in Hlog, Hcase. cbn [backend].
    destruct (EngineSetup.loadModels env _ _ _) as [outcome log'].
    cbn [fst snd] in Hlog, Hcase. subst log'.
    destruct Hcase as [[-> Hready]|[-> Hnot]]; cbn.
    + exists true. eexists. split; [by rewrite <- app_assoc|].
      split; [done|]. split; [intros _|done]. split; [by apply Hok|done].
    + exists false. eexists. split; [by rewrite <- app_assoc|].
      split; [done|]. split; [done|]. by intros [_ ?].
  - cbn. exists false. eexists. split; [done|]. split; [done|].
    split; [done|]. intros [Hready _]. by apply Hok in Hready.
Qed.

(** A parser model that does not load: [main] ends in the exception, having
    asked for three models. *)
Example main_setup_missing_model :
  let env := {| EngineSetup.gpu_initialize := λ _, Ok true;
                EngineSetup.make_components := Ok tt;
                EngineSetup.loadModel := λ c _,
                  match c with
                  | EngineSetup.ParserModel => Ok false
                  | _ => Ok true
                  end |} in
  Clients.main_setup env (EngineSetup.loadModels env) Cli.CLIConfig_default []
  = (Throw "bad_function_call",
     [EngineSetup.GpuInitialize CUDA;
      EngineSetup.LoadModel EngineSetup.Detector
        "/usr/local/share/ufra/models/face_detector.onnx";
      EngineSetup.LoadModel EngineSetup.Estimator
        "/usr/local/share/ufra/models/age_estimator.onnx";
      EngineSetup.LoadModel EngineSetup.ParserModel
        "/usr/local/share/ufra/models/face_parser.onnx"]).
Proof. reflexivity. Qed.
